(** * Undo/redo snapshots (19-memento.js) and the order state machine
      (18-mediator.js, State pattern part)

    A shallow embedding of the two clusters of JavaScript classes the
    specification talks about, and the proofs of its testable properties.

    - [JS]: the JavaScript values the code handles, completions (normal
      return or exception), the state-and-exception monad the methods run
      in, and the [JSON.parse(JSON.stringify(v))] deep copy, with the
      [toJSON] methods it calls.
    - [MementoPattern]: [Memento], [Originator], [Caretaker];
      [EditorPattern]: [TextEditor], [EditorHistory].
    - [StatePattern]: the generic [Context] and the [Order] with its seven
      state classes, over a store of arrays so that array identity (the
      copy made by [getStateHistory]) is visible.
    - [AutomatonPattern], [ChatPattern], [DialogPattern]: the automaton,
      the chat room and the login dialog of 18-mediator.js. *)

From Stdlib Require Import Ascii String ZArith QArith.
From stdpp Require Import gmap strings list fin_maps pretty.

Open Scope string_scope.
Set Warnings "-register-all".

(* ===================================================================== *)
(** * JavaScript values, completions and the JSON deep copy               *)
(* ===================================================================== *)

Module JS.

(** Numbers.  A finite number carries an integer payload: every operation
    modelled here treats all finite numbers alike, except negative zero,
    which [JSON.stringify] prints as [0]. *)
Inductive JSNumber : Type :=
| Fin (z : Z)
| NegZero
| NaN
| PosInfinity
| NegInfinity.

(** Values.  Objects are plain objects, represented by their own
    enumerable properties in enumeration order; a function is opaque; a
    date is a valid [Date], represented by its ISO string. *)
Inductive JSValue : Type :=
| JUndefined
| JNull
| JBool (b : bool)
| JNum (n : JSNumber)
| JBigInt (z : Z)
| JStr (s : string)
| JFun (name : string)
| JDate (iso : string)
| JArr (elems : list JSValue)
| JObj (props : list (string * JSValue)).

(** What a [throw] carries. *)
Inductive Exception : Type :=
| Error (message : string)
| TypeError
| SyntaxError.

(** The outcome of evaluating a call. *)
Inductive Completion (A : Type) : Type :=
| Normal (v : A)
| Throw (e : Exception).
Arguments Normal {A} v.
Arguments Throw {A} e.

(** ** Methods: state passing with exceptions

    A method body is a function from the state before the call to its
    completion and the state after it.  An exception keeps the state
    reached when it was thrown. *)
Definition M (S A : Type) : Type := S -> Completion A * S.

Definition ret {S A} (v : A) : M S A := fun s => (Normal v, s).

Definition throw {S A} (e : Exception) : M S A := fun s => (Throw e, s).

Definition bind {S A B} (m : M S A) (k : A -> M S B) : M S B :=
  fun s => match m s with
           | (Normal v, s') => k v s'
           | (Throw e, s') => (Throw e, s')
           end.

Definition get {S} : M S S := fun s => (Normal s, s).
Definition gets {S A} (f : S -> A) : M S A := fun s => (Normal (f s), s).
Definition modify {S} (f : S -> S) : M S unit := fun s => (Normal tt, f s).

(** Lifting a pure computation that may throw. *)
Definition lift {S A} (c : Completion A) : M S A := fun s => (c, s).

Declare Scope js_scope.
Delimit Scope js_scope with js.
Notation "'let*' x ':=' m 'in' k" := (bind m (fun x => k))
  (at level 10, x name, m at level 200, k at level 200) : js_scope.
Notation "m ;; k" := (bind m (fun _ => k))
  (at level 100, right associativity) : js_scope.

(** ** JSON.parse(JSON.stringify(v)) *)

(** Values that are their own deep copy. *)
Inductive json_value : JSValue -> Prop :=
| jv_null : json_value JNull
| jv_bool b : json_value (JBool b)
| jv_num z : json_value (JNum (Fin z))
| jv_str s : json_value (JStr s)
| jv_arr elems : Forall json_value elems -> json_value (JArr elems)
| jv_obj props : Forall (fun p => json_value (snd p)) props ->
                 json_value (JObj props).

(** [o[k]] for an own property: the value, if the object has one. *)
Fixpoint get_property (k : string) (ps : list (string * JSValue))
    : option JSValue :=
  match ps with
  | [] => None
  | (k', v) :: ps' => if decide (k' = k) then Some v else get_property k ps'
  end.

(** The functions a state holds.  The code never calls one, but
    [JSON.stringify] does: where the value to serialise is an object
    with a method [toJSON], it calls the method on the object, with the
    key the object is found under, and serialises what the call returns
    in place of the object.  [toJSON_copy f this key] is the outcome for
    the function [f]: what the returned value is serialised to, parsed
    back ([None] if it has no JSON text: [undefined], a function), or
    the exception the call or the serialisation throws.  Parsed JSON
    holds JSON values only.  A method is read as a function of the
    object and the key, as the clock is read from the caller. *)
Class Functions : Type := {
  toJSON_copy : string -> JSValue -> string -> Completion (option JSValue);
  toJSON_copy_json :
    forall f this key v,
      toJSON_copy f this key = Normal (Some v) -> json_value v
}.

(** The functions of a state that holds none, or whose [toJSON] methods
    return [undefined]. *)
#[global] Instance returning_undefined : Functions.
Proof.
  refine {| toJSON_copy := fun _ _ _ => Normal None |}.
  intros f this key v E. discriminate E.
Defined.

(** [toJSON() { return v; }] for a JSON value [v], whatever the function
    and the object. *)
Definition returning (v : JSValue) (H : json_value v) : Functions :=
  {| toJSON_copy := fun _ _ _ => Normal (Some v);
     toJSON_copy_json :=
       fun _ _ _ v' E =>
         match E in _ = c return match c with
                                 | Normal (Some x) => json_value x
                                 | _ => True
                                 end with
         | eq_refl => H
         end |}.

Definition json_number (n : JSNumber) : JSValue :=
  match n with
  | Fin z => JNum (Fin z)
  | NegZero => JNum (Fin 0)
  | NaN | PosInfinity | NegInfinity => JNull
  end.

Section Copy.
Context {F : Functions}.

(** [json_property key v] is what serialising [v], found under [key],
    in a property or element position and parsing it back gives: [None]
    when [JSON.stringify] has no output for the value ([undefined],
    functions), so that an object drops the property and an array writes
    [null].  A [BigInt] anywhere makes [JSON.stringify] throw a
    [TypeError].  An object with a method [toJSON] is replaced by what
    the method returns; the elements of an array are found under their
    indices. *)
Fixpoint json_property (key : string) (v : JSValue)
    : Completion (option JSValue) :=
  match v with
  | JUndefined => Normal None
  | JFun _ => Normal None
  | JNull => Normal (Some JNull)
  | JBool b => Normal (Some (JBool b))
  | JNum n => Normal (Some (json_number n))
  | JBigInt _ => Throw TypeError
  | JStr s => Normal (Some (JStr s))
  | JDate iso => Normal (Some (JStr iso))
  | JArr elems =>
      let fix elements (i : nat) (l : list JSValue)
          : Completion (list JSValue) :=
        match l with
        | [] => Normal []
        | x :: l' =>
            match json_property (pretty i) x with
            | Throw e => Throw e
            | Normal o =>
                match elements (S i) l' with
                | Throw e => Throw e
                | Normal r => Normal (default JNull o :: r)
                end
            end
        end in
      match elements 0%nat elems with
      | Throw e => Throw e
      | Normal r => Normal (Some (JArr r))
      end
  | JObj props =>
      let fix properties (l : list (string * JSValue))
          : Completion (list (string * JSValue)) :=
        match l with
        | [] => Normal []
        | (k, x) :: l' =>
            match json_property k x with
            | Throw e => Throw e
            | Normal o =>
                match properties l' with
                | Throw e => Throw e
                | Normal r =>
                    Normal (match o with
                            | Some x' => (k, x') :: r
                            | None => r
                            end)
                end
            end
        end in
      match get_property "toJSON" props with
      | Some (JFun f) => toJSON_copy f (JObj props) key
      | _ =>
          match properties props with
          | Throw e => Throw e
          | Normal r => Normal (Some (JObj r))
          end
      end
  end.

(** The two list traversals, named. *)
Fixpoint json_elements (i : nat) (l : list JSValue)
    : Completion (list JSValue) :=
  match l with
  | [] => Normal []
  | x :: l' =>
      match json_property (pretty i) x with
      | Throw e => Throw e
      | Normal o =>
          match json_elements (S i) l' with
          | Throw e => Throw e
          | Normal r => Normal (default JNull o :: r)
          end
      end
  end.

Fixpoint json_properties (l : list (string * JSValue))
    : Completion (list (string * JSValue)) :=
  match l with
  | [] => Normal []
  | (k, x) :: l' =>
      match json_property k x with
      | Throw e => Throw e
      | Normal o =>
          match json_properties l' with
          | Throw e => Throw e
          | Normal r =>
              Normal (match o with
                      | Some x' => (k, x') :: r
                      | None => r
                      end)
          end
      end
  end.

(** [JSON.stringify] serialises its argument as the property [""] of a
    wrapper.  At top level a value without JSON output makes it return
    [undefined], which [JSON.parse] rejects with a [SyntaxError]. *)
Definition json_roundtrip (v : JSValue) : Completion JSValue :=
  match json_property EmptyString v with
  | Throw e => Throw e
  | Normal None => Throw SyntaxError
  | Normal (Some v') => Normal v'
  end.

End Copy.

(** An object without a method [toJSON]. *)
Definition methodless (ps : list (string * JSValue)) : Prop :=
  match get_property "toJSON" ps with
  | Some (JFun _) => False
  | _ => True
  end.

(** Induction on values that reaches inside arrays and objects. *)
Section JSValue_induction.
Variable P : JSValue -> Prop.
Hypothesis P_undefined : P JUndefined.
Hypothesis P_null : P JNull.
Hypothesis P_bool : forall b, P (JBool b).
Hypothesis P_num : forall n, P (JNum n).
Hypothesis P_bigint : forall z, P (JBigInt z).
Hypothesis P_str : forall s, P (JStr s).
Hypothesis P_fun : forall f, P (JFun f).
Hypothesis P_date : forall d, P (JDate d).
Hypothesis P_arr : forall elems, Forall P elems -> P (JArr elems).
Hypothesis P_obj : forall props,
    Forall (fun p => P (snd p)) props -> P (JObj props).

Fixpoint JSValue_deep_ind (v : JSValue) : P v :=
  match v with
  | JUndefined => P_undefined
  | JNull => P_null
  | JBool b => P_bool b
  | JNum n => P_num n
  | JBigInt z => P_bigint z
  | JStr s => P_str s
  | JFun f => P_fun f
  | JDate d => P_date d
  | JArr elems =>
      P_arr elems
        ((fix go (l : list JSValue) : Forall P l :=
            match l with
            | [] => List.Forall_nil P
            | x :: l' => List.Forall_cons P x l' (JSValue_deep_ind x) (go l')
            end) elems)
  | JObj props =>
      P_obj props
        ((fix go (l : list (string * JSValue))
            : Forall (fun p => P (snd p)) l :=
            match l with
            | [] => List.Forall_nil _
            | p :: l' =>
                List.Forall_cons (fun p => P (snd p)) p l'
                  (JSValue_deep_ind (snd p)) (go l')
            end) props)
  end.
End JSValue_induction.

End JS.

(* ===================================================================== *)
(** * 19-memento.js: Memento, Originator, Caretaker                       *)
(* ===================================================================== *)

Module MementoPattern.
Import JS.
Local Open Scope list_scope.
Local Open Scope js_scope.

(** [new Date()]: the instant read from the clock, as its ISO string.  The
    caller of a method supplies what the clock shows during the call. *)
Definition Date : Type := string.

(** Running a method of a field object inside a method of its owner. *)
Definition zoom {S T A} (proj : S -> T) (upd : T -> S -> S)
    (m : M T A) : M S A :=
  fun s => let '(r, t') := m (proj s) in (r, upd t' s).

(** ** Plain objects: property assignment and spread *)

(** Define or overwrite one own property; a new property goes last.
    (JavaScript enumerates the names that are array indices first, in
    numeric order, and then the others in the order they were added: a
    list stands for the object that has these properties, whatever the
    place of the indices in it.) *)
Fixpoint set_property (k : string) (v : JSValue)
    (ps : list (string * JSValue)) : list (string * JSValue) :=
  match ps with
  | [] => [(k, v)]
  | (k', v') :: ps' =>
      if decide (k' = k) then (k, v) :: ps'
      else (k', v') :: set_property k v ps'
  end.

(** [{ ...target, ...src }], given the properties of [src]. *)
Definition spread (target src : list (string * JSValue))
    : list (string * JSValue) :=
  fold_left (fun acc p => set_property (fst p) (snd p) acc) src target.

(** The characters of a string, as [s[i]] gives them. *)
Fixpoint characters (s : string) : list JSValue :=
  match s with
  | EmptyString => []
  | String c s' => JStr (String c EmptyString) :: characters s'
  end.

(** The elements of an array or a string under their indices. *)
Definition indexed (l : list JSValue) : list (string * JSValue) :=
  imap (fun i x => (pretty i, x)) l.

(** The own enumerable properties an object spread copies: those of a
    plain object, the elements of an array and the characters of a
    string under their indices.  The other primitives, functions and
    dates have none.  ([Originator._state] starts as a plain object, but
    [restore] puts in whatever the memento holds.) *)
Definition own_properties (v : JSValue) : list (string * JSValue) :=
  match v with
  | JObj ps => ps
  | JArr elems => indexed elems
  | JStr s => indexed (characters s)
  | _ => []
  end.

(** ** class Memento *)

Record Memento : Type := {
  Memento_state : JSValue;       (* this._state *)
  Memento_createdAt : Date       (* this._createdAt *)
}.

Section Classes.
Context {F : Functions}.

(** [constructor(state)] *)
Definition Memento_new (now : Date) (state : JSValue) : Completion Memento :=
  match json_roundtrip state with
  | Normal s => Normal {| Memento_state := s; Memento_createdAt := now |}
  | Throw e => Throw e
  end.

Definition Memento_getState (m : Memento) : Completion JSValue :=
  json_roundtrip (Memento_state m).

Definition Memento_getCreatedAt (m : Memento) : Date := Memento_createdAt m.

(** ** class Originator *)

Record Originator : Type := {
  Originator_state : JSValue     (* this._state *)
}.

(** [constructor(initialState = {})], the argument given by its properties *)
Definition Originator_new (initialState : list (string * JSValue))
    : Originator :=
  {| Originator_state := JObj (spread [] initialState) |}.

Definition Originator_setState (partial : list (string * JSValue))
    : M Originator JSValue :=
  modify (fun o =>
    {| Originator_state :=
         JObj (spread (spread [] (own_properties (Originator_state o)))
                      partial) |}) ;;
  ret JUndefined.

Definition Originator_getState : M Originator JSValue :=
  gets (fun o => JObj (spread [] (own_properties (Originator_state o)))).

Definition Originator_createMemento (now : Date) : M Originator Memento :=
  let* o := get in lift (Memento_new now (Originator_state o)).

Definition Originator_restore (memento : Memento) : M Originator JSValue :=
  let* s := lift (Memento_getState memento) in
  modify (fun _ => {| Originator_state := s |}) ;;
  ret JUndefined.

(** ** class Caretaker *)

Record Caretaker : Type := {
  originator : Originator;
  undoStack : list Memento;
  redoStack : list Memento
}.

Definition Caretaker_new (o : Originator) : Caretaker :=
  {| originator := o; undoStack := []; redoStack := [] |}.

(** [Array.prototype.push] and [pop]: the top of a stack is the last
    element; [pop] of an empty array gives [undefined] ([None]). *)
Definition push {A} (l : list A) (x : A) : list A := l ++ [x].

Definition pop {A} (l : list A) : option A * list A :=
  (last l, removelast l).

Definition on_originator {A} (m : M Originator A) : M Caretaker A :=
  zoom originator
       (fun o c => {| originator := o;
                      undoStack := undoStack c;
                      redoStack := redoStack c |}) m.

Definition set_undoStack (l : list Memento) : M Caretaker unit :=
  modify (fun c => {| originator := originator c;
                      undoStack := l;
                      redoStack := redoStack c |}).

Definition set_redoStack (l : list Memento) : M Caretaker unit :=
  modify (fun c => {| originator := originator c;
                      undoStack := undoStack c;
                      redoStack := l |}).

Definition Caretaker_save (now : Date) : M Caretaker JSValue :=
  let* m := on_originator (Originator_createMemento now) in
  let* c := get in
  set_undoStack (push (undoStack c) m) ;;
  set_redoStack [] ;;
  ret JUndefined.

Definition Caretaker_undo (now : Date) : M Caretaker JSValue :=
  let* c := get in
  if decide (length (undoStack c) = 0) then ret (JBool false)
  else
    let '(m, rest) := pop (undoStack c) in
    set_undoStack rest ;;
    let* cur := on_originator (Originator_createMemento now) in
    let* c' := get in
    set_redoStack (push (redoStack c') cur) ;;
    match m with
    | Some m => on_originator (Originator_restore m)
    | None => throw TypeError
    end ;;
    ret (JBool true).

Definition Caretaker_redo (now : Date) : M Caretaker JSValue :=
  let* c := get in
  if decide (length (redoStack c) = 0) then ret (JBool false)
  else
    let '(m, rest) := pop (redoStack c) in
    set_redoStack rest ;;
    let* cur := on_originator (Originator_createMemento now) in
    let* c' := get in
    set_undoStack (push (undoStack c') cur) ;;
    match m with
    | Some m => on_originator (Originator_restore m)
    | None => throw TypeError
    end ;;
    ret (JBool true).

Definition Caretaker_stats : M Caretaker JSValue :=
  let* c := get in
  ret (JObj [("undo", JNum (Fin (Z.of_nat (length (undoStack c)))));
             ("redo", JNum (Fin (Z.of_nat (length (redoStack c)))))]).

(** ** Sequences of calls

    What a program does with a caretaker and its originator: mutate the
    originator, save, undo, redo.  Each call comes with the clock reading
    during it. *)
Inductive Call : Type :=
| CallSetState (partial : list (string * JSValue))   (* origin.setState(partial) *)
| CallSave                                           (* caretaker.save() *)
| CallUndo                                           (* caretaker.undo() *)
| CallRedo.                                          (* caretaker.redo() *)

Definition call (a : Call) (now : Date) : M Caretaker JSValue :=
  match a with
  | CallSetState partial => on_originator (Originator_setState partial)
  | CallSave => Caretaker_save now
  | CallUndo => Caretaker_undo now
  | CallRedo => Caretaker_redo now
  end.

(** The completion of every call of a script and the state after it.  An
    exception ends the run. *)
Fixpoint run (script : list (Call * Date)) (c : Caretaker)
    : list (Completion JSValue * Caretaker) :=
  match script with
  | [] => []
  | (a, now) :: script' =>
      match call a now c with
      | (Normal v, c') => (Normal v, c') :: run script' c'
      | (Throw e, c') => [(Throw e, c')]
      end
  end.

(** The caretaker a run ends in. *)
Fixpoint after (script : list (Call * Date)) (c : Caretaker) : Caretaker :=
  match script with
  | [] => c
  | (a, now) :: script' =>
      match call a now c with
      | (Normal _, c') => after script' c'
      | (Throw _, c') => c'
      end
  end.

(** Every call of the script returned. *)
Fixpoint completes (script : list (Call * Date)) (c : Caretaker) : Prop :=
  match script with
  | [] => True
  | (a, now) :: script' =>
      match call a now c with
      | (Normal _, c') => completes script' c'
      | (Throw _, _) => False
      end
  end.

(** What an observer of the originator sees after a call: the call's
    completion and the originator's state. *)
Definition observe (r : Completion JSValue * Caretaker)
    : Completion JSValue * JSValue :=
  (fst r, Originator_state (originator (snd r))).

Definition owner_state (c : Caretaker) : JSValue :=
  Originator_state (originator c).

Definition states (l : list Memento) : list JSValue := map Memento_state l.

Definition snapshot (s : JSValue) (now : Date) : Memento :=
  {| Memento_state := s; Memento_createdAt := now |}.

(** A memento as a caller holding the object would read it. *)
Definition Memento_object (m : Memento) : JSValue :=
  JObj [("_state", Memento_state m); ("_createdAt", JDate (Memento_createdAt m))].

(** The owner's states at the [save()] calls of a script, in call order. *)
Fixpoint saved_states (script : list (Call * Date)) (c : Caretaker)
    : list JSValue :=
  match script with
  | [] => []
  | (a, now) :: script' =>
      match call a now c with
      | (Normal _, c') =>
          match a with
          | CallSave => owner_state c :: saved_states script' c'
          | _ => saved_states script' c'
          end
      | (Throw _, _) => []
      end
  end.

Definition is_save (a : Call * Date) : bool :=
  match fst a with CallSave => true | _ => false end.

(** How many [save()] calls a script makes. *)
Definition saves (script : list (Call * Date)) : nat :=
  length (List.filter is_save script).

(** Scripts that only mutate the originator and save. *)
Definition saving (a : Call * Date) : Prop :=
  match fst a with CallSave | CallSetState _ => True | _ => False end.

(** ** Invariant: mementos hold JSON values

    [Memento]'s constructor is the only code that makes one, and it
    stores the deep copy of its argument. *)
Definition memento_ok (m : Memento) : Prop := json_value (Memento_state m).

Definition caretaker_ok (c : Caretaker) : Prop :=
  Forall memento_ok (undoStack c) /\ Forall memento_ok (redoStack c).

(** ** Invariant: the originator's state and the snapshots are plain
       objects without a property [toJSON] *)
Definition plain (v : JSValue) : Prop :=
  match v with
  | JObj ps => get_property "toJSON" ps = None
  | _ => False
  end.

Definition caretaker_objects (c : Caretaker) : Prop :=
  plain (owner_state c) /\
  Forall (fun m => plain (Memento_state m)) (undoStack c) /\
  Forall (fun m => plain (Memento_state m)) (redoStack c).

(** Calls that assign no property [toJSON]. *)
Definition plain_call (a : Call * Date) : Prop :=
  match fst a with
  | CallSetState partial => get_property "toJSON" partial = None
  | _ => True
  end.

(** A call that returned [true], as [observe] shows it. *)
Definition returned_true (s : JSValue) : Completion JSValue * JSValue :=
  (Normal (JBool true), s).

(** [redo()] is [undo()] with the two stacks exchanged. *)
Definition swap (c : Caretaker) : Caretaker :=
  {| originator := originator c;
     undoStack := redoStack c;
     redoStack := undoStack c |}.

End Classes.

(** ** The demonstration of the source file, and two more originators

    Their states hold no function, so that no [toJSON] is called. *)

Definition num (z : Z) : JSValue := JNum (Fin z).

(** [new Caretaker(new Originator({ a: 1, b: 2 }))] *)
Definition demo_caretaker : Caretaker :=
  Caretaker_new (Originator_new [("a", num 1); ("b", num 2)]).

(** [save(); setState({ a: 10 }); save(); setState({ b: 20 })] *)
Definition demo_script : list (Call * Date) :=
  [(CallSave, "t1"); (CallSetState [("a", num 10)], "t2");
   (CallSave, "t3"); (CallSetState [("b", num 20)], "t4")].

(** [save(); save(); undo()], to be followed by a [save()] *)
Definition branch_script : list (Call * Date) :=
  [(CallSave, "t1"); (CallSave, "t2"); (CallUndo, "t3")].

(** [new Caretaker(new Originator({ a: NaN }))] *)
Definition nan_caretaker : Caretaker :=
  Caretaker_new (Originator_new [("a", JNum NaN)]).

(** [new Caretaker(new Originator({ n: 1n }))] *)
Definition bigint_caretaker : Caretaker :=
  Caretaker_new (Originator_new [("n", JBigInt 1)]).

(** [save(); undo(); setState({ n: 1n })] on the demonstration's
    caretaker: one snapshot to redo, and a state no [save()] can
    capture. *)
Definition unsaved_caretaker : Caretaker :=
  after [(CallSave, "t1"); (CallUndo, "t2");
         (CallSetState [("n", JBigInt 1)], "t3")]
        demo_caretaker.

End MementoPattern.

(* ===================================================================== *)
(** * 18-mediator.js, State pattern: Context, Order and its states        *)
(* ===================================================================== *)

Module StatePattern.
Import JS.
Local Open Scope list_scope.
Local Open Scope js_scope.

(** ** The store of arrays

    An array is an object: a field holds a reference to it, and two
    references may or may not be to the same array.  The store maps the
    references in use to the arrays' contents. *)
Definition loc : Type := nat.

(** [{ from, to, timestamp }].  A record is written once, by [setState],
    and no code of the source assigns to its fields afterwards: records
    are values here, and only arrays have identity.  (The array
    [getStateHistory] returns holds the same record objects as the
    history.) *)
Record TransitionRecord : Type := {
  from : string;
  to : string;
  timestamp : string
}.

(** The object a method runs on, the store and the console. *)
Record World (T : Type) : Type := {
  this : T;
  arrays : gmap loc (list TransitionRecord);
  console : list string
}.
Arguments this {T} w.
Arguments arrays {T} w.
Arguments console {T} w.

(** What a call reads from outside: the number [Math.random()] returns
    and the string [new Date().toISOString()] returns. *)
Record Env : Type := {
  random : Q;
  now : string
}.

Section World.
Context {T : Type}.

Definition set_this (f : T -> T) : M (World T) unit :=
  modify (fun w => {| this := f (this w); arrays := arrays w;
                      console := console w |}).

Definition set_arrays
    (f : gmap loc (list TransitionRecord) -> gmap loc (list TransitionRecord))
    : M (World T) unit :=
  modify (fun w => {| this := this w; arrays := f (arrays w);
                      console := console w |}).

(** [console.log(line)] *)
Definition log (line : string) : M (World T) unit :=
  modify (fun w => {| this := this w; arrays := arrays w;
                      console := console w ++ [line] |}).

(** Reading through a reference; a reference to nothing is [undefined],
    and using it as an array is a [TypeError]. *)
Definition array_read (l : loc) : M (World T) (list TransitionRecord) :=
  let* w := get in
  match arrays w !! l with
  | Some a => ret a
  | None => throw TypeError
  end.

(** [a.push(x)] *)
Definition array_push (l : loc) (x : TransitionRecord) : M (World T) unit :=
  let* a := array_read l in
  set_arrays (fun m => <[l := a ++ [x]]> m).

(** [[...a]]: a new array with the same elements. *)
Definition array_copy (l : loc) : M (World T) loc :=
  let* a := array_read l in
  let* w := get in
  let l' := fresh (dom (arrays w)) in
  set_arrays (fun m => <[l' := a]> m) ;;
  ret l'.

(** [a.length] *)
Definition array_length (l : loc) : M (World T) nat :=
  let* a := array_read l in ret (length a).

(** Whatever a caller holding a reference does to the array in place
    ([push], [pop], [splice], [a[i] = x], [a.length = n]) leaves some new
    contents behind the same reference. *)
Definition array_mutate (l : loc) (contents : list TransitionRecord)
    : M (World T) unit :=
  let* _ := array_read l in
  set_arrays (fun m => <[l := contents]> m).

End World.

(** A method inherited unless the class defines its own. *)
Definition resolve {A} (own : option A) (inherited : A) : A :=
  default inherited own.

(** The double quote inside a message. *)
Definition dq : string := String "034"%char EmptyString.

(** [`[${this.getName()}] ${text}`] *)
Definition tagged (name text : string) : string :=
  "[" +:+ name +:+ "] " +:+ text.

(** ** class State, class Context, the three concrete states *)

Inductive StateClass : Type :=
| ConcreteStateA
| ConcreteStateB
| ConcreteStateC.

(** [getName() { return this.constructor.name; }] *)
Definition State_getName (s : StateClass) : string :=
  match s with
  | ConcreteStateA => "ConcreteStateA"
  | ConcreteStateB => "ConcreteStateB"
  | ConcreteStateC => "ConcreteStateC"
  end.

Record Context : Type := {
  Context_state : option StateClass;     (* this.state, null at first *)
  Context_stateHistory : loc             (* this.stateHistory *)
}.

(** [new Context()], in a store and with a console. *)
Definition Context_new (store : gmap loc (list TransitionRecord))
    (out : list string) : World Context :=
  let l := fresh (dom store) in
  {| this := {| Context_state := None; Context_stateHistory := l |};
     arrays := <[l := []]> store;
     console := out |}.

(** [State.handle], to be overridden *)
Definition State_handle : M (World Context) JSValue :=
  throw (Error "Метод handle должен быть переопределен").

Definition ConcreteStateA_handle : M (World Context) JSValue :=
  log (tagged (State_getName ConcreteStateA)
              "Обрабатываем запрос в состоянии A") ;;
  log (tagged (State_getName ConcreteStateA)
              "Запрос обработан в состоянии A") ;;
  ret JUndefined.

Definition ConcreteStateB_handle : M (World Context) JSValue :=
  log (tagged (State_getName ConcreteStateB)
              "Обрабатываем запрос в состоянии B") ;;
  log (tagged (State_getName ConcreteStateB)
              "Запрос обработан в состоянии B") ;;
  ret JUndefined.

Definition ConcreteStateC_handle : M (World Context) JSValue :=
  log (tagged (State_getName ConcreteStateC)
              "Обрабатываем запрос в состоянии C") ;;
  log (tagged (State_getName ConcreteStateC)
              "Запрос обработан в состоянии C") ;;
  ret JUndefined.

Definition own_handle (s : StateClass) : option (M (World Context) JSValue) :=
  match s with
  | ConcreteStateA => Some ConcreteStateA_handle
  | ConcreteStateB => Some ConcreteStateB_handle
  | ConcreteStateC => Some ConcreteStateC_handle
  end.

Definition Context_setState (state : StateClass) (e : Env)
    : M (World Context) JSValue :=
  let* c := gets this in
  let oldState :=
    match Context_state c with
    | Some s => State_getName s
    | None => "None"
    end in
  set_this (fun c => {| Context_state := Some state;
                        Context_stateHistory := Context_stateHistory c |}) ;;
  array_push (Context_stateHistory c)
             {| from := oldState; to := State_getName state;
                timestamp := now e |} ;;
  log ("[Context] Состояние изменено: " +:+ oldState +:+ " → "
       +:+ State_getName state) ;;
  ret JUndefined.

Definition Context_request : M (World Context) JSValue :=
  let* c := gets this in
  match Context_state c with
  | Some s => resolve (own_handle s) State_handle ;; ret JUndefined
  | None => log "[Context] Состояние не установлено" ;; ret JUndefined
  end.

Definition Context_getCurrentState : M (World Context) (option StateClass) :=
  gets (fun w => Context_state (this w)).

Definition Context_getStateHistory : M (World Context) loc :=
  let* c := gets this in array_copy (Context_stateHistory c).

Definition Context_getTransitionCount : M (World Context) nat :=
  let* c := gets this in array_length (Context_stateHistory c).

(** ** class OrderState and its seven subclasses, class Order *)

Inductive OrderStateClass : Type :=
| CreatedState
| ConfirmedState
| PaidState
| ShippedState
| DeliveredState
| ReturnedState
| CancelledState.

#[global] Instance OrderStateClass_eq_dec : EqDecision OrderStateClass.
Proof. solve_decision. Defined.

Definition OrderState_getName (s : OrderStateClass) : string :=
  match s with
  | CreatedState => "CreatedState"
  | ConfirmedState => "ConfirmedState"
  | PaidState => "PaidState"
  | ShippedState => "ShippedState"
  | DeliveredState => "DeliveredState"
  | ReturnedState => "ReturnedState"
  | CancelledState => "CancelledState"
  end.

Record Order : Type := {
  id : string;
  items : JSValue;
  state : OrderStateClass;
  paymentStatus : string;
  shippingStatus : string;
  deliveryStatus : string;
  stateHistory : loc;
  createdAt : string
}.

(** [new Order(id, items)], in a store and with a console; [date] is what
    [new Date()] gives. *)
Definition Order_new (id : string) (items : JSValue) (date : string)
    (store : gmap loc (list TransitionRecord)) (out : list string)
    : World Order :=
  let l := fresh (dom store) in
  {| this := {| id := id; items := items; state := CreatedState;
                paymentStatus := "pending";
                shippingStatus := "not_shipped";
                deliveryStatus := "not_delivered";
                stateHistory := l; createdAt := date |};
     arrays := <[l := []]> store;
     console := out |}.

Definition set_state (s : OrderStateClass) (o : Order) : Order :=
  {| id := id o; items := items o; state := s;
     paymentStatus := paymentStatus o; shippingStatus := shippingStatus o;
     deliveryStatus := deliveryStatus o; stateHistory := stateHistory o;
     createdAt := createdAt o |}.

Definition set_paymentStatus (p : string) (o : Order) : Order :=
  {| id := id o; items := items o; state := state o;
     paymentStatus := p; shippingStatus := shippingStatus o;
     deliveryStatus := deliveryStatus o; stateHistory := stateHistory o;
     createdAt := createdAt o |}.

Definition set_shippingStatus (p : string) (o : Order) : Order :=
  {| id := id o; items := items o; state := state o;
     paymentStatus := paymentStatus o; shippingStatus := p;
     deliveryStatus := deliveryStatus o; stateHistory := stateHistory o;
     createdAt := createdAt o |}.

Definition set_deliveryStatus (p : string) (o : Order) : Order :=
  {| id := id o; items := items o; state := state o;
     paymentStatus := paymentStatus o; shippingStatus := shippingStatus o;
     deliveryStatus := p; stateHistory := stateHistory o;
     createdAt := createdAt o |}.

(** [x > y] on numbers *)
Definition gt (x y : Q) : bool := negb (Qle_bool x y).

(** The doubles written [0.2], [0.3], [0.1] and [0.4] in the source. *)
Definition double_0_2 : Q := 3602879701896397 # 18014398509481984.
Definition double_0_3 : Q := 5404319552844595 # 18014398509481984.
Definition double_0_1 : Q := 3602879701896397 # 36028797018963968.
Definition double_0_4 : Q := 3602879701896397 # 9007199254740992.

Definition Order_setState (newState : OrderStateClass) (e : Env)
    : M (World Order) JSValue :=
  let* o := gets this in
  let oldState := OrderState_getName (state o) in
  set_this (set_state newState) ;;
  array_push (stateHistory o)
             {| from := oldState; to := OrderState_getName newState;
                timestamp := now e |} ;;
  log ("[Order] Состояние заказа " +:+ id o +:+ " изменено: " +:+ oldState
       +:+ " → " +:+ OrderState_getName newState) ;;
  ret JUndefined.

Definition Order_checkAvailability (e : Env) : M (World Order) bool :=
  let available := gt (random e) double_0_2 in
  log ("[Order] Проверка доступности товаров: " +:+
       (if available then "доступны" else "недоступны")) ;;
  ret available.

Definition Order_checkPayment (e : Env) : M (World Order) bool :=
  let paid := gt (random e) double_0_3 in
  (if paid then set_this (set_paymentStatus "paid") else ret tt) ;;
  log ("[Order] Проверка оплаты: " +:+
       (if paid then "оплачен" else "не оплачен")) ;;
  ret paid.

Definition Order_prepareForShipping (e : Env) : M (World Order) bool :=
  let prepared := gt (random e) double_0_1 in
  (if prepared then set_this (set_shippingStatus "ready") else ret tt) ;;
  log ("[Order] Подготовка к отправке: " +:+
       (if prepared then "готов" else "ошибка")) ;;
  ret prepared.

Definition Order_checkDelivery (e : Env) : M (World Order) bool :=
  let delivered := gt (random e) double_0_4 in
  (if delivered then set_this (set_deliveryStatus "delivered") else ret tt) ;;
  log ("[Order] Проверка доставки: " +:+
       (if delivered then "доставлен" else "в пути")) ;;
  ret delivered.

(** The line [refundPayment()] prints. *)
Definition refund_line (id : string) : string :=
  "[Order] Средства возвращены для заказа " +:+ id.

Definition Order_refundPayment : M (World Order) JSValue :=
  set_this (set_paymentStatus "refunded") ;;
  let* o := gets this in
  log (refund_line (id o)) ;;
  ret JUndefined.

(** *** class OrderState: the methods a subclass must override *)

Definition OrderState_process (e : Env) : M (World Order) JSValue :=
  throw (Error "Метод process должен быть переопределен").

Definition OrderState_cancel (e : Env) : M (World Order) JSValue :=
  throw (Error "Метод cancel должен быть переопределен").

Definition OrderState_return (e : Env) : M (World Order) JSValue :=
  throw (Error "Метод return должен быть переопределен").

(** [getDescription() { return this.constructor.name; }] *)
Definition OrderState_getDescription (s : OrderStateClass) : string :=
  OrderState_getName s.

(** [`... ${order.id}`]: the order's id, read when the line is built *)
Definition order_id : M (World Order) string := gets (fun w => id (this w)).

(** *** class CreatedState *)

Definition CreatedState_process (e : Env) : M (World Order) JSValue :=
  let* i := order_id in
  log (tagged (OrderState_getName CreatedState) ("Обрабатываем заказ " +:+ i)) ;;
  let* available := Order_checkAvailability e in
  if (available : bool) then
    log (tagged (OrderState_getName CreatedState)
           ("Товары доступны, переводим в состояние " +:+ dq +:+
            "Подтвержден" +:+ dq)) ;;
    Order_setState ConfirmedState e ;;
    ret JUndefined
  else
    log (tagged (OrderState_getName CreatedState)
           ("Товары недоступны, переводим в состояние " +:+ dq +:+
            "Отменен" +:+ dq)) ;;
    Order_setState CancelledState e ;;
    ret JUndefined.

Definition CreatedState_cancel (e : Env) : M (World Order) JSValue :=
  let* i := order_id in
  log (tagged (OrderState_getName CreatedState) ("Отменяем заказ " +:+ i)) ;;
  Order_setState CancelledState e ;;
  ret JUndefined.

Definition CreatedState_return (e : Env) : M (World Order) JSValue :=
  log (tagged (OrderState_getName CreatedState)
         ("Возврат невозможен для заказа в состоянии " +:+ dq +:+
          "Создан" +:+ dq)) ;;
  ret JUndefined.

Definition CreatedState_getDescription : string :=
  "Заказ создан, ожидает подтверждения".

(** *** class ConfirmedState *)

Definition ConfirmedState_process (e : Env) : M (World Order) JSValue :=
  let* i := order_id in
  log (tagged (OrderState_getName ConfirmedState)
         ("Обрабатываем заказ " +:+ i)) ;;
  let* paid := Order_checkPayment e in
  if (paid : bool) then
    log (tagged (OrderState_getName ConfirmedState)
           ("Оплата подтверждена, переводим в состояние " +:+ dq +:+
            "Оплачен" +:+ dq)) ;;
    Order_setState PaidState e ;;
    ret JUndefined
  else
    log (tagged (OrderState_getName ConfirmedState)
           "Оплата не подтверждена, ожидаем") ;;
    ret JUndefined.

Definition ConfirmedState_cancel (e : Env) : M (World Order) JSValue :=
  let* i := order_id in
  log (tagged (OrderState_getName ConfirmedState) ("Отменяем заказ " +:+ i)) ;;
  Order_setState CancelledState e ;;
  ret JUndefined.

Definition ConfirmedState_return (e : Env) : M (World Order) JSValue :=
  log (tagged (OrderState_getName ConfirmedState)
         ("Возврат невозможен для заказа в состоянии " +:+ dq +:+
          "Подтвержден" +:+ dq)) ;;
  ret JUndefined.

Definition ConfirmedState_getDescription : string :=
  "Заказ подтвержден, ожидает оплаты".

(** *** class PaidState *)

Definition PaidState_process (e : Env) : M (World Order) JSValue :=
  let* i := order_id in
  log (tagged (OrderState_getName PaidState) ("Обрабатываем заказ " +:+ i)) ;;
  let* prepared := Order_prepareForShipping e in
  if (prepared : bool) then
    log (tagged (OrderState_getName PaidState)
           ("Заказ подготовлен к отправке, переводим в состояние " +:+ dq +:+
            "Отправлен" +:+ dq)) ;;
    Order_setState ShippedState e ;;
    ret JUndefined
  else
    log (tagged (OrderState_getName PaidState)
           "Ошибка подготовки к отправке") ;;
    ret JUndefined.

Definition PaidState_cancel (e : Env) : M (World Order) JSValue :=
  let* i := order_id in
  log (tagged (OrderState_getName PaidState)
         ("Отменяем заказ " +:+ i +:+ " с возвратом средств")) ;;
  Order_refundPayment ;;
  Order_setState CancelledState e ;;
  ret JUndefined.

Definition PaidState_return (e : Env) : M (World Order) JSValue :=
  log (tagged (OrderState_getName PaidState)
         ("Возврат невозможен для заказа в состоянии " +:+ dq +:+
          "Оплачен" +:+ dq)) ;;
  ret JUndefined.

Definition PaidState_getDescription : string :=
  "Заказ оплачен, готовится к отправке".

(** *** class ShippedState *)

Definition ShippedState_process (e : Env) : M (World Order) JSValue :=
  let* i := order_id in
  log (tagged (OrderState_getName ShippedState)
         ("Обрабатываем заказ " +:+ i)) ;;
  let* delivered := Order_checkDelivery e in
  if (delivered : bool) then
    log (tagged (OrderState_getName ShippedState)
           ("Заказ доставлен, переводим в состояние " +:+ dq +:+
            "Доставлен" +:+ dq)) ;;
    Order_setState DeliveredState e ;;
    ret JUndefined
  else
    log (tagged (OrderState_getName ShippedState) "Заказ в пути") ;;
    ret JUndefined.

Definition ShippedState_cancel (e : Env) : M (World Order) JSValue :=
  log (tagged (OrderState_getName ShippedState)
         "Отмена невозможна для отправленного заказа") ;;
  ret JUndefined.

Definition ShippedState_return (e : Env) : M (World Order) JSValue :=
  log (tagged (OrderState_getName ShippedState)
         ("Возврат невозможен для заказа в состоянии " +:+ dq +:+
          "Отправлен" +:+ dq)) ;;
  ret JUndefined.

Definition ShippedState_getDescription : string := "Заказ отправлен, в пути".

(** *** class DeliveredState *)

Definition DeliveredState_process (e : Env) : M (World Order) JSValue :=
  let* i := order_id in
  log (tagged (OrderState_getName DeliveredState)
         ("Заказ " +:+ i +:+ " уже доставлен")) ;;
  ret JUndefined.

Definition DeliveredState_cancel (e : Env) : M (World Order) JSValue :=
  log (tagged (OrderState_getName DeliveredState)
         "Отмена невозможна для доставленного заказа") ;;
  ret JUndefined.

Definition DeliveredState_return (e : Env) : M (World Order) JSValue :=
  let* i := order_id in
  log (tagged (OrderState_getName DeliveredState)
         ("Возвращаем заказ " +:+ i)) ;;
  Order_setState ReturnedState e ;;
  ret JUndefined.

Definition DeliveredState_getDescription : string := "Заказ доставлен".

(** *** class ReturnedState *)

Definition ReturnedState_process (e : Env) : M (World Order) JSValue :=
  let* i := order_id in
  log (tagged (OrderState_getName ReturnedState)
         ("Обрабатываем возврат заказа " +:+ i)) ;;
  Order_refundPayment ;;
  log (tagged (OrderState_getName ReturnedState) "Средства возвращены") ;;
  ret JUndefined.

Definition ReturnedState_cancel (e : Env) : M (World Order) JSValue :=
  log (tagged (OrderState_getName ReturnedState)
         "Отмена невозможна для возвращенного заказа") ;;
  ret JUndefined.

Definition ReturnedState_return (e : Env) : M (World Order) JSValue :=
  log (tagged (OrderState_getName ReturnedState) "Заказ уже возвращен") ;;
  ret JUndefined.

Definition ReturnedState_getDescription : string := "Заказ возвращен".

(** *** class CancelledState *)

Definition CancelledState_process (e : Env) : M (World Order) JSValue :=
  let* i := order_id in
  log (tagged (OrderState_getName CancelledState)
         ("Заказ " +:+ i +:+ " отменен, обработка невозможна")) ;;
  ret JUndefined.

Definition CancelledState_cancel (e : Env) : M (World Order) JSValue :=
  let* i := order_id in
  log (tagged (OrderState_getName CancelledState)
         ("Заказ " +:+ i +:+ " уже отменен")) ;;
  ret JUndefined.

Definition CancelledState_return (e : Env) : M (World Order) JSValue :=
  log (tagged (OrderState_getName CancelledState)
         "Возврат невозможен для отмененного заказа") ;;
  ret JUndefined.

Definition CancelledState_getDescription : string := "Заказ отменен".

(** *** The methods each subclass defines itself *)

Definition own_process (s : OrderStateClass)
    : option (Env -> M (World Order) JSValue) :=
  match s with
  | CreatedState => Some CreatedState_process
  | ConfirmedState => Some ConfirmedState_process
  | PaidState => Some PaidState_process
  | ShippedState => Some ShippedState_process
  | DeliveredState => Some DeliveredState_process
  | ReturnedState => Some ReturnedState_process
  | CancelledState => Some CancelledState_process
  end.

Definition own_cancel (s : OrderStateClass)
    : option (Env -> M (World Order) JSValue) :=
  match s with
  | CreatedState => Some CreatedState_cancel
  | ConfirmedState => Some ConfirmedState_cancel
  | PaidState => Some PaidState_cancel
  | ShippedState => Some ShippedState_cancel
  | DeliveredState => Some DeliveredState_cancel
  | ReturnedState => Some ReturnedState_cancel
  | CancelledState => Some CancelledState_cancel
  end.

Definition own_return (s : OrderStateClass)
    : option (Env -> M (World Order) JSValue) :=
  match s with
  | CreatedState => Some CreatedState_return
  | ConfirmedState => Some ConfirmedState_return
  | PaidState => Some PaidState_return
  | ShippedState => Some ShippedState_return
  | DeliveredState => Some DeliveredState_return
  | ReturnedState => Some ReturnedState_return
  | CancelledState => Some CancelledState_return
  end.

Definition own_getDescription (s : OrderStateClass) : option string :=
  match s with
  | CreatedState => Some CreatedState_getDescription
  | ConfirmedState => Some ConfirmedState_getDescription
  | PaidState => Some PaidState_getDescription
  | ShippedState => Some ShippedState_getDescription
  | DeliveredState => Some DeliveredState_getDescription
  | ReturnedState => Some ReturnedState_getDescription
  | CancelledState => Some CancelledState_getDescription
  end.

(** *** class Order, the methods that go through the state *)

(** [process() { this.state.process(this); }] *)
Definition Order_process (e : Env) : M (World Order) JSValue :=
  let* o := gets this in
  resolve (own_process (state o)) OrderState_process e ;;
  ret JUndefined.

(** [cancel() { this.state.cancel(this); }] *)
Definition Order_cancel (e : Env) : M (World Order) JSValue :=
  let* o := gets this in
  resolve (own_cancel (state o)) OrderState_cancel e ;;
  ret JUndefined.

(** [return() { this.state.return(this); }] *)
Definition Order_return (e : Env) : M (World Order) JSValue :=
  let* o := gets this in
  resolve (own_return (state o)) OrderState_return e ;;
  ret JUndefined.

Definition Order_getCurrentState : M (World Order) OrderStateClass :=
  gets (fun w => state (this w)).

Definition Order_getStateDescription : M (World Order) string :=
  gets (fun w =>
    resolve (own_getDescription (state (this w)))
            (OrderState_getDescription (state (this w)))).

Definition Order_getStateHistory : M (World Order) loc :=
  let* o := gets this in array_copy (stateHistory o).

(** What [getInfo()] returns. *)
Record OrderInfo : Type := {
  info_id : string;
  info_state : string;
  info_stateDescription : string;
  info_paymentStatus : string;
  info_shippingStatus : string;
  info_deliveryStatus : string;
  info_items : JSValue;
  info_createdAt : string;
  info_stateHistory : loc
}.

Definition Order_getInfo : M (World Order) OrderInfo :=
  let* o := gets this in
  let* description := Order_getStateDescription in
  let* history := Order_getStateHistory in
  ret {| info_id := id o;
         info_state := OrderState_getName (state o);
         info_stateDescription := description;
         info_paymentStatus := paymentStatus o;
         info_shippingStatus := shippingStatus o;
         info_deliveryStatus := deliveryStatus o;
         info_items := items o;
         info_createdAt := createdAt o;
         info_stateHistory := history |}.

(** ** Reading an order or a context from outside *)

(** The transition history: the contents of the array [stateHistory]
    refers to. *)
Definition history (w : World Order) : list TransitionRecord :=
  default [] (arrays w !! stateHistory (this w)).

Definition Context_history (w : World Context) : list TransitionRecord :=
  default [] (arrays w !! Context_stateHistory (this w)).

(** An order, or a context, whose history array is in the store: what
    the constructor makes and every method keeps. *)
Definition Order_ok (w : World Order) : Prop :=
  is_Some (arrays w !! stateHistory (this w)).

Definition Context_ok (w : World Context) : Prop :=
  is_Some (arrays w !! Context_stateHistory (this w)).

(** How many times the console shows [refundPayment()] at work. *)
Definition refunds (w : World Order) : nat :=
  length (filter (fun line => line = refund_line (id (this w))) (console w)).

(** The three operations that go through the state. *)
Inductive Operation : Type :=
| OpProcess
| OpCancel
| OpReturn.

Definition operation (op : Operation) : Env -> M (World Order) JSValue :=
  match op with
  | OpProcess => Order_process
  | OpCancel => Order_cancel
  | OpReturn => Order_return
  end.

(** The operations a state answers with one console line and nothing
    else: the method's body is a single [console.log]. *)
Definition rejects (s : OrderStateClass) (op : Operation) : bool :=
  match s, op with
  | CreatedState, OpReturn => true
  | ConfirmedState, OpReturn => true
  | PaidState, OpReturn => true
  | ShippedState, (OpCancel | OpReturn) => true
  | DeliveredState, (OpProcess | OpCancel) => true
  | ReturnedState, (OpCancel | OpReturn) => true
  | CancelledState, _ => true
  | _, _ => false
  end.

(** Every method of [Order] a program may call. *)
Inductive OrderCall : Type :=
| CallSetState (newState : OrderStateClass)
| CallProcess
| CallCancel
| CallReturn
| CallCheckAvailability
| CallCheckPayment
| CallPrepareForShipping
| CallCheckDelivery
| CallRefundPayment
| CallGetCurrentState
| CallGetStateDescription
| CallGetStateHistory
| CallGetInfo.

(** A call for its effect. *)
Definition void {S A} (m : M S A) : M S unit := m ;; ret tt.

Definition order_call (a : OrderCall) (e : Env) : M (World Order) unit :=
  match a with
  | CallSetState s => void (Order_setState s e)
  | CallProcess => void (Order_process e)
  | CallCancel => void (Order_cancel e)
  | CallReturn => void (Order_return e)
  | CallCheckAvailability => void (Order_checkAvailability e)
  | CallCheckPayment => void (Order_checkPayment e)
  | CallPrepareForShipping => void (Order_prepareForShipping e)
  | CallCheckDelivery => void (Order_checkDelivery e)
  | CallRefundPayment => void Order_refundPayment
  | CallGetCurrentState => void Order_getCurrentState
  | CallGetStateDescription => void Order_getStateDescription
  | CallGetStateHistory => void Order_getStateHistory
  | CallGetInfo => void Order_getInfo
  end.

(** The world a script of calls ends in; an exception ends the run. *)
Fixpoint order_after (script : list (OrderCall * Env)) (w : World Order)
    : World Order :=
  match script with
  | [] => w
  | (a, e) :: script' =>
      match order_call a e w with
      | (Normal _, w') => order_after script' w'
      | (Throw _, w') => w'
      end
  end.

(** Every call of the script returned. *)
Fixpoint order_completes (script : list (OrderCall * Env)) (w : World Order)
    : Prop :=
  match script with
  | [] => True
  | (a, e) :: script' =>
      match order_call a e w with
      | (Normal _, w') => order_completes script' w'
      | (Throw _, _) => False
      end
  end.

(** A call made a transition: it was [setState] itself, or it left the
    order in another state than it found it in. *)
Definition accepted (a : OrderCall) (w w' : World Order) : bool :=
  match a with
  | CallSetState _ => true
  | _ => negb (bool_decide (state (this w) = state (this w')))
  end.

(** The transitions a script makes, in order. *)
Fixpoint accepted_transitions (script : list (OrderCall * Env))
    (w : World Order) : list TransitionRecord :=
  match script with
  | [] => []
  | (a, e) :: script' =>
      match order_call a e w with
      | (Normal _, w') =>
          (if accepted a w w' then
             [{| from := OrderState_getName (state (this w));
                 to := OrderState_getName (state (this w'));
                 timestamp := now e |}]
           else []) ++ accepted_transitions script' w'
      | (Throw _, _) => []
      end
  end.

(** ** The demonstration of the source file *)

(** [new Order('ORD-001', [...])] in an empty store *)
Definition demo_order : World Order :=
  Order_new "ORD-001" (JArr [JStr "Ноутбук"; JStr "Мышь"; JStr "Клавиатура"])
            "2024-01-01T00:00:00.000Z" ∅ [].

(** The calls the demonstration makes on its order, when every check
    passes, and one more [cancel()]. *)
Definition demo_calls (e : string -> Env) : list (OrderCall * Env) :=
  [(CallProcess, e "t1"); (CallProcess, e "t2"); (CallProcess, e "t3");
   (CallProcess, e "t4"); (CallCancel, e "t5"); (CallReturn, e "t6");
   (CallGetInfo, e "t7"); (CallCancel, e "t8")].

(** A call during which [Math.random()] gives 1/2: every check passes. *)
Definition lucky (t : string) : Env := {| random := 1 # 2; now := t |}.

(** A call during which [Math.random()] gives 0: every check fails. *)
Definition unlucky (t : string) : Env := {| random := 0; now := t |}.

(** Four [process()] calls with passing checks: the order is delivered. *)
Definition delivered_order : World Order :=
  order_after [(CallProcess, lucky "t1"); (CallProcess, lucky "t2");
               (CallProcess, lucky "t3"); (CallProcess, lucky "t4")]
              demo_order.


(** ... and then returned. *)
Definition returned_order : World Order :=
  order_after [(CallReturn, lucky "t5")] delivered_order.

(** [new Context()] in an empty store, then [setState(stateA)] *)
Definition demo_context : World Context :=
  snd (Context_setState ConcreteStateA (lucky "t1") (Context_new ∅ [])).

End StatePattern.

(* ===================================================================== *)
(** * 19-memento.js: reading objects and counting snapshots               *)
(* ===================================================================== *)

Module MementoMore.
Import JS MementoPattern.
Local Open Scope list_scope.
Local Open Scope js_scope.

(** The value a list of assignments leaves for a name: the last one. *)
Definition last_assigned (k : string) (ps : list (string * JSValue))
    : option JSValue :=
  get_property k (rev ps).

(** The property names of an object, in enumeration order. *)
Definition keys (ps : list (string * JSValue)) : list string := map fst ps.

(** Scripts that only undo and redo. *)
Definition replaying (a : Call * Date) : Prop :=
  match fst a with CallUndo | CallRedo => True | _ => False end.

(** What [stats()] returns for given stack depths. *)
Definition stats_object (undo redo : nat) : JSValue :=
  JObj [("undo", JNum (Fin (Z.of_nat undo)));
        ("redo", JNum (Fin (Z.of_nat redo)))].

(** A caretaker with one snapshot whose owner then takes a [BigInt]:
    [save(); setState({ n: 1n })] on the demonstration's caretaker. *)
Definition stuck_caretaker : Caretaker :=
  after [(CallSave, "t1"); (CallSetState [("n", JBigInt 1)], "t2")]
        demo_caretaker.

(** The demonstration's caretaker after its script and one [undo()]. *)
Definition undone_caretaker : Caretaker :=
  after (demo_script ++ [(CallUndo, "t5")]) demo_caretaker.

End MementoMore.

(* ===================================================================== *)
(** * 19-memento.js: TextEditor and EditorHistory                         *)
(* ===================================================================== *)

Module EditorPattern.
Import JS MementoPattern.
Local Open Scope list_scope.
Local Open Scope js_scope.

(** ** [String.prototype.slice]

    A string is its sequence of code units, one character each; positions
    are integers.  A negative position counts from the end, a position
    past either end is brought back to it, and a start at or after the
    end gives the empty string.

    [select] stores whatever numbers it is given, and [insert] adds to
    them as numbers do.  The integers here are those numbers as long as
    they stay below 2^53 in size ([safe_integer]), where a number holds
    every integer and sums are exact; the other numbers (fractions,
    [NaN], the infinities, which the JSON copy of a snapshot turns into
    [null]) are outside this model, and the statements that depend on
    the positions say so. *)
Definition clamp (len k : Z) : Z :=
  if (k <? 0)%Z then Z.max (len + k) 0 else Z.min k len.

(** [s.slice(start, end)]; [end] may be left out. *)
Definition slice (s : string) (start : Z) (finish : option Z) : string :=
  let len := Z.of_nat (String.length s) in
  let from := clamp len start in
  let to := match finish with
            | Some e => clamp len e
            | None => len
            end in
  if (from >=? to)%Z then ""
  else substring (Z.to_nat from) (Z.to_nat (to - from)) s.

(** ** class TextEditor *)

Record TextEditor : Type := {
  TextEditor_content : string;          (* this._content *)
  sel_start : Z;                        (* this._selection.start *)
  sel_end : Z;                          (* this._selection.end *)
  TextEditor_clipboard : string         (* this._clipboard *)
}.

(** [new TextEditor()] *)
Definition TextEditor_new : TextEditor :=
  {| TextEditor_content := ""; sel_start := 0; sel_end := 0;
     TextEditor_clipboard := "" |}.

Definition TextEditor_insert (text : string) : M TextEditor JSValue :=
  let* ed := get in
  let content :=
    slice (TextEditor_content ed) 0 (Some (sel_start ed)) +:+ text +:+
    slice (TextEditor_content ed) (sel_end ed) None in
  let pos := (sel_start ed + Z.of_nat (String.length text))%Z in
  modify (fun ed => {| TextEditor_content := content;
                       sel_start := pos; sel_end := pos;
                       TextEditor_clipboard := TextEditor_clipboard ed |}) ;;
  ret JUndefined.

Definition TextEditor_select (start finish : Z) : M TextEditor JSValue :=
  modify (fun ed => {| TextEditor_content := TextEditor_content ed;
                       sel_start := start; sel_end := finish;
                       TextEditor_clipboard := TextEditor_clipboard ed |}) ;;
  ret JUndefined.

Definition TextEditor_copy : M TextEditor JSValue :=
  modify (fun ed => {| TextEditor_content := TextEditor_content ed;
                       sel_start := sel_start ed; sel_end := sel_end ed;
                       TextEditor_clipboard :=
                         slice (TextEditor_content ed) (sel_start ed)
                               (Some (sel_end ed)) |}) ;;
  ret JUndefined.

Definition TextEditor_paste : M TextEditor JSValue :=
  let* ed := get in
  TextEditor_insert (TextEditor_clipboard ed) ;;
  ret JUndefined.

Definition TextEditor_delete : M TextEditor JSValue :=
  TextEditor_insert "" ;;
  ret JUndefined.

Definition TextEditor_getText : M TextEditor string :=
  gets TextEditor_content.

(** [{ content, selection: { start, end }, clipboard }] *)
Definition state_object (ed : TextEditor) : JSValue :=
  JObj [("content", JStr (TextEditor_content ed));
        ("selection", JObj [("start", JNum (Fin (sel_start ed)));
                            ("end", JNum (Fin (sel_end ed)))]);
        ("clipboard", JStr (TextEditor_clipboard ed))].

Definition TextEditor_getState : M TextEditor JSValue :=
  gets state_object.

(** The editor a state object describes.  The fields of an editor are
    typed here (strings and integer positions), so only an object of the
    shape [getState()] makes can be read; [setState] is called on nothing
    else (see [EditorFacts.createMemento_read_back]: a memento made by
    [createMemento] is read back as the editor it was made from). *)
Definition read_state (state : JSValue) : option TextEditor :=
  match state with
  | JObj [(k1, JStr content);
          (k2, JObj [(k3, JNum (Fin start)); (k4, JNum (Fin finish))]);
          (k5, JStr clipboard)] =>
      if decide (k1 = "content" /\ k2 = "selection" /\ k3 = "start" /\
                 k4 = "end" /\ k5 = "clipboard")
      then Some {| TextEditor_content := content;
                   sel_start := start; sel_end := finish;
                   TextEditor_clipboard := clipboard |}
      else None
  | _ => None
  end.

(** [setState(state)].  A state of another shape would put values of
    other types in the fields; that is outside this typed editor and is
    given as an exception. *)
Definition TextEditor_setState (state : JSValue) : M TextEditor JSValue :=
  match read_state state with
  | Some ed => modify (fun _ => ed) ;; ret JUndefined
  | None => throw TypeError
  end.

(** The state object of an editor holds no function, so that the copy
    calls no [toJSON]. *)
Definition TextEditor_createMemento (now : Date) : M TextEditor Memento :=
  let* state := TextEditor_getState in
  lift (Memento_new now state).

Definition TextEditor_restore (m : Memento) : M TextEditor JSValue :=
  let* state := lift (Memento_getState m) in
  TextEditor_setState state ;;
  ret JUndefined.

(** ** class EditorHistory *)

Record EditorHistory : Type := {
  editor : TextEditor;
  EditorHistory_undoStack : list Memento;
  EditorHistory_redoStack : list Memento
}.

Definition EditorHistory_new (ed : TextEditor) : EditorHistory :=
  {| editor := ed; EditorHistory_undoStack := [];
     EditorHistory_redoStack := [] |}.

Definition on_editor {A} (m : M TextEditor A) : M EditorHistory A :=
  zoom editor
       (fun ed h => {| editor := ed;
                       EditorHistory_undoStack := EditorHistory_undoStack h;
                       EditorHistory_redoStack := EditorHistory_redoStack h |})
       m.

Definition set_undo (l : list Memento) : M EditorHistory unit :=
  modify (fun h => {| editor := editor h;
                      EditorHistory_undoStack := l;
                      EditorHistory_redoStack := EditorHistory_redoStack h |}).

Definition set_redo (l : list Memento) : M EditorHistory unit :=
  modify (fun h => {| editor := editor h;
                      EditorHistory_undoStack := EditorHistory_undoStack h;
                      EditorHistory_redoStack := l |}).

Definition EditorHistory_save (now : Date) : M EditorHistory JSValue :=
  let* m := on_editor (TextEditor_createMemento now) in
  let* h := get in
  set_undo (push (EditorHistory_undoStack h) m) ;;
  set_redo [] ;;
  ret JUndefined.

Definition EditorHistory_undo (now : Date) : M EditorHistory JSValue :=
  let* h := get in
  if decide (length (EditorHistory_undoStack h) = 0) then ret (JBool false)
  else
    let '(m, rest) := pop (EditorHistory_undoStack h) in
    set_undo rest ;;
    let* cur := on_editor (TextEditor_createMemento now) in
    let* h' := get in
    set_redo (push (EditorHistory_redoStack h') cur) ;;
    match m with
    | Some m => on_editor (TextEditor_restore m)
    | None => throw TypeError
    end ;;
    ret (JBool true).

Definition EditorHistory_redo (now : Date) : M EditorHistory JSValue :=
  let* h := get in
  if decide (length (EditorHistory_redoStack h) = 0) then ret (JBool false)
  else
    let '(m, rest) := pop (EditorHistory_redoStack h) in
    set_redo rest ;;
    let* cur := on_editor (TextEditor_createMemento now) in
    let* h' := get in
    set_undo (push (EditorHistory_undoStack h') cur) ;;
    match m with
    | Some m => on_editor (TextEditor_restore m)
    | None => throw TypeError
    end ;;
    ret (JBool true).

(** ** Edits, and what a program does with an editor and its history *)

Inductive Edit : Type :=
| EditInsert (text : string)
| EditSelect (start finish : Z)
| EditCopy
| EditPaste
| EditDelete.

Definition edit (a : Edit) : M TextEditor JSValue :=
  match a with
  | EditInsert text => TextEditor_insert text
  | EditSelect start finish => TextEditor_select start finish
  | EditCopy => TextEditor_copy
  | EditPaste => TextEditor_paste
  | EditDelete => TextEditor_delete
  end.

(** The editor after a list of edits (no edit throws). *)
Definition edited (edits : list Edit) (ed : TextEditor) : TextEditor :=
  fold_left (fun ed a => snd (edit a ed)) edits ed.

(** The integers a number holds exactly, between
    [Number.MIN_SAFE_INTEGER] and [Number.MAX_SAFE_INTEGER]. *)
Definition safe_integer (z : Z) : Prop := (- 2 ^ 53 < z < 2 ^ 53)%Z.

Definition positions_safe (ed : TextEditor) : Prop :=
  safe_integer (sel_start ed) /\ safe_integer (sel_end ed).

(** The positions are safe integers before the edits and after each of
    them: the runs on which the integers of the model are the numbers of
    the code. *)
Fixpoint edits_safe (edits : list Edit) (ed : TextEditor) : Prop :=
  positions_safe ed /\
  match edits with
  | [] => True
  | a :: edits' => edits_safe edits' (snd (edit a ed))
  end.


(** Every snapshot of a history was made from an editor. *)
Definition editor_memento (m : Memento) : Prop :=
  exists ed, Memento_state m = state_object ed.

Definition history_ok (h : EditorHistory) : Prop :=
  Forall editor_memento (EditorHistory_undoStack h) /\
  Forall editor_memento (EditorHistory_redoStack h).

(** What a program does with a history and its editor. *)
Inductive HistoryCall : Type :=
| HistoryEdit (a : Edit)        (* editor.insert(...), editor.select(...), ... *)
| HistorySave                   (* history.save() *)
| HistoryUndo                   (* history.undo() *)
| HistoryRedo.                  (* history.redo() *)

Definition history_call (a : HistoryCall) (now : Date)
    : M EditorHistory JSValue :=
  match a with
  | HistoryEdit a => on_editor (edit a)
  | HistorySave => EditorHistory_save now
  | HistoryUndo => EditorHistory_undo now
  | HistoryRedo => EditorHistory_redo now
  end.

(** The completions of the calls of a script, and the history it ends
    in; an exception ends the run. *)
Fixpoint history_run (script : list (HistoryCall * Date)) (h : EditorHistory)
    : list (Completion JSValue) * EditorHistory :=
  match script with
  | [] => ([], h)
  | (a, now) :: script' =>
      match history_call a now h with
      | (Normal v, h') =>
          let '(rs, h'') := history_run script' h' in (Normal v :: rs, h'')
      | (Throw e, h') => ([Throw e], h')
      end
  end.

(** The part of the text before position [n], and the part from it on. *)
Definition text_before (n : nat) (s : string) : string := substring 0 n s.

(** The demonstration: [insert('Hello'); insert(' World'); select(6, 11)] *)
Definition demo_editor : TextEditor :=
  edited [EditInsert "Hello"; EditInsert " World"; EditSelect 6 11]
         TextEditor_new.

End EditorPattern.

(* ===================================================================== *)
(** * 18-mediator.js, State pattern: reading an order's life              *)
(* ===================================================================== *)

Module StateMore.
Import JS StatePattern.
Local Open Scope list_scope.
Local Open Scope js_scope.

(** How far an order has come.  The two ways out, returned and
    cancelled, are furthest. *)
Definition rank (s : OrderStateClass) : nat :=
  match s with
  | CreatedState => 0
  | ConfirmedState => 1
  | PaidState => 2
  | ShippedState => 3
  | DeliveredState => 4
  | ReturnedState => 5
  | CancelledState => 5
  end.

(** Following a history from a state name: each record must start where
    the one before ended.  The name reached, if the records link up. *)
Fixpoint path_end (start : string) (h : list TransitionRecord)
    : option string :=
  match h with
  | [] => Some start
  | r :: h' => if decide (from r = start) then path_end (to r) h' else None
  end.

(** The calls a client of an order makes: the three operations and the
    getters.  ([setState], the four checks and [refundPayment] are what
    the states call.) *)
Definition client_call (a : OrderCall * Env) : Prop :=
  match fst a with
  | CallProcess | CallCancel | CallReturn
  | CallGetCurrentState | CallGetStateDescription
  | CallGetStateHistory | CallGetInfo => True
  | _ => False
  end.

(** The three status fields that go with each state. *)
Definition statuses_ok (o : Order) : Prop :=
  match state o with
  | CreatedState | ConfirmedState =>
      paymentStatus o = "pending" /\ shippingStatus o = "not_shipped" /\
      deliveryStatus o = "not_delivered"
  | PaidState =>
      paymentStatus o = "paid" /\ shippingStatus o = "not_shipped" /\
      deliveryStatus o = "not_delivered"
  | ShippedState =>
      paymentStatus o = "paid" /\ shippingStatus o = "ready" /\
      deliveryStatus o = "not_delivered"
  | DeliveredState =>
      paymentStatus o = "paid" /\ shippingStatus o = "ready" /\
      deliveryStatus o = "delivered"
  | ReturnedState =>
      (paymentStatus o = "paid" \/ paymentStatus o = "refunded") /\
      shippingStatus o = "ready" /\ deliveryStatus o = "delivered"
  | CancelledState =>
      (paymentStatus o = "pending" \/ paymentStatus o = "refunded") /\
      shippingStatus o = "not_shipped" /\ deliveryStatus o = "not_delivered"
  end.

(** ** The generic context: what a program does with one *)

Inductive ContextCall : Type :=
| ContextSetState (s : StateClass)
| ContextRequest
| ContextGetCurrentState
| ContextGetStateHistory
| ContextGetTransitionCount.

Definition context_call (a : ContextCall) (e : Env)
    : M (World Context) unit :=
  match a with
  | ContextSetState s => void (Context_setState s e)
  | ContextRequest => void Context_request
  | ContextGetCurrentState => void Context_getCurrentState
  | ContextGetStateHistory => void Context_getStateHistory
  | ContextGetTransitionCount => void Context_getTransitionCount
  end.

Fixpoint context_after (script : list (ContextCall * Env))
    (w : World Context) : World Context :=
  match script with
  | [] => w
  | (a, e) :: script' =>
      match context_call a e w with
      | (Normal _, w') => context_after script' w'
      | (Throw _, w') => w'
      end
  end.

Fixpoint context_completes (script : list (ContextCall * Env))
    (w : World Context) : Prop :=
  match script with
  | [] => True
  | (a, e) :: script' =>
      match context_call a e w with
      | (Normal _, w') => context_completes script' w'
      | (Throw _, _) => False
      end
  end.

(** The states a script sets, in order. *)
Definition states_set (script : list (ContextCall * Env)) : list StateClass :=
  omap (fun a => match fst a with
                 | ContextSetState s => Some s
                 | _ => None
                 end) script.

(** The records a script's [setState] calls write, starting from the
    name [prev] of the state before. *)
Fixpoint records_set (prev : string) (script : list (ContextCall * Env))
    : list TransitionRecord :=
  match script with
  | [] => []
  | (ContextSetState s, e) :: script' =>
      {| from := prev; to := State_getName s; timestamp := now e |}
      :: records_set (State_getName s) script'
  | _ :: script' => records_set prev script'
  end.

(** The name [setState] records for the state before. *)
Definition state_name (s : option StateClass) : string :=
  match s with
  | Some s => State_getName s
  | None => "None"
  end.

End StateMore.

(* ===================================================================== *)
(** * src/18-mediator.js: class AutomatonState and its four subclasses,
      class Automaton

    The automaton owns two arrays, the symbols read and the transitions
    made, and replaces both at the start of every run.  The store keeps
    the arrays of symbols apart from the arrays of records.  A string is
    the list of its code units, so that [input[i]] is a symbol of the
    list and [input.length] its length. *)
(* ===================================================================== *)

Module AutomatonPattern.
Import JS StatePattern.
Local Open Scope list_scope.
Local Open Scope js_scope.

Inductive AutomatonStateClass : Type :=
| InitialState
| StateA
| StateB
| FinalStateC.

#[global] Instance AutomatonStateClass_eq_dec : EqDecision AutomatonStateClass.
Proof. solve_decision. Defined.

Record Automaton : Type := {
  Automaton_state : AutomatonStateClass;   (* this.state *)
  inputHistory : loc;                      (* this.inputHistory *)
  Automaton_stateHistory : loc             (* this.stateHistory *)
}.

(** The automaton a method runs on, the two stores and the console. *)
Record Machine : Type := {
  self : Automaton;
  transitions : gmap loc (list TransitionRecord);
  symbols : gmap loc (list string);
  printed : list string
}.

Definition set_self (f : Automaton -> Automaton) : M Machine unit :=
  modify (fun h => {| self := f (self h); transitions := transitions h;
                      symbols := symbols h; printed := printed h |}).

Definition set_transitions
    (f : gmap loc (list TransitionRecord) -> gmap loc (list TransitionRecord))
    : M Machine unit :=
  modify (fun h => {| self := self h; transitions := f (transitions h);
                      symbols := symbols h; printed := printed h |}).

Definition set_symbols
    (f : gmap loc (list string) -> gmap loc (list string)) : M Machine unit :=
  modify (fun h => {| self := self h; transitions := transitions h;
                      symbols := f (symbols h); printed := printed h |}).

(** [console.log(line)] *)
Definition print (line : string) : M Machine unit :=
  modify (fun h => {| self := self h; transitions := transitions h;
                      symbols := symbols h;
                      printed := printed h ++ [line] |}).

(** [a.push(x)] on an array of records and on an array of symbols; a
    reference to nothing is [undefined], and [push] on it a
    [TypeError]. *)
Definition transitions_push (l : loc) (x : TransitionRecord)
    : M Machine unit :=
  let* h := get in
  match transitions h !! l with
  | Some a => set_transitions (fun m => <[l := a ++ [x]]> m)
  | None => throw TypeError
  end.

Definition symbols_push (l : loc) (x : string) : M Machine unit :=
  let* h := get in
  match symbols h !! l with
  | Some a => set_symbols (fun m => <[l := a ++ [x]]> m)
  | None => throw TypeError
  end.

(** [[]]: a new, empty array. *)
Definition transitions_empty : M Machine loc :=
  let* h := get in
  let l := fresh (dom (transitions h)) in
  set_transitions (fun m => <[l := []]> m) ;;
  ret l.

Definition symbols_empty : M Machine loc :=
  let* h := get in
  let l := fresh (dom (symbols h)) in
  set_symbols (fun m => <[l := []]> m) ;;
  ret l.

(** [[...a]]: a new array with the same elements. *)
Definition transitions_copy (l : loc) : M Machine loc :=
  let* h := get in
  match transitions h !! l with
  | Some a =>
      let l' := fresh (dom (transitions h)) in
      set_transitions (fun m => <[l' := a]> m) ;;
      ret l'
  | None => throw TypeError
  end.

Definition symbols_copy (l : loc) : M Machine loc :=
  let* h := get in
  match symbols h !! l with
  | Some a =>
      let l' := fresh (dom (symbols h)) in
      set_symbols (fun m => <[l' := a]> m) ;;
      ret l'
  | None => throw TypeError
  end.

(** ** class AutomatonState *)

(** [getName() { return this.constructor.name; }] *)
Definition AutomatonState_getName (s : AutomatonStateClass) : string :=
  match s with
  | InitialState => "InitialState"
  | StateA => "StateA"
  | StateB => "StateB"
  | FinalStateC => "FinalStateC"
  end.

(** [AutomatonState.process], to be overridden *)
Definition AutomatonState_process : M Machine bool :=
  throw (Error "Метод process должен быть переопределен").

Definition AutomatonState_isFinal : bool := false.

Definition FinalStateC_isFinal : bool := true.

Definition own_isFinal (s : AutomatonStateClass) : option bool :=
  match s with
  | FinalStateC => Some FinalStateC_isFinal
  | _ => None
  end.

Definition isFinal (s : AutomatonStateClass) : bool :=
  resolve (own_isFinal s) AutomatonState_isFinal.

(** ** class Automaton: the constructor and setState *)

(** [new Automaton()], in the two stores and with a console. *)
Definition Automaton_new (records : gmap loc (list TransitionRecord))
    (units : gmap loc (list string)) (out : list string) : Machine :=
  let i := fresh (dom units) in
  let t := fresh (dom records) in
  {| self := {| Automaton_state := InitialState; inputHistory := i;
                Automaton_stateHistory := t |};
     transitions := <[t := []]> records;
     symbols := <[i := []]> units;
     printed := out |}.

(** [setState(newState)]; [now] is what [new Date().toISOString()]
    returns in this call. *)
Definition Automaton_setState (newState : AutomatonStateClass) (now : string)
    : M Machine JSValue :=
  let* a := gets self in
  let oldState := AutomatonState_getName (Automaton_state a) in
  set_self (fun a => {| Automaton_state := newState;
                        inputHistory := inputHistory a;
                        Automaton_stateHistory := Automaton_stateHistory a |}) ;;
  transitions_push (Automaton_stateHistory a)
                   {| from := oldState; to := AutomatonState_getName newState;
                      timestamp := now |} ;;
  print ("[Automaton] Состояние изменено: " +:+ oldState +:+ " → "
         +:+ AutomatonState_getName newState) ;;
  ret JUndefined.

(** ** The four states' process(input, automaton) *)

Definition InitialState_process (input : string) (now : string)
    : M Machine bool :=
  let name := AutomatonState_getName InitialState in
  print (tagged name ("Обрабатываем символ: " +:+ input)) ;;
  if String.eqb input "a" then
    print (tagged name "Переходим в состояние A") ;;
    Automaton_setState StateA now ;;
    ret true
  else if String.eqb input "b" then
    print (tagged name "Переходим в состояние B") ;;
    Automaton_setState StateB now ;;
    ret true
  else
    print (tagged name ("Неверный символ: " +:+ input)) ;;
    ret false.

Definition StateA_process (input : string) (now : string) : M Machine bool :=
  let name := AutomatonState_getName StateA in
  print (tagged name ("Обрабатываем символ: " +:+ input)) ;;
  if String.eqb input "a" then
    print (tagged name "Остаемся в состоянии A") ;;
    ret true
  else if String.eqb input "b" then
    print (tagged name "Переходим в состояние B") ;;
    Automaton_setState StateB now ;;
    ret true
  else if String.eqb input "c" then
    print (tagged name "Переходим в конечное состояние C") ;;
    Automaton_setState FinalStateC now ;;
    ret true
  else
    print (tagged name ("Неверный символ: " +:+ input)) ;;
    ret false.

Definition StateB_process (input : string) (now : string) : M Machine bool :=
  let name := AutomatonState_getName StateB in
  print (tagged name ("Обрабатываем символ: " +:+ input)) ;;
  if String.eqb input "a" then
    print (tagged name "Переходим в состояние A") ;;
    Automaton_setState StateA now ;;
    ret true
  else if String.eqb input "b" then
    print (tagged name "Остаемся в состоянии B") ;;
    ret true
  else if String.eqb input "c" then
    print (tagged name "Переходим в конечное состояние C") ;;
    Automaton_setState FinalStateC now ;;
    ret true
  else
    print (tagged name ("Неверный символ: " +:+ input)) ;;
    ret false.

Definition FinalStateC_process (input : string) (now : string)
    : M Machine bool :=
  let name := AutomatonState_getName FinalStateC in
  print (tagged name ("Обрабатываем символ: " +:+ input)) ;;
  print (tagged name
    "Достигнуто конечное состояние, дальнейшая обработка невозможна") ;;
  ret false.

Definition own_process (s : AutomatonStateClass)
    : option (string -> string -> M Machine bool) :=
  match s with
  | InitialState => Some InitialState_process
  | StateA => Some StateA_process
  | StateB => Some StateB_process
  | FinalStateC => Some FinalStateC_process
  end.

(** [state.process(input, automaton)] *)
Definition process (s : AutomatonStateClass) (input now : string)
    : M Machine bool :=
  resolve (own_process s) (fun _ _ => AutomatonState_process) input now.

(** ** processInput *)

(** How the [for] loop is left: by [return], or by [break] or the end of
    the input. *)
Inductive LoopExit : Type :=
| Returned (result : bool)
| Finished.

(** The iterations from index [i] on; [rest] is the input from that
    index.  [clock k] is what [new Date().toISOString()] returns in the
    iteration at index [k - 1] (an iteration reads the clock at most
    once), and [clock 0] what it returns before the loop. *)
Fixpoint for_symbols (total : nat) (clock : nat -> string) (i : nat)
    (rest : string) : M Machine LoopExit :=
  match rest with
  | EmptyString => ret Finished
  | String c rest' =>
      let symbol := String c EmptyString in
      let* a := gets self in
      symbols_push (inputHistory a) symbol ;;
      print (String "010"%char EmptyString
             +:+ "[Automaton] Обрабатываем символ " +:+ pretty (i + 1)%nat
             +:+ "/" +:+ pretty total +:+ ": " +:+ dq +:+ symbol +:+ dq) ;;
      let* ok := process (Automaton_state a) symbol (clock (S i)) in
      if negb ok then
        print ("[Automaton] Ошибка обработки символа " +:+ dq +:+ symbol
               +:+ dq) ;;
        ret (Returned false)
      else
        let* a := gets self in
        if isFinal (Automaton_state a) then
          print "[Automaton] Достигнуто конечное состояние" ;;
          ret Finished
        else for_symbols total clock (S i) rest'
  end.

Definition Automaton_processInput (input : string) (clock : nat -> string)
    : M Machine bool :=
  print ("[Automaton] Обрабатываем входную строку: " +:+ dq +:+ input
         +:+ dq) ;;
  let* i := symbols_empty in
  set_self (fun a => {| Automaton_state := Automaton_state a;
                        inputHistory := i;
                        Automaton_stateHistory := Automaton_stateHistory a |}) ;;
  let* t := transitions_empty in
  set_self (fun a => {| Automaton_state := Automaton_state a;
                        inputHistory := inputHistory a;
                        Automaton_stateHistory := t |}) ;;
  Automaton_setState InitialState (clock 0%nat) ;;
  let* exit := for_symbols (String.length input) clock 0 input in
  match exit with
  | Returned result => ret result
  | Finished =>
      let* a := gets self in
      let isValid := isFinal (Automaton_state a) in
      print ("[Automaton] Результат обработки: "
             +:+ (if isValid then "принято" else "отклонено")) ;;
      ret isValid
  end.

(** ** The getters *)

Definition Automaton_getCurrentState : M Machine AutomatonStateClass :=
  gets (fun h => Automaton_state (self h)).

Definition Automaton_getInputHistory : M Machine loc :=
  let* a := gets self in symbols_copy (inputHistory a).

Definition Automaton_getStateHistory : M Machine loc :=
  let* a := gets self in transitions_copy (Automaton_stateHistory a).

(** [{ currentState, isFinal, inputHistory, stateHistory }] *)
Record AutomatonInfo : Type := {
  info_currentState : string;
  info_isFinal : bool;
  info_inputHistory : loc;
  info_stateHistory : loc
}.

Definition Automaton_getInfo : M Machine AutomatonInfo :=
  let* a := gets self in
  let* i := Automaton_getInputHistory in
  let* t := Automaton_getStateHistory in
  ret {| info_currentState := AutomatonState_getName (Automaton_state a);
         info_isFinal := isFinal (Automaton_state a);
         info_inputHistory := i;
         info_stateHistory := t |}.

(** ** Reading the automaton *)

(** The contents of the two history arrays. *)
Definition input_history (h : Machine) : list string :=
  default [] (symbols h !! inputHistory (self h)).

Definition state_history (h : Machine) : list TransitionRecord :=
  default [] (transitions h !! Automaton_stateHistory (self h)).

(** The symbols of a string, as [input[i]] gives them. *)
Fixpoint symbols_of (input : string) : list string :=
  match input with
  | EmptyString => []
  | String c rest => String c EmptyString :: symbols_of rest
  end.

(** The longest prefix of a's and b's. *)
Fixpoint ab_prefix (input : string) : string :=
  match input with
  | String c rest =>
      if decide (c = "a"%char \/ c = "b"%char)
      then String c (ab_prefix rest) else EmptyString
  | EmptyString => EmptyString
  end.

(** The strings of a's and b's. *)
Fixpoint ab_only (p : string) : Prop :=
  match p with
  | EmptyString => True
  | String c rest => (c = "a"%char \/ c = "b"%char) /\ ab_only rest
  end.

(** A chain of records from one state name to another: every record
    starts where the one before ended. *)
Fixpoint chain (first : string) (records : list TransitionRecord)
    (final : string) : Prop :=
  match records with
  | [] => first = final
  | r :: records' => from r = first /\ chain (to r) records' final
  end.

(** The state the automaton is in after reading a string of a's and
    b's from the initial state. *)
Definition state_after_ab (p : string) : AutomatonStateClass :=
  match last (list_ascii_of_string p) with
  | None => InitialState
  | Some c => if decide (c = "a"%char) then StateA else StateB
  end.

(** The transition table the four [process] methods make: the state a
    symbol leads to, or [None] where [process] returns [false]. *)
Definition transition (s : AutomatonStateClass) (c : ascii)
    : option AutomatonStateClass :=
  match s with
  | InitialState =>
      if Ascii.eqb c "a" then Some StateA
      else if Ascii.eqb c "b" then Some StateB
      else None
  | StateA =>
      if Ascii.eqb c "a" then Some StateA
      else if Ascii.eqb c "b" then Some StateB
      else if Ascii.eqb c "c" then Some FinalStateC
      else None
  | StateB =>
      if Ascii.eqb c "a" then Some StateA
      else if Ascii.eqb c "b" then Some StateB
      else if Ascii.eqb c "c" then Some FinalStateC
      else None
  | FinalStateC => None
  end.

(** The record [setState] writes when [process] changes the state; a
    symbol that keeps the state writes none. *)
Definition moved (s s' : AutomatonStateClass) (now : string)
    : list TransitionRecord :=
  if decide (s = s') then []
  else [{| from := AutomatonState_getName s;
           to := AutomatonState_getName s'; timestamp := now |}].

(** What the loop does to a string from a state, by the table: how it is
    left, the state it ends in and the symbols it reads. *)
Record Scan : Type := {
  exit : LoopExit;
  final : AutomatonStateClass;
  read : string
}.

Fixpoint scan (s : AutomatonStateClass) (input : string) : Scan :=
  match input with
  | EmptyString => {| exit := Finished; final := s; read := EmptyString |}
  | String c rest =>
      match transition s c with
      | None => {| exit := Returned false; final := s;
                   read := String c EmptyString |}
      | Some s' =>
          if isFinal s'
          then {| exit := Finished; final := s';
                  read := String c EmptyString |}
          else
            let r := scan s' rest in
            {| exit := exit r; final := final r;
               read := String c (read r) |}
      end
  end.

(** The part of the input a run reads: its a's and b's up to the first
    other symbol, and that symbol. *)
Definition consumed (input : string) : string :=
  substring 0 (S (String.length (ab_prefix input))) input.

End AutomatonPattern.

(* ===================================================================== *)
(** * src/18-mediator.js: class ChatMediator, class ChatRoom,
      class ChatUser

    Users and rooms are objects that refer to each other: a room maps
    names to users and a user holds its room.  The heap keeps the users
    apart from the rooms.  Names and messages are strings. *)
(* ===================================================================== *)

Module ChatPattern.
Import JS StatePattern.
Local Open Scope list_scope.
Local Open Scope js_scope.

Record ChatUser : Type := {
  ChatUser_name : string;              (* this.name *)
  ChatUser_mediator : option loc       (* this.mediator, null at first *)
}.

(** [this.users], a [Map]: the entries in insertion order, no key
    twice. *)
Record ChatRoom : Type := {
  ChatRoom_users : list (string * loc)
}.

Record Chat : Type := {
  chat_users : gmap loc ChatUser;
  chat_rooms : gmap loc ChatRoom;
  chat_console : list string
}.

(** [console.log(line)] *)
Definition chat_log (line : string) : M Chat unit :=
  modify (fun c => {| chat_users := chat_users c; chat_rooms := chat_rooms c;
                      chat_console := chat_console c ++ [line] |}).

(** Reading an object through a reference; a reference to nothing is
    [undefined], and reading a property of it a [TypeError]. *)
Definition read_user (l : loc) : M Chat ChatUser :=
  let* c := get in
  match chat_users c !! l with
  | Some u => ret u
  | None => throw TypeError
  end.

Definition read_room (l : loc) : M Chat ChatRoom :=
  let* c := get in
  match chat_rooms c !! l with
  | Some r => ret r
  | None => throw TypeError
  end.

Definition write_user (l : loc) (u : ChatUser) : M Chat unit :=
  modify (fun c => {| chat_users := <[l := u]> (chat_users c);
                      chat_rooms := chat_rooms c;
                      chat_console := chat_console c |}).

Definition write_room (l : loc) (r : ChatRoom) : M Chat unit :=
  modify (fun c => {| chat_users := chat_users c;
                      chat_rooms := <[l := r]> (chat_rooms c);
                      chat_console := chat_console c |}).

(** [Map.prototype.set]: a key already there keeps its place and takes
    the new value, a new key goes to the end. *)
Fixpoint Map_set (key : string) (value : loc) (entries : list (string * loc))
    : list (string * loc) :=
  match entries with
  | [] => [(key, value)]
  | (k, v) :: entries' =>
      if String.eqb k key then (key, value) :: entries'
      else (k, v) :: Map_set key value entries'
  end.

(** [Map.prototype.get] *)
Fixpoint Map_get (key : string) (entries : list (string * loc)) : option loc :=
  match entries with
  | [] => None
  | (k, v) :: entries' =>
      if String.eqb k key then Some v else Map_get key entries'
  end.

(** ** class ChatMediator: the three methods to be overridden *)

Definition ChatMediator_register : M Chat JSValue :=
  throw (Error "register not implemented").

Definition ChatMediator_send : M Chat JSValue :=
  throw (Error "send not implemented").

Definition ChatMediator_broadcast : M Chat JSValue :=
  throw (Error "broadcast not implemented").

(** ** class ChatUser: the constructor and receive *)

(** [new ChatUser(name)] *)
Definition ChatUser_new (name : string) : M Chat loc :=
  let* c := get in
  let l := fresh (dom (chat_users c)) in
  write_user l {| ChatUser_name := name; ChatUser_mediator := None |} ;;
  ret l.

(** [receive(from, message)] *)
Definition ChatUser_receive (self : loc) (from message : string)
    : M Chat JSValue :=
  let* u := read_user self in
  chat_log ("[Recv] " +:+ ChatUser_name u +:+ " <- " +:+ from +:+ ": "
            +:+ message) ;;
  ret JUndefined.

(** ** class ChatRoom *)

(** [new ChatRoom()] *)
Definition ChatRoom_new : M Chat loc :=
  let* c := get in
  let l := fresh (dom (chat_rooms c)) in
  write_room l {| ChatRoom_users := [] |} ;;
  ret l.

(** [register(user)] *)
Definition ChatRoom_register (self user : loc) : M Chat JSValue :=
  let* r := read_room self in
  let* u := read_user user in
  write_room self
    {| ChatRoom_users := Map_set (ChatUser_name u) user (ChatRoom_users r) |} ;;
  write_user user {| ChatUser_name := ChatUser_name u;
                     ChatUser_mediator := Some self |} ;;
  ret JUndefined.

(** [send(from, to, message)] *)
Definition ChatRoom_send (self : loc) (from to message : string)
    : M Chat JSValue :=
  let* r := read_room self in
  match Map_get to (ChatRoom_users r) with
  | Some receiver => ChatUser_receive receiver from message ;; ret JUndefined
  | None => ret JUndefined
  end.

(** The [for (const [name, user] of this.users)] loop of [broadcast];
    the body does not touch the map. *)
Fixpoint for_users (entries : list (string * loc)) (from message : string)
    : M Chat unit :=
  match entries with
  | [] => ret tt
  | (name, user) :: entries' =>
      (if negb (String.eqb name from)
       then ChatUser_receive user from message ;; ret tt
       else ret tt) ;;
      for_users entries' from message
  end.

(** [broadcast(from, message)] *)
Definition ChatRoom_broadcast (self : loc) (from message : string)
    : M Chat JSValue :=
  let* r := read_room self in
  for_users (ChatRoom_users r) from message ;;
  ret JUndefined.

(** ** class ChatUser: send and broadcast

    [this.mediator] is set by [ChatRoom.register] only, so the calls go
    to the room's methods. *)

(** [send(to, message)] *)
Definition ChatUser_send (self : loc) (to message : string)
    : M Chat JSValue :=
  let* u := read_user self in
  match ChatUser_mediator u with
  | None => throw (Error "User is not registered in a chat")
  | Some mediator =>
      chat_log ("[Send] " +:+ ChatUser_name u +:+ " -> " +:+ to +:+ ": "
                +:+ message) ;;
      ChatRoom_send mediator (ChatUser_name u) to message ;;
      ret JUndefined
  end.

(** [broadcast(message)]: no check that there is a mediator, and a call
    on [null] is a [TypeError]. *)
Definition ChatUser_broadcast (self : loc) (message : string)
    : M Chat JSValue :=
  let* u := read_user self in
  chat_log ("[Broadcast] " +:+ ChatUser_name u +:+ ": " +:+ message) ;;
  match ChatUser_mediator u with
  | None => throw TypeError
  | Some mediator =>
      ChatRoom_broadcast mediator (ChatUser_name u) message ;;
      ret JUndefined
  end.

(** ** Reading a chat *)

(** The line [receive] prints for the user behind a reference. *)
Definition recv_line (c : Chat) (from message : string) (user : loc)
    : string :=
  "[Recv] " +:+ from_option ChatUser_name EmptyString (chat_users c !! user)
  +:+ " <- " +:+ from +:+ ": " +:+ message.

(** The entries of a room a broadcast from [from] reaches. *)
Definition reached (from : string) (entries : list (string * loc))
    : list loc :=
  map snd (filter (fun entry => fst entry <> from) entries).

(** Every entry refers to a user of the heap. *)
Definition entries_ok (c : Chat) (entries : list (string * loc)) : Prop :=
  Forall (fun entry => is_Some (chat_users c !! snd entry)) entries.

(** The script of the source: a room with Alice, Bob and Charlie. *)
Definition demo_chat : Chat :=
  let c0 := {| chat_users := ∅; chat_rooms := ∅; chat_console := [] |} in
  let script : M Chat (loc * loc * loc * loc) :=
    let* room := ChatRoom_new in
    let* alice := ChatUser_new "Alice" in
    let* bob := ChatUser_new "Bob" in
    let* charlie := ChatUser_new "Charlie" in
    ChatRoom_register room alice ;;
    ChatRoom_register room bob ;;
    ChatRoom_register room charlie ;;
    ret (room, alice, bob, charlie) in
  snd (script c0).

(** ** Scripts of calls *)

Inductive ChatCall : Type :=
| NewChatUser (name : string)
| NewChatRoom
| Register (room user : loc)
| Send (user : loc) (to message : string)
| Broadcast (user : loc) (message : string).

Definition void_chat {A} (m : M Chat A) : M Chat unit :=
  let* _ := m in ret tt.

Definition chat_call (a : ChatCall) : M Chat unit :=
  match a with
  | NewChatUser name => void_chat (ChatUser_new name)
  | NewChatRoom => void_chat ChatRoom_new
  | Register room user => void_chat (ChatRoom_register room user)
  | Send user to message => void_chat (ChatUser_send user to message)
  | Broadcast user message => void_chat (ChatUser_broadcast user message)
  end.

(** The chat after a script; a call that throws is caught, and the
    script goes on. *)
Definition chat_after (script : list ChatCall) (c : Chat) : Chat :=
  fold_left (fun c a => snd (chat_call a c)) script c.

Definition empty_chat : Chat :=
  {| chat_users := ∅; chat_rooms := ∅; chat_console := [] |}.

(** In every room no name is entered twice, and every entry is a user
    of the heap under its own name. *)
Definition rooms_ok (c : Chat) : Prop :=
  forall (room : loc) (r : ChatRoom),
    chat_rooms c !! room = Some r ->
    NoDup (map fst (ChatRoom_users r)) /\
    forall (name : string) (user : loc),
      (name, user) ∈ ChatRoom_users r ->
      exists u, chat_users c !! user = Some u /\ ChatUser_name u = name.

(** Every user's mediator is a room of the heap. *)
Definition mediators_ok (c : Chat) : Prop :=
  forall (user : loc) (u : ChatUser) (room : loc),
    chat_users c !! user = Some u ->
    ChatUser_mediator u = Some room ->
    is_Some (chat_rooms c !! room).

(** [send] and [broadcast] of a user return without an exception. *)
Definition can_talk (c : Chat) (user : loc) : Prop :=
  forall to message : string,
    fst (ChatUser_send user to message c) = Normal JUndefined /\
    fst (ChatUser_broadcast user message c) = Normal JUndefined.

End ChatPattern.

(* ===================================================================== *)
(** * src/18-mediator.js: class DialogMediator, class LoginDialog,
      class Widget and its three subclasses

    A widget holds its dialog and a dialog the set of its widgets.  What
    a widget passes on is a string (a text box), a boolean (a check box)
    or nothing (a button). *)
(* ===================================================================== *)

Module DialogPattern.
Import JS StatePattern.
Local Open Scope list_scope.
Local Open Scope js_scope.

(** The values the widgets hold and pass to [notify]. *)
Inductive Payload : Type :=
| PUndefined
| PBool (b : bool)
| PStr (s : string).

(** [`${v}`] *)
Definition to_string (v : Payload) : string :=
  match v with
  | PUndefined => "undefined"
  | PBool true => "true"
  | PBool false => "false"
  | PStr s => s
  end.

(** A value in a condition. *)
Definition truthy (v : Payload) : bool :=
  match v with
  | PUndefined => false
  | PBool b => b
  | PStr s => negb (String.eqb s EmptyString)
  end.

Inductive WidgetClass : Type :=
| WidgetClass_Widget
| TextBox
| CheckBox
| Button.

#[global] Instance WidgetClass_eq_dec : EqDecision WidgetClass.
Proof. solve_decision. Defined.

Record Widget : Type := {
  Widget_class : WidgetClass;
  Widget_name : string;                (* this.name *)
  Widget_mediator : option loc;        (* this.mediator, null at first *)
  Widget_value : Payload;              (* this.value, of a text box *)
  Widget_checked : Payload             (* this.checked, of a check box *)
}.

(** A dialog: a plain [DialogMediator] with its widgets, or a
    [LoginDialog] with its widgets and its state object. *)
Inductive Dialog : Type :=
| DialogMediatorObject (widgets : list loc)
| LoginDialogObject (widgets : list loc) (state : list (string * Payload)).

Definition Dialog_widgets (d : Dialog) : list loc :=
  match d with
  | DialogMediatorObject widgets => widgets
  | LoginDialogObject widgets _ => widgets
  end.

Definition set_widgets (widgets : list loc) (d : Dialog) : Dialog :=
  match d with
  | DialogMediatorObject _ => DialogMediatorObject widgets
  | LoginDialogObject _ state => LoginDialogObject widgets state
  end.

Record Desk : Type := {
  desk_widgets : gmap loc Widget;
  desk_dialogs : gmap loc Dialog;
  desk_console : list string
}.

(** [console.log(line)] *)
Definition desk_log (line : string) : M Desk unit :=
  modify (fun k => {| desk_widgets := desk_widgets k;
                      desk_dialogs := desk_dialogs k;
                      desk_console := desk_console k ++ [line] |}).

Definition read_widget (l : loc) : M Desk Widget :=
  let* k := get in
  match desk_widgets k !! l with
  | Some w => ret w
  | None => throw TypeError
  end.

Definition read_dialog (l : loc) : M Desk Dialog :=
  let* k := get in
  match desk_dialogs k !! l with
  | Some d => ret d
  | None => throw TypeError
  end.

Definition write_widget (l : loc) (w : Widget) : M Desk unit :=
  modify (fun k => {| desk_widgets := <[l := w]> (desk_widgets k);
                      desk_dialogs := desk_dialogs k;
                      desk_console := desk_console k |}).

Definition write_dialog (l : loc) (d : Dialog) : M Desk unit :=
  modify (fun k => {| desk_widgets := desk_widgets k;
                      desk_dialogs := <[l := d]> (desk_dialogs k);
                      desk_console := desk_console k |}).

(** [Set.prototype.add] *)
Definition Set_add (x : loc) (s : list loc) : list loc :=
  if decide (x ∈ s) then s else s ++ [x].

(** [object[key]], of an object with the properties [fields] and the
    prototype of an object literal, for the keys read here. *)
Fixpoint field (key : string) (fields : list (string * Payload)) : Payload :=
  match fields with
  | [] => PUndefined
  | (k, v) :: fields' => if String.eqb k key then v else field key fields'
  end.

Fixpoint assign (key : string) (value : Payload)
    (fields : list (string * Payload)) : list (string * Payload) :=
  match fields with
  | [] => [(key, value)]
  | (k, v) :: fields' =>
      if String.eqb k key then (key, value) :: fields'
      else (k, v) :: assign key value fields'
  end.

(** [object[key] = value]: a new property, or a new value of an old
    one; the key [__proto__] is the prototype's setter, which ignores
    what is not an object. *)
Definition set_field (key : string) (value : Payload)
    (fields : list (string * Payload)) : list (string * Payload) :=
  if String.eqb key "__proto__" then fields else assign key value fields.

(** ** class DialogMediator *)

(** [register(widget)] *)
Definition DialogMediator_register (self widget : loc) : M Desk JSValue :=
  let* d := read_dialog self in
  let* w := read_widget widget in
  write_dialog self (set_widgets (Set_add widget (Dialog_widgets d)) d) ;;
  write_widget widget
    {| Widget_class := Widget_class w; Widget_name := Widget_name w;
       Widget_mediator := Some self; Widget_value := Widget_value w;
       Widget_checked := Widget_checked w |} ;;
  ret JUndefined.

(** [DialogMediator.notify], to be overridden *)
Definition DialogMediator_notify : M Desk JSValue :=
  throw (Error "notify not implemented").

(** [new DialogMediator()] *)
Definition DialogMediator_new : M Desk loc :=
  let* k := get in
  let l := fresh (dom (desk_dialogs k)) in
  write_dialog l (DialogMediatorObject []) ;;
  ret l.

(** ** class LoginDialog *)

(** [new LoginDialog()] *)
Definition LoginDialog_new : M Desk loc :=
  let* k := get in
  let l := fresh (dom (desk_dialogs k)) in
  write_dialog l
    (LoginDialogObject []
       [("username", PStr EmptyString); ("password", PStr EmptyString);
        ("remember", PBool false)]) ;;
  ret l.

(** [this.state], of a login dialog *)
Definition read_state (self : loc) : M Desk (list (string * Payload)) :=
  let* d := read_dialog self in
  match d with
  | LoginDialogObject _ state => ret state
  | DialogMediatorObject _ => throw TypeError
  end.

Definition write_state (self : loc) (state : list (string * Payload))
    : M Desk unit :=
  let* d := read_dialog self in
  write_dialog self (LoginDialogObject (Dialog_widgets d) state).

(** [notify(sender, event, payload)] *)
Definition LoginDialog_notify (self sender : loc) (event : string)
    (payload : Payload) : M Desk JSValue :=
  let* w := read_widget sender in
  (if bool_decide (Widget_class w = TextBox) && String.eqb event "change" then
     let* state := read_state self in
     write_state self (set_field (Widget_name w) payload state) ;;
     desk_log ("[LoginDialog] " +:+ Widget_name w +:+ " изменен: "
               +:+ to_string payload)
   else ret tt) ;;
  (if bool_decide (Widget_class w = CheckBox) && String.eqb event "toggle" then
     let* state := read_state self in
     write_state self (assign "remember" payload state) ;;
     desk_log ("[LoginDialog] remember=" +:+ to_string payload)
   else ret tt) ;;
  (if bool_decide (Widget_class w = Button) && String.eqb event "click" then
     let* state := read_state self in
     let username := field "username" state in
     let password := field "password" state in
     if truthy username && truthy password then
       desk_log "[LoginDialog] Авторизация..." ;;
       desk_log ("[LoginDialog] Добро пожаловать, " +:+ to_string username
                 +:+ "!")
     else
       desk_log "[LoginDialog] Заполните имя и пароль"
   else ret tt) ;;
  ret JUndefined.

(** [mediator.notify(sender, event, payload)], by the class of the
    dialog. *)
Definition notify (mediator sender : loc) (event : string) (payload : Payload)
    : M Desk JSValue :=
  let* d := read_dialog mediator in
  match d with
  | LoginDialogObject _ _ => LoginDialog_notify mediator sender event payload
  | DialogMediatorObject _ => DialogMediator_notify
  end.

(** ** class Widget, class TextBox, class CheckBox, class Button *)

(** [new Widget(name)], [new TextBox(name)] and so on *)
Definition Widget_new (class : WidgetClass) (name : string) : M Desk loc :=
  let* k := get in
  let l := fresh (dom (desk_widgets k)) in
  write_widget l {| Widget_class := class; Widget_name := name;
                    Widget_mediator := None; Widget_value := PUndefined;
                    Widget_checked := PUndefined |} ;;
  ret l.

(** A method of a subclass, called on a widget of that class. *)
Definition method_of (class : WidgetClass) (self : loc) : M Desk Widget :=
  let* w := read_widget self in
  if decide (Widget_class w = class) then ret w else throw TypeError.

(** [setValue(v) { this.value = v; this.mediator?.notify(this, 'change', v); }] *)
Definition TextBox_setValue (self : loc) (v : Payload) : M Desk JSValue :=
  let* w := method_of TextBox self in
  write_widget self
    {| Widget_class := Widget_class w; Widget_name := Widget_name w;
       Widget_mediator := Widget_mediator w; Widget_value := v;
       Widget_checked := Widget_checked w |} ;;
  match Widget_mediator w with
  | Some mediator => notify mediator self "change" v ;; ret JUndefined
  | None => ret JUndefined
  end.

(** [setChecked(v) { this.checked = v; this.mediator?.notify(this, 'toggle', v); }] *)
Definition CheckBox_setChecked (self : loc) (v : Payload) : M Desk JSValue :=
  let* w := method_of CheckBox self in
  write_widget self
    {| Widget_class := Widget_class w; Widget_name := Widget_name w;
       Widget_mediator := Widget_mediator w; Widget_value := Widget_value w;
       Widget_checked := v |} ;;
  match Widget_mediator w with
  | Some mediator => notify mediator self "toggle" v ;; ret JUndefined
  | None => ret JUndefined
  end.

(** [click() { this.mediator?.notify(this, 'click'); }] *)
Definition Button_click (self : loc) : M Desk JSValue :=
  let* w := method_of Button self in
  match Widget_mediator w with
  | Some mediator => notify mediator self "click" PUndefined ;; ret JUndefined
  | None => ret JUndefined
  end.

(** ** Reading a desk *)

(** The state object of the login dialog behind a reference. *)
Definition login_state (k : Desk) (dialog : loc) : list (string * Payload) :=
  match desk_dialogs k !! dialog with
  | Some (LoginDialogObject _ state) => state
  | _ => []
  end.

(** A widget of a class, with a name, registered with a login dialog. *)
Definition registered (k : Desk) (widget : loc) (class : WidgetClass)
    (name : string) (dialog : loc) : Prop :=
  (exists w, desk_widgets k !! widget = Some w /\
             Widget_class w = class /\ Widget_name w = name /\
             Widget_mediator w = Some dialog) /\
  (exists widgets state,
      desk_dialogs k !! dialog = Some (LoginDialogObject widgets state)).

(** The script of the source, before the values are entered: a login
    dialog with two text boxes, a check box and a button. *)
Definition demo_desk : Desk :=
  let k0 := {| desk_widgets := ∅; desk_dialogs := ∅; desk_console := [] |} in
  let script : M Desk unit :=
    let* dialog := LoginDialog_new in
    let* username := Widget_new TextBox "username" in
    let* password := Widget_new TextBox "password" in
    let* remember := Widget_new CheckBox "remember" in
    let* submit := Widget_new Button "submit" in
    DialogMediator_register dialog username ;;
    DialogMediator_register dialog password ;;
    DialogMediator_register dialog remember ;;
    DialogMediator_register dialog submit ;;
    ret tt in
  snd (script k0).

End DialogPattern.

(* ===================================================================== *)
(** * Facts about the JSON deep copy                                      *)
(* ===================================================================== *)

Module JSFacts.
Import JS.

Section Copy.
Context {F : Functions}.

Lemma json_property_arr key elems :
  json_property key (JArr elems) =
  match json_elements 0 elems with
  | Throw e => Throw e
  | Normal r => Normal (Some (JArr r))
  end.
Proof.
  simpl.
  assert (E : forall i,
    (fix elements (i : nat) (l : list JSValue) : Completion (list JSValue) :=
     match l with
     | [] => Normal []
     | x :: l' =>
         match json_property (pretty i) x with
         | Throw e => Throw e
         | Normal o =>
             match elements (S i) l' with
             | Throw e => Throw e
             | Normal r => Normal (default JNull o :: r)
             end
         end
     end) i elems = json_elements i elems).
  { induction elems as [|x l IH]; intros i; simpl; [done|]. by rewrite IH. }
  by rewrite E.
Qed.

Lemma json_property_obj key props :
  json_property key (JObj props) =
  match get_property "toJSON" props with
  | Some (JFun f) => toJSON_copy f (JObj props) key
  | _ =>
      match json_properties props with
      | Throw e => Throw e
      | Normal r => Normal (Some (JObj r))
      end
  end.
Proof.
  simpl.
  replace ((fix properties (l : list (string * JSValue))
       : Completion (list (string * JSValue)) :=
     match l with
     | [] => Normal []
     | (k, x) :: l' =>
         match json_property k x with
         | Throw e => Throw e
         | Normal o =>
             match properties l' with
             | Throw e => Throw e
             | Normal r =>
                 Normal (match o with
                         | Some x' => (k, x') :: r
                         | None => r
                         end)
             end
         end
     end) props) with (json_properties props); [done|].
  induction props as [|[k x] l IH]; simpl; [done|]. by rewrite IH.
Qed.

(** An object without a method [toJSON] is copied property by
    property. *)
Lemma json_property_methodless key props :
  methodless props ->
  json_property key (JObj props) =
  match json_properties props with
  | Throw e => Throw e
  | Normal r => Normal (Some (JObj r))
  end.
Proof.
  intros H. rewrite json_property_obj. unfold methodless in H.
  by destruct (get_property "toJSON" props) as [[]|].
Qed.

Lemma get_property_In k v ps : get_property k ps = Some v -> In (k, v) ps.
Proof.
  induction ps as [|[k' v'] ps IH]; simpl; [done|].
  destruct (decide (k' = k)) as [->|_]; [intros [= ->]; by left|].
  intros H. right. by apply IH.
Qed.

(** JSON values hold no function, hence no method. *)
Lemma json_value_methodless props :
  Forall (fun p => json_value (snd p)) props -> methodless props.
Proof.
  intros H. unfold methodless.
  destruct (get_property "toJSON" props) as [v|] eqn:E; [|done].
  apply get_property_In in E. rewrite Forall_forall in H.
  apply list_elem_of_In in E. specialize (H _ E). simpl in H.
  by inversion H.
Qed.

(** The deep copy produces JSON values only. *)
Lemma json_property_value v :
  forall key v', json_property key v = Normal (Some v') -> json_value v'.
Proof.
  induction v as [| |b|n|z|s|f|d|elems IH|props IH] using JSValue_deep_ind;
    intros key v' E.
  - discriminate.
  - injection E as <-. constructor.
  - injection E as <-. constructor.
  - injection E as <-. destruct n; constructor.
  - discriminate.
  - injection E as <-. constructor.
  - discriminate.
  - injection E as <-. constructor.
  - rewrite json_property_arr in E.
    destruct (json_elements 0 elems) as [r|e] eqn:Er; [|discriminate].
    injection E as <-. constructor.
    revert r Er. generalize 0%nat.
    induction IH as [|x l Hx _ IHl]; intros i r Er; simpl in Er.
    + injection Er as <-. constructor.
    + destruct (json_property (pretty i) x) as [o|e] eqn:Ex; [|discriminate].
      destruct (json_elements (S i) l) as [r'|e] eqn:El; [|discriminate].
      injection Er as <-. constructor; [|by eapply IHl].
      destruct o as [x'|]; simpl; [by eapply Hx|constructor].
  - rewrite json_property_obj in E.
    destruct (get_property "toJSON" props) as [[| | | | | |f| | |]|] eqn:Em;
      try (destruct (json_properties props) as [r|e] eqn:Er; [|discriminate];
           injection E as <-; constructor;
           clear Em; revert r Er;
           induction IH as [|[k x] l Hx _ IHl]; intros r Er; simpl in Er;
           [ injection Er as <-; constructor
           | destruct (json_property k x) as [o|e] eqn:Ex; [|discriminate];
             destruct (json_properties l) as [r'|e] eqn:El; [|discriminate];
             injection Er as <-; destruct o as [x'|]; [|by apply IHl];
             constructor; [by eapply Hx|by apply IHl] ]).
    by apply (toJSON_copy_json f (JObj props) key).
Qed.

(** A JSON value is its own deep copy. *)
Lemma json_value_property v :
  json_value v -> forall key, json_property key v = Normal (Some v).
Proof.
  induction v as [| |b|n|z|s|f|d|elems IH|props IH] using JSValue_deep_ind;
    intros Hv key; inversion Hv; subst; try reflexivity.
  - rewrite json_property_arr.
    assert (forall i, json_elements i elems = Normal elems) as ->; [|done].
    match goal with H : Forall json_value elems |- _ => revert H end.
    clear Hv. induction IH as [|x l Hx _ IHl]; intros Hl i; [done|].
    inversion Hl; subst. simpl. rewrite Hx by done. by rewrite IHl.
  - rewrite json_property_methodless by (by apply json_value_methodless).
    assert (json_properties props = Normal props) as ->; [|done].
    match goal with
      H : Forall (fun p => json_value (snd p)) props |- _ => revert H end.
    clear Hv. induction IH as [|[k x] l Hx _ IHl]; intros Hl; [done|].
    inversion Hl; subst. simpl in *. rewrite Hx by done. by rewrite IHl.
Qed.

Lemma json_roundtrip_value v v' :
  json_roundtrip v = Normal v' -> json_value v'.
Proof.
  unfold json_roundtrip. intros E.
  destruct (json_property EmptyString v) as [[x|]|e] eqn:Ev;
    try discriminate.
  injection E as <-. by eapply json_property_value.
Qed.

Lemma json_value_roundtrip v : json_value v -> json_roundtrip v = Normal v.
Proof. intros Hv. unfold json_roundtrip. by rewrite json_value_property. Qed.

(** Copying a copy changes nothing. *)
Lemma json_roundtrip_idem v v' :
  json_roundtrip v = Normal v' -> json_roundtrip v' = Normal v'.
Proof. intros E. apply json_value_roundtrip. by eapply json_roundtrip_value. Qed.

(** The copy of an object without a method [toJSON] is an object. *)
Lemma json_roundtrip_obj props :
  methodless props ->
  json_roundtrip (JObj props) =
  match json_properties props with
  | Throw e => Throw e
  | Normal r => Normal (JObj r)
  end.
Proof.
  intros H. unfold json_roundtrip. rewrite json_property_methodless by done.
  by destruct (json_properties props).
Qed.

End Copy.

End JSFacts.

(* ===================================================================== *)
(** * Facts about the caretaker                                           *)
(* ===================================================================== *)

Module MementoFacts.
Import JS JSFacts MementoPattern.
Local Open Scope list_scope.
Local Open Scope js_scope.

Section Caretaker.
Context {F : Functions}.

(** ** One call at a time *)

Lemma caretaker_eta c :
  {| originator := originator c; undoStack := undoStack c;
     redoStack := redoStack c |} = c.
Proof. by destruct c. Qed.

Lemma pop_push {A} (l : list A) (x : A) : pop (push l x) = (Some x, l).
Proof. unfold pop, push. by rewrite last_snoc, removelast_last. Qed.

Lemma Memento_new_ok now s s' :
  json_roundtrip s = Normal s' -> Memento_new now s = Normal (snapshot s' now).
Proof. unfold Memento_new. by intros ->. Qed.

Lemma Memento_new_memento_ok now s m :
  Memento_new now s = Normal m -> memento_ok m.
Proof.
  unfold Memento_new. destruct (json_roundtrip s) eqn:E; [|done].
  intros [= <-]. by eapply json_roundtrip_value.
Qed.

Lemma Memento_getState_ok m :
  memento_ok m -> Memento_getState m = Normal (Memento_state m).
Proof. apply json_value_roundtrip. Qed.

Lemma save_returns now c s' :
  json_roundtrip (owner_state c) = Normal s' ->
  Caretaker_save now c =
  (Normal JUndefined,
   {| originator := originator c;
      undoStack := undoStack c ++ [snapshot s' now];
      redoStack := [] |}).
Proof.
  intros E. unfold Caretaker_save, on_originator, zoom, bind,
    Originator_createMemento, get, lift. simpl.
  fold (owner_state c). by rewrite (Memento_new_ok _ _ _ E).
Qed.

Lemma save_throws now c e :
  json_roundtrip (owner_state c) = Throw e ->
  Caretaker_save now c = (Throw e, c).
Proof.
  intros E. unfold Caretaker_save, on_originator, zoom, bind,
    Originator_createMemento, get, lift, Memento_new. simpl.
  fold (owner_state c). rewrite E. by rewrite caretaker_eta.
Qed.

Lemma undo_empty now c :
  undoStack c = [] -> Caretaker_undo now c = (Normal (JBool false), c).
Proof. intros E. unfold Caretaker_undo, bind, get. by rewrite E. Qed.

Lemma redo_empty now c :
  redoStack c = [] -> Caretaker_redo now c = (Normal (JBool false), c).
Proof. intros E. unfold Caretaker_redo, bind, get. by rewrite E. Qed.

Lemma undo_nonempty now c rest m s' :
  undoStack c = rest ++ [m] ->
  memento_ok m ->
  json_roundtrip (owner_state c) = Normal s' ->
  Caretaker_undo now c =
  (Normal (JBool true),
   {| originator := {| Originator_state := Memento_state m |};
      undoStack := rest;
      redoStack := redoStack c ++ [snapshot s' now] |}).
Proof.
  intros EU Hm Es. unfold Caretaker_undo, bind at 1, get at 1.
  rewrite EU. rewrite length_app. simpl.
  destruct (decide _) as [?|_]; [lia|].
  rewrite last_snoc, removelast_last.
  unfold bind, set_undoStack, set_redoStack, modify, on_originator, zoom,
    Originator_createMemento, Originator_restore, get, lift, ret. simpl.
  fold (owner_state c). rewrite (Memento_new_ok _ _ _ Es).
  by rewrite (Memento_getState_ok _ Hm).
Qed.

Lemma redo_nonempty now c rest m s' :
  redoStack c = rest ++ [m] ->
  memento_ok m ->
  json_roundtrip (owner_state c) = Normal s' ->
  Caretaker_redo now c =
  (Normal (JBool true),
   {| originator := {| Originator_state := Memento_state m |};
      undoStack := undoStack c ++ [snapshot s' now];
      redoStack := rest |}).
Proof.
  intros EU Hm Es. unfold Caretaker_redo, bind at 1, get at 1.
  rewrite EU. rewrite length_app. simpl.
  destruct (decide _) as [?|_]; [lia|].
  rewrite last_snoc, removelast_last.
  unfold bind, set_undoStack, set_redoStack, modify, on_originator, zoom,
    Originator_createMemento, Originator_restore, get, lift, ret. simpl.
  fold (owner_state c). rewrite (Memento_new_ok _ _ _ Es).
  by rewrite (Memento_getState_ok _ Hm).
Qed.

(** When the capture throws, [undo()] has already popped. *)
Lemma undo_capture_throws now c rest m e :
  undoStack c = rest ++ [m] ->
  json_roundtrip (owner_state c) = Throw e ->
  Caretaker_undo now c =
  (Throw e,
   {| originator := originator c; undoStack := rest;
      redoStack := redoStack c |}).
Proof.
  intros EU Es. unfold Caretaker_undo, bind at 1, get at 1.
  rewrite EU. rewrite length_app. simpl.
  destruct (decide _) as [?|_]; [lia|].
  rewrite last_snoc, removelast_last.
  unfold bind, set_undoStack, set_redoStack, modify, on_originator, zoom,
    Originator_createMemento, Originator_restore, get, lift, ret,
    Memento_new. simpl.
  fold (owner_state c). by rewrite Es.
Qed.

Lemma swap_swap c : swap (swap c) = c.
Proof. by destruct c. Qed.

Lemma redo_swap now c :
  Caretaker_redo now c =
  (fst (Caretaker_undo now (swap c)), swap (snd (Caretaker_undo now (swap c)))).
Proof.
  destruct c as [o U R].
  unfold Caretaker_redo, Caretaker_undo, swap, bind, get, ret. simpl.
  destruct (decide (length R = 0)); [done|].
  unfold set_undoStack, set_redoStack, modify, on_originator, zoom,
    Originator_createMemento, Originator_restore, bind, get, lift, ret, throw.
  simpl.
  destruct (Memento_new now (Originator_state o)) as [cur|e]; [|done].
  simpl. destruct (last R) as [m|]; [|done].
  by destruct (Memento_getState m).
Qed.

(** ** Snapshots hold JSON values in every caretaker a program can reach *)

Lemma undo_keeps_ok now c :
  caretaker_ok c -> caretaker_ok (snd (Caretaker_undo now c)).
Proof.
  intros [HU HR].
  destruct (undoStack c) as [|m rest _] eqn:EU using rev_ind.
  - rewrite undo_empty by done. simpl. unfold caretaker_ok. by rewrite EU.
  - apply Forall_app in HU as [HU Hm]. rewrite Forall_singleton in Hm.
    destruct (json_roundtrip (owner_state c)) as [s'|e] eqn:Es.
    + rewrite (undo_nonempty _ _ _ _ _ EU Hm Es). simpl.
      unfold caretaker_ok. simpl. rewrite !Forall_app, !Forall_singleton.
      repeat split; try done. by eapply json_roundtrip_value.
    + rewrite (undo_capture_throws _ _ _ _ _ EU Es). by split.
Qed.

Lemma swap_ok c : caretaker_ok c -> caretaker_ok (swap c).
Proof. intros [HU HR]. by split. Qed.

Lemma call_keeps_ok a now c :
  caretaker_ok c -> caretaker_ok (snd (call a now c)).
Proof.
  intros Hok. destruct a as [partial| | |]; cbn [call].
  - by destruct Hok.
  - destruct Hok as [HU HR].
    destruct (json_roundtrip (owner_state c)) as [s'|e] eqn:Es.
    + rewrite (save_returns _ _ _ Es). simpl.
      unfold caretaker_ok. simpl. rewrite !Forall_app, !Forall_singleton.
      repeat split; try done. by eapply json_roundtrip_value.
    + rewrite (save_throws _ _ _ Es). by split.
  - by apply undo_keeps_ok.
  - rewrite redo_swap. simpl.
    apply (swap_ok (snd (Caretaker_undo now (swap c)))).
    by apply undo_keeps_ok, swap_ok.
Qed.

(** ** Scripts *)

Lemma after_app s1 s2 c :
  completes s1 c -> after (s1 ++ s2) c = after s2 (after s1 c).
Proof.
  revert c. induction s1 as [|[a now] s1 IH]; intros c H; [done|].
  simpl in *. destruct (call a now c) as [[v|e] c']; [by apply IH|done].
Qed.

Lemma completes_app s1 s2 c :
  completes (s1 ++ s2) c <-> completes s1 c /\ completes s2 (after s1 c).
Proof.
  revert c. induction s1 as [|[a now] s1 IH]; intros c; simpl; [tauto|].
  destruct (call a now c) as [[v|e] c']; [apply IH|tauto].
Qed.

Lemma run_app s1 s2 c :
  completes s1 c -> run (s1 ++ s2) c = run s1 c ++ run s2 (after s1 c).
Proof.
  revert c. induction s1 as [|[a now] s1 IH]; intros c H; [done|].
  simpl in *. destruct (call a now c) as [[v|e] c']; [|done].
  simpl. by rewrite IH.
Qed.

Lemma save_completes now c :
  completes [(CallSave, now)] c ->
  exists s', json_roundtrip (owner_state c) = Normal s'.
Proof.
  simpl. destruct (json_roundtrip (owner_state c)) as [s'|e] eqn:E; [eauto|].
  by rewrite (save_throws _ _ _ E).
Qed.

(** ** n undos, n redos *)

Lemma undo_many saved :
  forall times base R o s',
    length times = length saved ->
    Forall memento_ok saved ->
    json_roundtrip (Originator_state o) = Normal s' ->
    let c := {| originator := o; undoStack := base ++ saved;
                redoStack := R |} in
    let script := map (pair CallUndo) times in
    completes script c /\
    map observe (run script c) = map returned_true (rev (states saved)) /\
    exists Z,
      after script c =
      {| originator :=
           {| Originator_state :=
                default (Originator_state o) (head (states saved)) |};
         undoStack := base;
         redoStack := R ++ Z |} /\
      states Z = rev (drop 1 (states saved ++ [s'])) /\
      Forall memento_ok Z.
Proof.
  induction saved as [|m saved IH] using rev_ind;
    intros times base R o s' Hlen Hok Es c script.
  - destruct times; [|done]. subst c script. simpl.
    split; [done|]. split; [done|]. exists []. rewrite !app_nil_r.
    by destruct o.
  - rewrite length_app in Hlen. simpl in Hlen.
    destruct times as [|t times]; [simpl in Hlen; lia|].
    apply Forall_app in Hok as [Hok Hm]. rewrite Forall_singleton in Hm.
    assert (Hstep : Caretaker_undo t c =
      (Normal (JBool true),
       {| originator := {| Originator_state := Memento_state m |};
          undoStack := base ++ saved;
          redoStack := R ++ [snapshot s' t] |})).
    { apply undo_nonempty; [|done|done]. subst c. simpl. by rewrite app_assoc. }
    destruct (IH times base (R ++ [snapshot s' t])
                {| Originator_state := Memento_state m |} (Memento_state m))
      as (Hc & Hobs & Z & Haft & HZ & HZok).
    { simpl in Hlen. lia. }
    { done. }
    { simpl. by apply json_value_roundtrip. }
    subst script. simpl. rewrite Hstep. simpl.
    split; [done|]. split.
    + unfold states. rewrite map_app, rev_app_distr. simpl.
      by rewrite Hobs.
    + exists (snapshot s' t :: Z). split; [|split].
      * rewrite Haft. f_equal; [|by rewrite <- app_assoc].
        f_equal. unfold states. rewrite map_app. simpl.
        by destruct saved.
      * simpl. rewrite HZ. unfold states. rewrite map_app. simpl.
        destruct saved as [|x l]; simpl; [done|].
        rewrite !drop_0. by rewrite (rev_app_distr _ [s']).
      * constructor; [|done]. unfold memento_ok. simpl.
        by eapply json_roundtrip_value.
Qed.

Lemma redo_script_swap times :
  forall c,
    (completes (map (pair CallRedo) times) c <->
     completes (map (pair CallUndo) times) (swap c)) /\
    map observe (run (map (pair CallRedo) times) c) =
    map observe (run (map (pair CallUndo) times) (swap c)) /\
    after (map (pair CallRedo) times) c =
    swap (after (map (pair CallUndo) times) (swap c)).
Proof.
  induction times as [|t times IH]; intros c; simpl.
  - by rewrite swap_swap.
  - rewrite redo_swap.
    destruct (Caretaker_undo t (swap c)) as [[v|e] c'] eqn:E; simpl.
    + destruct (IH (swap c')) as (IH1 & IH2 & IH3).
      rewrite swap_swap in IH1, IH2, IH3.
      split; [done|]. split; [|done].
      by rewrite IH2.
    + done.
Qed.

Lemma redo_many saved :
  forall times base U o s',
    length times = length saved ->
    Forall memento_ok saved ->
    json_roundtrip (Originator_state o) = Normal s' ->
    let c := {| originator := o; undoStack := U;
                redoStack := base ++ saved |} in
    let script := map (pair CallRedo) times in
    completes script c /\
    map observe (run script c) = map returned_true (rev (states saved)) /\
    exists Y,
      after script c =
      {| originator :=
           {| Originator_state :=
                default (Originator_state o) (head (states saved)) |};
         undoStack := U ++ Y;
         redoStack := base |} /\
      states Y = rev (drop 1 (states saved ++ [s'])) /\
      Forall memento_ok Y.
Proof.
  intros times base U o s' Hlen Hok Es c script.
  destruct (undo_many saved times base U o s' Hlen Hok Es)
    as (Hc & Hobs & Z & Haft & HZ & HZok).
  destruct (redo_script_swap times c) as (H1 & H2 & H3).
  subst script c.
  change (swap {| originator := o; undoStack := U; redoStack := base ++ saved |})
    with {| originator := o; undoStack := base ++ saved; redoStack := U |}
    in H1, H2, H3.
  split; [by apply H1|]. split; [by rewrite H2|].
  exists Z. split; [|done].
  rewrite H3. by rewrite Haft.
Qed.

(** ** Saving

    A script of mutations and saves pushes one snapshot per [save()], the
    deep copy of the owner's state at that call. *)
Lemma setState_call partial now c :
  exists o', call (CallSetState partial) now c =
    (Normal JUndefined,
     {| originator := o'; undoStack := undoStack c;
        redoStack := redoStack c |}).
Proof. by eexists. Qed.

Lemma saving_script script :
  forall c0,
    Forall saving script ->
    completes script c0 ->
    caretaker_ok c0 ->
    exists new,
      undoStack (after script c0) = undoStack c0 ++ new /\
      Forall2 (fun snap s => json_roundtrip s = Normal snap)
              (states new) (saved_states script c0) /\
      length new = saves script /\
      Forall memento_ok new /\
      Forall memento_ok (redoStack (after script c0)).
Proof.
  induction script as [|[a now] script IH]; intros c0 Hs Hc [HU HR].
  - exists []. simpl. rewrite app_nil_r. repeat split; try done.
  - apply Forall_cons in Hs as [Ha Hs].
    destruct a as [partial| | |]; try done.
    + destruct (setState_call partial now c0) as [o' E].
      cbn [completes after saved_states] in Hc |- *. rewrite E in Hc |- *.
      destruct (IH _ Hs Hc) as (new & H1 & H2 & H3 & H4 & H5); [done|].
      exists new. by repeat split.
    + destruct (save_completes now c0) as [s' Es].
      { by apply (completes_app [(CallSave, now)] script c0). }
      cbn [completes after saved_states call] in Hc |- *.
      rewrite (save_returns _ _ _ Es) in Hc |- *.
      assert (Hs' : memento_ok (snapshot s' now))
        by (by eapply json_roundtrip_value).
      destruct (IH _ Hs Hc) as (new & H1 & H2 & H3 & H4 & H5).
      { split; simpl; [|constructor].
        apply Forall_app. split; [done|]. by constructor. }
      exists (snapshot s' now :: new). simpl in *.
      rewrite H1, <- app_assoc. unfold saves in *. simpl.
      repeat split; try done.
      * by constructor.
      * by rewrite H3.
      * by constructor.
Qed.

Lemma head_rev_drop_snoc {A} (l : list A) (x : A) :
  l <> [] -> head (rev (drop 1 (l ++ [x]))) = Some x.
Proof.
  destruct l as [|y l]; [done|]. intros _. simpl. rewrite drop_0.
  by rewrite rev_unit.
Qed.

Lemma rev_drop_rev_drop {A} (y : A) (l : list A) (x : A) :
  rev (drop 1 (rev (drop 1 ((y :: l) ++ [x])) ++ [y])) = y :: l.
Proof.
  simpl. rewrite drop_0, rev_unit. simpl. rewrite drop_0, rev_unit.
  by rewrite rev_involutive.
Qed.

(** ** The claims about the caretaker *)

(** C1 (as amended).  After any script of originator mutations and n
    [save()] calls that all returned, when the owner's state can be
    serialised, n [undo()] calls followed by n [redo()] calls all return
    [true]; the k-th undo puts the owner in the state of the k-th snapshot
    from the top of the stack (last saved, first restored), each snapshot
    being the JSON deep copy of the owner's state at its [save()]; the
    redos walk back up in the opposite order; and at the end the owner
    holds the JSON deep copy of the state it held just before the first
    undo, which is that very state when it is made of JSON values only.
    The undo stack holds the same states as before and the redo stack is
    as before. *)
Theorem undo_redo_inverse :
  forall (c0 : Caretaker) (script : list (Call * Date))
         (utimes rtimes : list Date) (s' : JSValue),
    caretaker_ok c0 ->
    Forall saving script ->
    completes script c0 ->
    length utimes = saves script ->
    length rtimes = saves script ->
    json_roundtrip (owner_state (after script c0)) = Normal s' ->
    exists snaps : list JSValue,
      Forall2 (fun snap s => json_roundtrip s = Normal snap)
              snaps (saved_states script c0) /\
      length snaps = saves script /\
      completes (map (pair CallUndo) utimes ++ map (pair CallRedo) rtimes)
                (after script c0) /\
      map observe
          (run (map (pair CallUndo) utimes ++ map (pair CallRedo) rtimes)
               (after script c0)) =
      map returned_true (rev snaps ++ drop 1 (snaps ++ [s'])) /\
      (0 < saves script ->
       owner_state
         (after (map (pair CallUndo) utimes ++ map (pair CallRedo) rtimes)
                (after script c0)) = s') /\
      (json_value (owner_state (after script c0)) ->
       s' = owner_state (after script c0)) /\
      states
        (undoStack
           (after (map (pair CallUndo) utimes ++ map (pair CallRedo) rtimes)
                  (after script c0))) =
      states (undoStack (after script c0)) /\
      redoStack
        (after (map (pair CallUndo) utimes ++ map (pair CallRedo) rtimes)
               (after script c0)) =
      redoStack (after script c0).
Proof.
  intros c0 script utimes rtimes s' Hok Hsaving Hc Hu Hr Es.
  destruct (saving_script script c0 Hsaving Hc Hok)
    as (new & HU & Hsnaps & Hn & Hnew & HR).
  set (c := after script c0) in *.
  assert (Ec : c = {| originator := originator c;
                      undoStack := undoStack c0 ++ new;
                      redoStack := redoStack c |}).
  { rewrite <- HU. by rewrite caretaker_eta. }
  destruct (undo_many new utimes (undoStack c0) (redoStack c)
              (originator c) s') as (Hcu & Hobsu & Z & Haftu & HZ & HZok);
    [lia|done|done|].
  rewrite <- Ec in Hcu, Hobsu, Haftu.
  set (mid := default (Originator_state (originator c)) (head (states new)))
    in *.
  assert (Emid : exists mid', json_roundtrip mid = Normal mid' /\
                              (new <> [] -> mid' = mid) /\
                              (new = [] -> mid' = s')).
  { subst mid. destruct new as [|m new']; simpl.
    - exists s'. by repeat split.
    - exists (Memento_state m). repeat split; [|done].
      apply json_value_roundtrip. by inversion Hnew. }
  destruct Emid as (mid' & Emid & Hmid1 & Hmid2).
  assert (HlenZ : length Z = length new).
  { rewrite <- (length_map Memento_state Z). fold (states Z). rewrite HZ.
    rewrite length_rev, length_drop, length_app. unfold states.
    rewrite length_map. simpl. lia. }
  destruct (redo_many Z rtimes (redoStack c) (undoStack c0)
              {| Originator_state := mid |} mid')
    as (Hcr & Hobsr & Y & Haftr & HY & HYok); [lia|done|done|].
  rewrite <- Haftu in Hcr, Hobsr, Haftr.
  exists (states new). split; [done|]. split.
  { unfold states. rewrite length_map. lia. }
  split. { apply completes_app. by split. }
  split.
  { rewrite run_app by done. rewrite map_app, Hobsu, Hobsr, HZ.
    by rewrite rev_involutive, map_app. }
  rewrite after_app by done. rewrite Haftr. simpl.
  split; [|split; [|split]].
  - intros Hpos. unfold owner_state. simpl. rewrite HZ.
    rewrite head_rev_drop_snoc; [done|].
    destruct new; [simpl in Hn; lia|done].
  - intros Hv. apply json_value_roundtrip in Hv.
    rewrite Hv in Es. by injection Es.
  - unfold states at 1. rewrite map_app. fold (states Y). rewrite HY, HZ.
    rewrite HU. unfold states at 2. rewrite map_app. f_equal.
    fold (states new). destruct new as [|m new'].
    + done.
    + rewrite Hmid1 by done. subst mid. simpl head. simpl default.
      unfold states. simpl map.
      apply (rev_drop_rev_drop (Memento_state m) (map Memento_state new') s').
  - done.
Qed.

(** C2 (as amended).  A [save()] call that returns leaves the redo stack
    empty: after any script followed by such a [save()], as in
    [save(); save(); undo(); save()], the redo stack is empty and [redo()]
    returns the boolean [false], the caretaker's answer when it has no
    snapshot to restore, leaving everything as it is.  A [save()] on a
    state that cannot be serialised throws before it touches the stacks,
    and the redo stack stays as it was. *)
Theorem save_clears_redo :
  forall (c0 : Caretaker) (script : list (Call * Date)) (now later : Date),
    completes script c0 ->
    match json_roundtrip (owner_state (after script c0)) with
    | Normal _ =>
        completes (script ++ [(CallSave, now)]) c0 /\
        redoStack (after (script ++ [(CallSave, now)]) c0) = [] /\
        Caretaker_redo later (after (script ++ [(CallSave, now)]) c0) =
        (Normal (JBool false), after (script ++ [(CallSave, now)]) c0)
    | Throw e =>
        Caretaker_save now (after script c0) = (Throw e, after script c0)
    end.
Proof.
  intros c0 script now later Hc.
  destruct (json_roundtrip (owner_state (after script c0))) as [s'|e] eqn:Es.
  - assert (Hsave : completes [(CallSave, now)] (after script c0)).
    { cbn [completes call]. by rewrite (save_returns _ _ _ Es). }
    split; [by apply completes_app|].
    rewrite after_app by done.
    assert (E : redoStack (after [(CallSave, now)] (after script c0)) = []).
    { cbn [after call]. by rewrite (save_returns _ _ _ Es). }
    split; [done|]. by apply redo_empty.
  - by apply save_throws.
Qed.

(** C6 (as amended).  With an empty undo stack [undo()] returns the
    boolean [false], the caretaker's answer when there is no snapshot,
    without throwing and without changing either stack or the owner's
    state; a second call does the same.  Likewise [redo()] with an empty
    redo stack. *)
Theorem empty_undo_redo_noop :
  forall (c : Caretaker) (now later : Date),
    (undoStack c = [] ->
     Caretaker_undo now c = (Normal (JBool false), c) /\
     run [(CallUndo, now); (CallUndo, later)] c =
     [(Normal (JBool false), c); (Normal (JBool false), c)]) /\
    (redoStack c = [] ->
     Caretaker_redo now c = (Normal (JBool false), c) /\
     run [(CallRedo, now); (CallRedo, later)] c =
     [(Normal (JBool false), c); (Normal (JBool false), c)]).
Proof.
  intros c now later. split; intros E.
  - split; [by apply undo_empty|]. cbn [run call].
    by rewrite !undo_empty.
  - split; [by apply redo_empty|]. cbn [run call].
    by rewrite !redo_empty.
Qed.

(** C8 (as amended).  With a non-empty undo stack, when the owner's state
    can be serialised, [undo()] pops the top snapshot, pushes a freshly
    made snapshot of the owner's current state (its JSON deep copy,
    stamped with the current time) on the redo stack, restores the owner
    from the popped snapshot itself, and returns [true]. *)
Theorem undo_pops_pushes_restores :
  forall (c : Caretaker) (now : Date) (s' : JSValue),
    undoStack c <> [] ->
    caretaker_ok c ->
    json_roundtrip (owner_state c) = Normal s' ->
    exists (m : Memento) (rest : list Memento),
      undoStack c = rest ++ [m] /\
      Caretaker_undo now c =
      (Normal (JBool true),
       {| originator := {| Originator_state := Memento_state m |};
          undoStack := rest;
          redoStack := redoStack c ++ [snapshot s' now] |}).
Proof.
  intros c now s' Hne [HU _] Es.
  destruct (undoStack c) as [|x l] eqn:EU using rev_ind; [done|].
  clear IHl. exists x, l. split; [done|].
  apply undo_nonempty; [done| |done].
  apply Forall_app in HU as [_ Hx]. by rewrite Forall_singleton in Hx.
Qed.

End Caretaker.

(** ** Witnesses and counterexamples

    The states here hold no function, so that no [toJSON] is called. *)

Lemma undo_redo_inverse_witness :
  caretaker_ok demo_caretaker /\
  completes demo_script demo_caretaker /\
  saves demo_script = 2 /\
  owner_state (after demo_script demo_caretaker) =
    JObj [("a", num 10); ("b", num 20)] /\
  owner_state
    (after (map (pair CallUndo) ["t5"; "t6"] ++
            map (pair CallRedo) ["t7"; "t8"])
           (after demo_script demo_caretaker)) =
    JObj [("a", num 10); ("b", num 20)].
Proof.
  assert (Hok : caretaker_ok demo_caretaker) by (split; constructor).
  assert (Hc : completes demo_script demo_caretaker) by exact I.
  split; [exact Hok|]. split; [exact Hc|].
  split; [reflexivity|]. split; [reflexivity|].
  destruct (undo_redo_inverse demo_caretaker demo_script
              ["t5"; "t6"] ["t7"; "t8"] (JObj [("a", num 10); ("b", num 20)]))
    as (snaps & _ & _ & _ & _ & H & _).
  - exact Hok.
  - unfold demo_script. repeat constructor.
  - exact Hc.
  - reflexivity.
  - reflexivity.
  - reflexivity.
  - apply H. unfold saves. simpl. lia.
Defined.

(** C1 as stated fails: an owner holding [{ a: NaN }] comes back from
    [save(); undo(); redo()] holding [{ a: null }]. *)
Lemma undo_redo_not_exact :
  completes [(CallSave, "t1"); (CallUndo, "t2"); (CallRedo, "t3")]
            nan_caretaker /\
  owner_state (after [(CallSave, "t1")] nan_caretaker) =
    JObj [("a", JNum NaN)] /\
  owner_state (after [(CallSave, "t1"); (CallUndo, "t2"); (CallRedo, "t3")]
                     nan_caretaker) =
    JObj [("a", JNull)] /\
  owner_state (after [(CallSave, "t1"); (CallUndo, "t2"); (CallRedo, "t3")]
                     nan_caretaker) <>
  owner_state (after [(CallSave, "t1")] nan_caretaker).
Proof. repeat split. discriminate. Qed.

Lemma save_clears_redo_witness :
  completes branch_script demo_caretaker /\
  length (redoStack (after branch_script demo_caretaker)) = 1 /\
  completes (branch_script ++ [(CallSave, "t4")]) demo_caretaker /\
  redoStack (after (branch_script ++ [(CallSave, "t4")]) demo_caretaker)
    = [] /\
  Caretaker_redo "t5"
    (after (branch_script ++ [(CallSave, "t4")]) demo_caretaker) =
  (Normal (JBool false),
   after (branch_script ++ [(CallSave, "t4")]) demo_caretaker).
Proof.
  split; [exact I|]. split; [reflexivity|].
  exact (save_clears_redo demo_caretaker branch_script "t4" "t5" I).
Defined.

(** C2 as stated fails: not every [save()] call clears the redo stack.
    After [save(); undo(); setState({ n: 1n })] the redo stack holds one
    snapshot, and [save()] throws a [TypeError] and leaves it there.
    And where the redo stack is empty, [redo()] answers with the boolean
    [false], which is neither [null] nor [undefined]. *)
Lemma save_failing_keeps_redo :
  length (redoStack unsaved_caretaker) = 1 /\
  fst (Caretaker_save "t4" unsaved_caretaker) = Throw TypeError /\
  redoStack (snd (Caretaker_save "t4" unsaved_caretaker)) =
    redoStack unsaved_caretaker /\
  redoStack (snd (Caretaker_save "t4" unsaved_caretaker)) <> [] /\
  fst (Caretaker_redo "t5"
         (after (branch_script ++ [(CallSave, "t4")]) demo_caretaker)) =
    Normal (JBool false) /\
  JBool false <> JNull /\
  JBool false <> JUndefined.
Proof. repeat split; discriminate. Qed.

(** The witness is a caretaker whose owner's state cannot even be
    serialised: the empty-stack calls return before any capture. *)
Lemma empty_undo_redo_noop_witness :
  json_roundtrip (owner_state bigint_caretaker) = Throw TypeError /\
  Caretaker_undo "t1" bigint_caretaker =
    (Normal (JBool false), bigint_caretaker) /\
  Caretaker_redo "t1" bigint_caretaker =
    (Normal (JBool false), bigint_caretaker).
Proof.
  split; [reflexivity|].
  destruct (empty_undo_redo_noop bigint_caretaker "t1" "t2") as [Hu Hr].
  split.
  - apply Hu. reflexivity.
  - apply Hr. reflexivity.
Defined.

(** C6 as stated fails: with empty stacks [undo()] and [redo()] do not
    report [None]; they answer with the boolean [false], which is
    neither [null] nor [undefined]. *)
Lemma empty_undo_returns_false :
  undoStack demo_caretaker = [] /\
  redoStack demo_caretaker = [] /\
  fst (Caretaker_undo "t1" demo_caretaker) = Normal (JBool false) /\
  fst (Caretaker_redo "t1" demo_caretaker) = Normal (JBool false) /\
  fst (Caretaker_undo "t1" demo_caretaker) <> Normal JNull /\
  fst (Caretaker_undo "t1" demo_caretaker) <> Normal JUndefined /\
  fst (Caretaker_redo "t1" demo_caretaker) <> Normal JNull /\
  fst (Caretaker_redo "t1" demo_caretaker) <> Normal JUndefined.
Proof. repeat split; discriminate. Qed.

Lemma undo_pops_pushes_restores_witness :
  undoStack (after demo_script demo_caretaker) <> [] /\
  exists (m : Memento) (rest : list Memento),
    undoStack (after demo_script demo_caretaker) = rest ++ [m] /\
    Caretaker_undo "t5" (after demo_script demo_caretaker) =
    (Normal (JBool true),
     {| originator := {| Originator_state := Memento_state m |};
        undoStack := rest;
        redoStack :=
          redoStack (after demo_script demo_caretaker) ++
          [snapshot (JObj [("a", num 10); ("b", num 20)]) "t5"] |}).
Proof.
  assert (Hne : undoStack (after demo_script demo_caretaker) <> [])
    by discriminate.
  split; [exact Hne|].
  apply (undo_pops_pushes_restores (after demo_script demo_caretaker) "t5").
  - exact Hne.
  - split; repeat constructor.
  - reflexivity.
Defined.

(** C8 as stated fails: on the demonstration's caretaker [undo()] returns
    the boolean [true], not the snapshot it popped. *)
Lemma undo_returns_no_snapshot :
  ~ (exists (m : Memento) (rest : list Memento),
       undoStack (after demo_script demo_caretaker) = rest ++ [m] /\
       undoStack (snd (Caretaker_undo "t5" (after demo_script demo_caretaker)))
         = rest /\
       fst (Caretaker_undo "t5" (after demo_script demo_caretaker)) =
         Normal (Memento_object m)).
Proof. intros (m & rest & _ & _ & H). vm_compute in H. discriminate. Qed.

End MementoFacts.

(* ===================================================================== *)
(** * Facts about the order and the context                               *)
(* ===================================================================== *)

Module StateFacts.
Import JS StatePattern.
Local Open Scope list_scope.
Local Open Scope js_scope.

(** Unfolding the monad and the store operations, not the strings. *)
Ltac unfold_monad :=
  cbv [bind ret gets get modify throw lift void log set_this set_arrays
       array_push array_read array_copy array_length array_mutate order_id
       resolve default from_option Datatypes.id
       this arrays console random now fst snd
       id items state paymentStatus shippingStatus deliveryStatus
       stateHistory createdAt
       set_state set_paymentStatus set_shippingStatus set_deliveryStatus].

Ltac unfold_order :=
  cbv [operation order_call
       Order_process Order_cancel Order_return Order_setState
       Order_checkAvailability Order_checkPayment Order_prepareForShipping
       Order_checkDelivery Order_refundPayment Order_getCurrentState
       Order_getStateDescription Order_getStateHistory Order_getInfo
       own_process own_cancel own_return
       CreatedState_process CreatedState_cancel CreatedState_return
       ConfirmedState_process ConfirmedState_cancel ConfirmedState_return
       PaidState_process PaidState_cancel PaidState_return
       ShippedState_process ShippedState_cancel ShippedState_return
       DeliveredState_process DeliveredState_cancel DeliveredState_return
       ReturnedState_process ReturnedState_cancel ReturnedState_return
       CancelledState_process CancelledState_cancel CancelledState_return];
  unfold_monad.

Lemma Order_setState_run s e (w : World Order) a :
  arrays w !! stateHistory (this w) = Some a ->
  Order_setState s e w =
  (Normal JUndefined,
   {| this := set_state s (this w);
      arrays := <[stateHistory (this w) :=
                    a ++ [{| from := OrderState_getName (state (this w));
                             to := OrderState_getName s;
                             timestamp := now e |}]]> (arrays w);
      console := console w ++
        ["[Order] Состояние заказа " +:+ id (this w) +:+ " изменено: " +:+
         OrderState_getName (state (this w)) +:+ " → " +:+
         OrderState_getName s] |}).
Proof.
  destruct w as [[i it st ps ss ds h ca] m out], e as [r t].
  simpl. intros H. unfold_order. rewrite H. reflexivity.
Qed.

(** ** Console lines that are not the refund line *)

Lemma tagged_not_refund s text i :
  tagged (OrderState_getName s) text <> refund_line i.
Proof.
  intros H. apply (f_equal (String.get 1)) in H.
  destruct s; vm_compute in H; discriminate.
Qed.

Lemma setState_line_not_refund i' old new i :
  "[Order] Состояние заказа " +:+ i' +:+ " изменено: " +:+ old +:+ " → " +:+ new
  <> refund_line i.
Proof.
  intros H. apply (f_equal (String.get 10)) in H.
  vm_compute in H. discriminate.
Qed.

Lemma filter_refund_cons_ne i line lines :
  line <> refund_line i ->
  filter (fun line => line = refund_line i) (line :: lines) =
  filter (fun line => line = refund_line i) lines.
Proof. intros H. by rewrite filter_cons_False. Qed.

Lemma filter_refund_cons_eq i lines :
  filter (fun line => line = refund_line i) (refund_line i :: lines) =
  refund_line i :: filter (fun line => line = refund_line i) lines.
Proof. by rewrite filter_cons_True. Qed.

Ltac open_world w e H :=
  let a := fresh "a" in
  let Ha := fresh "Ha" in
  destruct w as [[i it st ps ss ds h ca] m out], e as [r t];
  destruct H as [a Ha]; simpl in Ha.

Ltac count_refunds :=
  unfold refunds; cbn [this id console];
  rewrite ?filter_app, ?length_app;
  repeat first
    [ rewrite filter_refund_cons_eq
    | rewrite filter_refund_cons_ne
        by first [apply tagged_not_refund | apply setState_line_not_refund] ];
  rewrite ?filter_nil; simpl; try lia.

(** A new array is none of the arrays in the store. *)
Lemma fresh_not_allocated (m : gmap loc (list TransitionRecord)) :
  m !! fresh (dom m) = None.
Proof. apply not_elem_of_dom. apply is_fresh. Qed.

Lemma fresh_ne (m : gmap loc (list TransitionRecord)) h a :
  m !! h = Some a -> fresh (dom m) <> h.
Proof.
  intros H E. pose proof (fresh_not_allocated m) as F.
  rewrite E in F. congruence.
Qed.

Lemma lookup_after_copy (m : gmap loc (list TransitionRecord)) h a b :
  m !! h = Some a -> <[fresh (dom m) := b]> m !! h = Some a.
Proof.
  intros H. rewrite lookup_insert_ne; [done|]. by eapply fresh_ne.
Qed.

(** ** One call of any method of [Order] *)

Ltac split_checks r :=
  repeat match goal with
         | |- context [gt r ?c] => destruct (gt r c)
         end.

Lemma order_call_history a e w :
  Order_ok w ->
  exists w',
    order_call a e w = (Normal tt, w') /\
    Order_ok w' /\
    history w' =
    history w ++
    (if accepted a w w' then
       [{| from := OrderState_getName (state (this w));
           to := OrderState_getName (state (this w'));
           timestamp := now e |}]
     else []).
Proof.
  intros H. open_world w e H.
  destruct a; destruct st; unfold_order; split_checks r;
    rewrite ?Ha; cbv beta iota;
    (eexists; split; [reflexivity|]);
    unfold Order_ok, history, accepted;
    cbn [this arrays stateHistory state];
    rewrite ?lookup_insert_eq, ?(lookup_after_copy _ _ _ _ Ha), ?Ha;
    (split; [by eexists|]);
    simpl; by rewrite ?app_nil_r.
Qed.

(** ** The claims about the order *)



(** C5 (as amended).  [return()] takes the order to [ReturnedState] only
    from [DeliveredState], recording the transition; the transition itself
    does not refund: the payment status is as before and no refund line
    is printed.  The refund is made by a later [process()] in
    [ReturnedState].  From every other state [return()] prints one line
    and changes nothing else.  It never throws. *)
Theorem return_by_state :
  forall (e : Env) (w : World Order),
    Order_ok w ->
    fst (Order_return e w) = Normal JUndefined /\
    match state (this w) with
    | DeliveredState =>
        state (this (snd (Order_return e w))) = ReturnedState /\
        history (snd (Order_return e w)) =
          history w ++ [{| from := "DeliveredState";
                           to := "ReturnedState";
                           timestamp := now e |}] /\
        paymentStatus (this (snd (Order_return e w))) = paymentStatus (this w) /\
        refunds (snd (Order_return e w)) = refunds w /\
        forall e' : Env,
          fst (Order_process e' (snd (Order_return e w))) = Normal JUndefined /\
          paymentStatus (this (snd (Order_process e' (snd (Order_return e w)))))
            = "refunded" /\
          refunds (snd (Order_process e' (snd (Order_return e w)))) =
            S (refunds w)
    | _ =>
        this (snd (Order_return e w)) = this w /\
        arrays (snd (Order_return e w)) = arrays w /\
        exists line, console (snd (Order_return e w)) = console w ++ [line]
    end.
Proof.
  intros e w H. open_world w e H.
  destruct st; unfold_order; rewrite ?Ha; cbv beta iota;
    (split; [reflexivity|]); cbn [state this paymentStatus arrays console];
    try (split; [reflexivity|split; [reflexivity|by eexists]]).
  split; [reflexivity|].
  split; [unfold history; simpl; by rewrite lookup_insert_eq, Ha|].
  split; [reflexivity|].
  split; [count_refunds|].
  intros [r' t']. unfold_order.
  split; [reflexivity|]. split; [reflexivity|]. count_refunds.
Qed.

Lemma return_by_state_witness :
  Order_ok delivered_order /\
  state (this delivered_order) = DeliveredState /\
  state (this (snd (Order_return (lucky "t5") delivered_order))) =
    ReturnedState /\
  paymentStatus (this (snd (Order_return (lucky "t5") delivered_order))) =
    paymentStatus (this delivered_order).
Proof.
  assert (Hok : Order_ok delivered_order)
    by (vm_compute; eexists; reflexivity).
  split; [exact Hok|]. split; [vm_compute; reflexivity|].
  pose proof (proj2 (return_by_state (lucky "t5") delivered_order Hok)) as H.
  vm_compute in H. destruct H as (H1 & _ & H3 & _).
  vm_compute. split; [exact H1|exact H3].
Defined.

(** C5 as stated fails: returning the delivered order of the
    demonstration leaves its payment status at [paid] and prints no
    refund line. *)
Lemma return_does_not_refund :
  state (this delivered_order) = DeliveredState /\
  state (this (snd (Order_return (lucky "t5") delivered_order))) =
    ReturnedState /\
  paymentStatus (this (snd (Order_return (lucky "t5") delivered_order))) =
    "paid" /\
  paymentStatus (this (snd (Order_return (lucky "t5") delivered_order))) <>
    "refunded" /\
  refunds (snd (Order_return (lucky "t5") delivered_order)) = 0.
Proof. vm_compute. repeat split. discriminate. Qed.

(** C3.  No call of a method of [Order] throws, and along any sequence
    of such calls the history only grows, by exactly one record
    [{from, to, timestamp}] for each call that is [setState] itself or
    leaves the order in another state than it found it in; every other
    call leaves the history as it is.  So the state never changes without
    its record, records are never removed or rewritten, and the length of
    the history is the number of transitions made. *)
Theorem history_append_only :
  forall (script : list (OrderCall * Env)) (w : World Order),
    Order_ok w ->
    order_completes script w /\
    Order_ok (order_after script w) /\
    history (order_after script w) =
      history w ++ accepted_transitions script w /\
    length (history (order_after script w)) =
      length (history w) + length (accepted_transitions script w).
Proof.
  induction script as [|[a e] script IH]; intros w Hok.
  - simpl. rewrite app_nil_r. repeat split; [done|lia].
  - destruct (order_call_history a e w Hok) as (w' & E & Hok' & Hh).
    cbn [order_completes order_after accepted_transitions]. rewrite E.
    destruct (IH w' Hok') as (Hc & Hok'' & Hh' & _).
    split; [done|]. split; [done|].
    assert (Hall : history (order_after script w') =
                   history w ++
                   (if accepted a w w'
                    then [{| from := OrderState_getName (state (this w));
                             to := OrderState_getName (state (this w'));
                             timestamp := now e |}]
                    else []) ++ accepted_transitions script w').
    { rewrite Hh', Hh. by rewrite <- app_assoc. }
    split; [done|]. rewrite Hall. by rewrite length_app.
Qed.

Lemma history_append_only_witness :
  Order_ok demo_order /\
  history demo_order = [] /\
  length (accepted_transitions (demo_calls lucky) demo_order) = 5 /\
  length (history (order_after (demo_calls lucky) demo_order)) = 5.
Proof.
  assert (Hok : Order_ok demo_order) by (vm_compute; eexists; reflexivity).
  split; [exact Hok|]. split; [vm_compute; reflexivity|].
  split; [vm_compute; reflexivity|].
  destruct (history_append_only (demo_calls lucky) demo_order Hok)
    as (_ & _ & _ & H).
  rewrite H. vm_compute. reflexivity.
Defined.

(** C7 (as amended).  [process()], [cancel()] and [return()] never throw,
    whatever the state: each returns [undefined] (there is no result flag)
    and prints at least one line; an operation the current state
    rejects prints exactly one line and changes neither the order nor any
    array.  In particular [cancel()] in [DeliveredState] returns
    [undefined] and leaves the state as it is. *)
Theorem operations_never_throw :
  forall (op : Operation) (e : Env) (w : World Order),
    Order_ok w ->
    fst (operation op e w) = Normal JUndefined /\
    (exists line lines,
        console (snd (operation op e w)) = console w ++ line :: lines) /\
    (rejects (state (this w)) op = true ->
     this (snd (operation op e w)) = this w /\
     arrays (snd (operation op e w)) = arrays w /\
     exists line, console (snd (operation op e w)) = console w ++ [line]).
Proof.
  intros op e w H. open_world w e H.
  destruct op; destruct st; unfold_order; split_checks r;
    rewrite ?Ha; cbv beta iota;
    (split; [reflexivity|]);
    cbn [this arrays console state rejects];
    (split; [rewrite <- ?app_assoc; simpl; by eexists _, _|]);
    intros Hr; try discriminate Hr;
    (split; [reflexivity|split; [reflexivity|by eexists]]).
Qed.

Lemma operations_never_throw_witness :
  Order_ok delivered_order /\
  state (this delivered_order) = DeliveredState /\
  fst (Order_cancel (lucky "t5") delivered_order) = Normal JUndefined /\
  this (snd (Order_cancel (lucky "t5") delivered_order)) =
    this delivered_order.
Proof.
  assert (Hok : Order_ok delivered_order)
    by (vm_compute; eexists; reflexivity).
  split; [exact Hok|]. split; [vm_compute; reflexivity|].
  destruct (operations_never_throw OpCancel (lucky "t5") delivered_order Hok)
    as (H1 & _ & H3).
  split; [exact H1|]. apply H3. vm_compute. reflexivity.
Defined.

(** C7 as stated fails: [cancel()] on the delivered order of the
    demonstration does not return [{ accepted: false }]. *)
Lemma cancel_returns_no_flag :
  state (this delivered_order) = DeliveredState /\
  fst (Order_cancel (lucky "t5") delivered_order) <>
    Normal (JObj [("accepted", JBool false)]).
Proof. vm_compute. split; [reflexivity|discriminate]. Qed.

(** Every [process()] in [ReturnedState] refunds. *)
Lemma Returned_process_refunds e w :
  Order_ok w ->
  state (this w) = ReturnedState ->
  fst (Order_process e w) = Normal JUndefined /\
  state (this (snd (Order_process e w))) = ReturnedState /\
  Order_ok (snd (Order_process e w)) /\
  paymentStatus (this (snd (Order_process e w))) = "refunded" /\
  refunds (snd (Order_process e w)) = S (refunds w).
Proof.
  intros H Hst. open_world w e H. simpl in Hst. subst st.
  unfold_order. repeat split; [by eexists|count_refunds].
Qed.

(** C9, what the code does: on the returned order of the demonstration
    the first [process()] refunds and the second [process()] refunds
    again; the console shows [refundPayment()] at work twice. *)
Theorem returned_process_refunds_twice :
  state (this returned_order) = ReturnedState /\
  refunds returned_order = 0 /\
  refunds (order_after [(CallProcess, lucky "t6")] returned_order) = 1 /\
  refunds (order_after [(CallProcess, lucky "t6"); (CallProcess, lucky "t7")]
                       returned_order) = 2 /\
  state (this (order_after [(CallProcess, lucky "t6");
                            (CallProcess, lucky "t7")] returned_order)) =
    ReturnedState.
Proof. vm_compute. repeat split. Qed.

(** ** The constructors establish the invariants *)

Lemma Order_new_ok i items date store out :
  Order_ok (Order_new i items date store out) /\
  history (Order_new i items date store out) = [] /\
  state (this (Order_new i items date store out)) = CreatedState.
Proof.
  unfold Order_ok, history, Order_new. simpl. rewrite lookup_insert_eq.
  by repeat split.
Qed.

Lemma Context_new_ok store out :
  Context_ok (Context_new store out) /\
  Context_history (Context_new store out) = [].
Proof.
  unfold Context_ok, Context_history, Context_new. simpl.
  rewrite lookup_insert_eq. by repeat split.
Qed.

Lemma Context_setState_run s e (w : World Context) :
  Context_ok w ->
  fst (Context_setState s e w) = Normal JUndefined /\
  Context_ok (snd (Context_setState s e w)) /\
  Context_state (this (snd (Context_setState s e w))) = Some s /\
  Context_history (snd (Context_setState s e w)) =
    Context_history w ++
    [{| from := match Context_state (this w) with
                | Some old => State_getName old
                | None => "None"
                end;
        to := State_getName s;
        timestamp := now e |}].
Proof.
  destruct w as [[st h] m out], e as [r t]. intros [a Ha]. simpl in Ha.
  unfold Context_ok, Context_history, Context_setState.
  unfold_monad. cbn [Context_state Context_stateHistory]. rewrite Ha.
  cbv beta iota. simpl. rewrite lookup_insert_eq. by repeat split.
Qed.

(** ** The copy [getStateHistory()] returns *)

Lemma array_copy_run {T} (w : World T) h a :
  arrays w !! h = Some a ->
  array_copy h w =
  (Normal (fresh (dom (arrays w))),
   {| this := this w;
      arrays := <[fresh (dom (arrays w)) := a]> (arrays w);
      console := console w |}).
Proof.
  destruct w as [o m out]. simpl. intros H.
  unfold array_copy, array_read, set_arrays, bind, get, ret, modify. simpl.
  by rewrite H.
Qed.

Lemma array_mutate_run {T} (w : World T) l a contents :
  arrays w !! l = Some a ->
  array_mutate l contents w =
  (Normal tt,
   {| this := this w; arrays := <[l := contents]> (arrays w);
      console := console w |}).
Proof.
  destruct w as [o m out]. simpl. intros H.
  unfold array_mutate, array_read, set_arrays, bind, get, ret, modify. simpl.
  by rewrite H.
Qed.

(** C10.  [getStateHistory()], of an order and of a context alike,
    returns a new array, none of those in the store, with the elements of
    the history; the call changes no field, no existing array and prints
    nothing; and whatever the caller then does to the array it got, the
    stored history stays as it was. *)
Theorem getStateHistory_copies :
  (forall w : World Order,
      Order_ok w ->
      exists l' : loc,
        Order_getStateHistory w =
          (Normal l',
           {| this := this w;
              arrays := <[l' := history w]> (arrays w);
              console := console w |}) /\
        arrays w !! l' = None /\
        l' <> stateHistory (this w) /\
        history (snd (Order_getStateHistory w)) = history w /\
        forall contents : list TransitionRecord,
          fst (array_mutate l' contents (snd (Order_getStateHistory w))) =
            Normal tt /\
          arrays (snd (array_mutate l' contents
                         (snd (Order_getStateHistory w)))) !! l' =
            Some contents /\
          this (snd (array_mutate l' contents
                       (snd (Order_getStateHistory w)))) = this w /\
          history (snd (array_mutate l' contents
                          (snd (Order_getStateHistory w)))) = history w) /\
  (forall w : World Context,
      Context_ok w ->
      exists l' : loc,
        Context_getStateHistory w =
          (Normal l',
           {| this := this w;
              arrays := <[l' := Context_history w]> (arrays w);
              console := console w |}) /\
        arrays w !! l' = None /\
        l' <> Context_stateHistory (this w) /\
        Context_history (snd (Context_getStateHistory w)) =
          Context_history w /\
        forall contents : list TransitionRecord,
          fst (array_mutate l' contents (snd (Context_getStateHistory w))) =
            Normal tt /\
          arrays (snd (array_mutate l' contents
                         (snd (Context_getStateHistory w)))) !! l' =
            Some contents /\
          this (snd (array_mutate l' contents
                       (snd (Context_getStateHistory w)))) = this w /\
          Context_history (snd (array_mutate l' contents
                                  (snd (Context_getStateHistory w)))) =
            Context_history w).
Proof.
  split; intros w [a Ha]; exists (fresh (dom (arrays w))).
  - assert (E : Order_getStateHistory w =
                array_copy (stateHistory (this w)) w) by reflexivity.
    rewrite E, (array_copy_run _ _ _ Ha). unfold history. rewrite Ha. simpl.
    pose proof (fresh_ne _ _ _ Ha) as Hne.
    split; [done|]. split; [apply fresh_not_allocated|]. split; [done|].
    split; [by rewrite lookup_insert_ne, Ha|].
    intros contents.
    erewrite array_mutate_run by (simpl; apply lookup_insert_eq). simpl.
    split; [done|]. split; [by rewrite lookup_insert_eq|]. split; [done|].
    by rewrite !lookup_insert_ne, Ha.
  - assert (E : Context_getStateHistory w =
                array_copy (Context_stateHistory (this w)) w) by reflexivity.
    rewrite E, (array_copy_run _ _ _ Ha). unfold Context_history.
    rewrite Ha. simpl.
    pose proof (fresh_ne _ _ _ Ha) as Hne.
    split; [done|]. split; [apply fresh_not_allocated|]. split; [done|].
    split; [by rewrite lookup_insert_ne, Ha|].
    intros contents.
    erewrite array_mutate_run by (simpl; apply lookup_insert_eq). simpl.
    split; [done|]. split; [by rewrite lookup_insert_eq|]. split; [done|].
    by rewrite !lookup_insert_ne, Ha.
Qed.

Lemma getStateHistory_copies_witness :
  Order_ok delivered_order /\
  Context_ok demo_context /\
  (exists l' : loc,
      fst (Order_getStateHistory delivered_order) = Normal l' /\
      l' <> stateHistory (this delivered_order) /\
      history (snd (array_mutate l' []
                      (snd (Order_getStateHistory delivered_order)))) =
        history delivered_order) /\
  (exists l' : loc,
      fst (Context_getStateHistory demo_context) = Normal l' /\
      l' <> Context_stateHistory (this demo_context) /\
      Context_history (snd (array_mutate l' []
                              (snd (Context_getStateHistory demo_context)))) =
        Context_history demo_context).
Proof.
  assert (HO : Order_ok delivered_order)
    by (vm_compute; eexists; reflexivity).
  assert (HC : Context_ok demo_context)
    by (vm_compute; eexists; reflexivity).
  split; [exact HO|]. split; [exact HC|].
  destruct getStateHistory_copies as [Horder Hcontext].
  destruct (Horder delivered_order HO) as (l & E & _ & Hne & _ & Hmut).
  destruct (Hcontext demo_context HC) as (l' & E' & _ & Hne' & _ & Hmut').
  split.
  - exists l. rewrite E. split; [reflexivity|]. split; [exact Hne|].
    rewrite <- E. apply Hmut.
  - exists l'. rewrite E'. split; [reflexivity|]. split; [exact Hne'|].
    rewrite <- E'. apply Hmut'.
Defined.

End StateFacts.

(* ===================================================================== *)
(** * More facts about the originator and the caretaker                   *)
(* ===================================================================== *)

Module MementoMoreFacts.
Import JS JSFacts MementoPattern MementoFacts MementoMore.
Local Open Scope list_scope.
Local Open Scope js_scope.

Section Caretaker.
Context {F : Functions}.

(** ** Object spread *)

Lemma get_set_property k k' v ps :
  get_property k (set_property k' v ps) =
  if decide (k' = k) then Some v else get_property k ps.
Proof.
  induction ps as [|[k0 v0] ps IH]; simpl.
  - by destruct (decide (k' = k)).
  - destruct (decide (k0 = k')) as [->|Hne]; simpl.
    + by destruct (decide (k' = k)).
    + destruct (decide (k0 = k)) as [->|Hne'].
      * destruct (decide (k' = k)); [congruence|done].
      * apply IH.
Qed.

Lemma keys_set_property k v ps :
  NoDup (keys ps) ->
  NoDup (keys (set_property k v ps)) /\
  (forall x, x ∈ keys (set_property k v ps) <-> x = k \/ x ∈ keys ps).
Proof.
  unfold keys. induction ps as [|[k0 v0] ps IH]; simpl; intros Hnd.
  - split; [apply NoDup_singleton|]. intros x. set_solver.
  - apply NoDup_cons in Hnd as [Hk0 Hnd].
    destruct (decide (k0 = k)) as [->|Hne]; simpl.
    + split; [by apply NoDup_cons|]. intros x. set_solver.
    + destruct (IH Hnd) as [IH1 IH2]. split.
      * apply NoDup_cons. split; [|done]. rewrite IH2. set_solver.
      * intros x. rewrite elem_of_cons, IH2, elem_of_cons. tauto.
Qed.

Lemma get_spread k src :
  forall target,
    get_property k (spread target src) =
    match last_assigned k src with
    | Some v => Some v
    | None => get_property k target
    end.
Proof.
  unfold spread, last_assigned.
  induction src as [|[k' v] src IH]; intros target; simpl; [done|].
  rewrite IH, get_set_property.
  assert (E : get_property k (rev src ++ [(k', v)]) =
              match get_property k (rev src) with
              | Some x => Some x
              | None => if decide (k' = k) then Some v else None
              end).
  { generalize (rev src). intros l.
    induction l as [|[k0 v0] l IHl]; simpl; [done|].
    by destruct (decide (k0 = k)). }
  rewrite E. destruct (get_property k (rev src)); [done|].
  by destruct (decide (k' = k)).
Qed.

Lemma keys_spread src :
  forall target,
    NoDup (keys target) -> NoDup (keys (spread target src)).
Proof.
  unfold spread. induction src as [|[k v] src IH]; intros target H; [done|].
  simpl. apply IH. by apply keys_set_property.
Qed.

Lemma get_property_elem k v ps :
  NoDup (keys ps) -> get_property k ps = Some v <-> In (k, v) ps.
Proof.
  unfold keys. induction ps as [|[k0 v0] ps IH]; simpl; intros Hnd.
  - split; [done|tauto].
  - apply NoDup_cons in Hnd as [Hk0 Hnd].
    destruct (decide (k0 = k)) as [->|Hne].
    + split; [intros [= ->]; by left|].
      intros [[= ->]|Hin]; [done|].
      exfalso. apply Hk0. apply list_elem_of_In.
      apply (in_map fst) in Hin. exact Hin.
    + rewrite (IH Hnd). split; [by right|].
      intros [[= ? ?]|Hin]; [congruence|done].
Qed.

Lemma last_assigned_NoDup k ps :
  NoDup (keys ps) -> last_assigned k ps = get_property k ps.
Proof.
  intros Hnd. unfold last_assigned.
  assert (Hrev : NoDup (keys (rev ps))).
  { unfold keys. rewrite map_rev. apply NoDup_ListNoDup, NoDup_rev.
    by apply NoDup_ListNoDup. }
  destruct (get_property k ps) as [v|] eqn:E.
  - apply (get_property_elem _ _ _ Hrev). apply in_rev. rewrite rev_involutive.
    by apply (get_property_elem _ _ _ Hnd).
  - destruct (get_property k (rev ps)) as [v|] eqn:E'; [|done].
    apply (get_property_elem _ _ _ Hrev) in E'. apply in_rev in E'.
    apply (get_property_elem _ _ _ Hnd) in E'. congruence.
Qed.

(** X1.  [setState(partial)] followed by [getState()]: the object read
    back has every name once; a name [partial] assigns has the value
    [partial] gives it (the last one, were it listed twice), and every
    other name keeps the value the state had. *)
Theorem setState_then_getState :
  forall (o : Originator) (partial : list (string * JSValue)) (k : string),
  exists ps : list (string * JSValue),
    fst (Originator_getState (snd (Originator_setState partial o))) =
      Normal (JObj ps) /\
    NoDup (keys ps) /\
    get_property k ps =
      match last_assigned k partial with
      | Some v => Some v
      | None => last_assigned k (own_properties (Originator_state o))
      end.
Proof.
  intros o partial k. eexists. split; [reflexivity|]. simpl. split.
  - apply keys_spread. constructor.
  - rewrite get_spread. simpl.
    rewrite last_assigned_NoDup by (apply keys_spread, keys_spread; constructor).
    rewrite !get_spread. simpl.
    destruct (last_assigned k partial); [done|].
    by destruct (last_assigned k (own_properties (Originator_state o))).
Qed.

(** ** Counting snapshots *)

Lemma stats_run c :
  Caretaker_stats c =
  (Normal (stats_object (length (undoStack c)) (length (redoStack c))), c).
Proof. reflexivity. Qed.

(** A successful [undo()] moves one snapshot across, or finds nothing. *)
Lemma undo_returned now c v c' :
  Caretaker_undo now c = (Normal v, c') ->
  (v = JBool false /\ c' = c) \/
  (v = JBool true /\
   length (undoStack c) = S (length (undoStack c')) /\
   length (redoStack c') = S (length (redoStack c))).
Proof.
  destruct c as [o U R].
  unfold Caretaker_undo, bind, get, ret. simpl.
  destruct (decide (length U = 0)) as [?|Hne]; [intros [= <- <-]; by left|].
  unfold set_undoStack, set_redoStack, modify, on_originator, zoom,
    Originator_createMemento, Originator_restore, bind, get, lift, ret, throw.
  simpl.
  destruct (Memento_new now (Originator_state o)) as [cur|e]; [|done].
  simpl. destruct (last U) as [m|]; [|done].
  destruct (Memento_getState m); [|done]. simpl.
  intros [= <- <-]. right. simpl. split; [done|].
  unfold push. rewrite length_app. simpl. split; [|lia].
  destruct U as [|x U _] using rev_ind; [done|].
  rewrite removelast_last, length_app. simpl. lia.
Qed.

Lemma redo_returned now c v c' :
  Caretaker_redo now c = (Normal v, c') ->
  (v = JBool false /\ c' = c) \/
  (v = JBool true /\
   length (redoStack c) = S (length (redoStack c')) /\
   length (undoStack c') = S (length (undoStack c))).
Proof.
  rewrite redo_swap. destruct (Caretaker_undo now (swap c)) as [r c1] eqn:E.
  simpl. intros [= -> <-].
  destruct (undo_returned _ _ _ _ E) as [[-> ->]|(-> & H1 & H2)].
  - left. by rewrite swap_swap.
  - right. destruct c, c1. simpl in *. by repeat split.
Qed.

(** X2.  Along any script of [undo()] and [redo()] calls that all return,
    the two depths [stats()] reports keep their sum: snapshots move
    between the stacks and none is lost or made. *)
Theorem stats_sum_kept :
  forall (script : list (Call * Date)) (c : Caretaker),
    Forall replaying script ->
    completes script c ->
    exists u r u' r' : nat,
      fst (Caretaker_stats c) = Normal (stats_object u r) /\
      fst (Caretaker_stats (after script c)) = Normal (stats_object u' r') /\
      u' + r' = u + r.
Proof.
  intros script c Hs Hc. rewrite !stats_run. simpl.
  exists (length (undoStack c)), (length (redoStack c)),
         (length (undoStack (after script c))),
         (length (redoStack (after script c))).
  split; [done|]. split; [done|].
  revert c Hc. induction Hs as [|[a now] script Ha _ IH]; intros c Hc; [done|].
  cbn [completes after] in Hc |- *.
  destruct (call a now c) as [[v|e] c'] eqn:E; [|done].
  rewrite (IH c' Hc).
  destruct a as [p| | |]; try done; cbn [call] in E.
  - destruct (undo_returned _ _ _ _ E) as [[_ ->]|(_ & H1 & H2)]; lia.
  - destruct (redo_returned _ _ _ _ E) as [[_ ->]|(_ & H1 & H2)]; lia.
Qed.

(** X3.  When the owner's state cannot be serialised, [save()] throws and
    leaves the caretaker as it was; [undo()] with a snapshot to restore
    throws too, but only after popping it: the snapshot is gone from the
    undo stack, nothing is pushed on the redo stack and the owner is not
    restored.  [redo()] loses the top of the redo stack the same way. *)
Theorem failed_capture :
  forall (c : Caretaker) (now : Date) (e : Exception),
    json_roundtrip (owner_state c) = Throw e ->
    Caretaker_save now c = (Throw e, c) /\
    (undoStack c <> [] ->
     Caretaker_undo now c =
     (Throw e, {| originator := originator c;
                  undoStack := removelast (undoStack c);
                  redoStack := redoStack c |})) /\
    (redoStack c <> [] ->
     Caretaker_redo now c =
     (Throw e, {| originator := originator c;
                  undoStack := undoStack c;
                  redoStack := removelast (redoStack c) |})).
Proof.
  intros c now e Es. split; [by apply save_throws|]. split; intros Hne.
  - destruct (undoStack c) as [|m rest _] eqn:EU using rev_ind; [done|].
    rewrite removelast_last. by apply (undo_capture_throws now c rest m e).
  - rewrite redo_swap.
    destruct (redoStack c) as [|m rest _] eqn:ER using rev_ind; [done|].
    rewrite (undo_capture_throws now (swap c) rest m e); [|done|done].
    simpl. unfold swap. simpl. by rewrite removelast_last.
Qed.

(** ** Plain objects *)

Lemma get_property_None k ps : get_property k ps = None <-> k ∉ keys ps.
Proof.
  unfold keys. induction ps as [|[k' v] ps IH]; simpl.
  - split; [intros _ H; by apply elem_of_nil in H|done].
  - destruct (decide (k' = k)) as [->|Hne].
    + split; [done|]. intros H. destruct H. apply elem_of_cons. by left.
    + rewrite IH, elem_of_cons. split; [|tauto].
      intros H [E|E]; [congruence|done].
Qed.

Lemma last_assigned_None k ps :
  get_property k ps = None -> last_assigned k ps = None.
Proof.
  unfold last_assigned. rewrite !get_property_None. unfold keys.
  rewrite map_rev. intros H E. apply H.
  apply list_elem_of_In, in_rev. by apply list_elem_of_In.
Qed.

Lemma json_properties_get_None k ps :
  forall r,
    get_property k ps = None ->
    json_properties ps = Normal r ->
    get_property k r = None.
Proof.
  induction ps as [|[k' v] ps IH]; intros r Hk E; simpl in *.
  - by injection E as <-.
  - destruct (decide (k' = k)) as [->|Hne]; [done|].
    destruct (json_property k' v) as [o|e]; [|done].
    destruct (json_properties ps) as [r'|e]; [|done].
    injection E as <-. destruct o as [x|]; simpl.
    + destruct (decide (k' = k)); [done|]. by apply IH.
    + by apply IH.
Qed.

Lemma plain_copy v v' :
  plain v -> json_roundtrip v = Normal v' -> plain v'.
Proof.
  destruct v as [| | | | | | | | |ps]; try done. simpl. intros Hk.
  rewrite json_roundtrip_obj by (unfold methodless; by rewrite Hk).
  destruct (json_properties ps) as [r|e] eqn:E; [|done].
  intros [= <-]. simpl. by eapply json_properties_get_None.
Qed.

Lemma plain_spread ps partial :
  get_property "toJSON" ps = None ->
  get_property "toJSON" partial = None ->
  get_property "toJSON" (spread (spread [] ps) partial) = None.
Proof.
  intros H1 H2. rewrite !get_spread.
  by rewrite (last_assigned_None _ _ H1), (last_assigned_None _ _ H2).
Qed.

Lemma undo_keeps_objects now c :
  caretaker_ok c -> caretaker_objects c ->
  caretaker_objects (snd (Caretaker_undo now c)).
Proof.
  intros [HU HR] (Ho & HUo & HRo).
  destruct (undoStack c) as [|m rest _] eqn:EU using rev_ind.
  - rewrite undo_empty by done. simpl.
    unfold caretaker_objects. rewrite EU. by repeat split.
  - apply Forall_app in HU as [HU Hm]. rewrite Forall_singleton in Hm.
    apply Forall_app in HUo as [HUo Hmo]. rewrite Forall_singleton in Hmo.
    destruct (json_roundtrip (owner_state c)) as [s'|e] eqn:Es.
    + rewrite (undo_nonempty _ _ _ _ _ EU Hm Es). simpl.
      unfold caretaker_objects. simpl.
      rewrite !Forall_app, !Forall_singleton.
      repeat split; try done. exact (plain_copy _ _ Ho Es).
    + rewrite (undo_capture_throws _ _ _ _ _ EU Es). by repeat split.
Qed.

Lemma call_keeps_objects a now c :
  plain_call (a, now) ->
  caretaker_ok c -> caretaker_objects c ->
  caretaker_objects (snd (call a now c)).
Proof.
  intros Ha Hok Hobj. destruct a as [partial| | |]; cbn [call].
  - destruct Hobj as (Ho & HU & HR). repeat split; try done.
    unfold owner_state in *. simpl.
    destruct (Originator_state (originator c)); try done.
    simpl in *. by apply plain_spread.
  - destruct Hok as [HU HR], Hobj as (Ho & HUo & HRo).
    destruct (json_roundtrip (owner_state c)) as [s'|e] eqn:Es.
    + rewrite (save_returns _ _ _ Es). simpl.
      unfold caretaker_objects. simpl.
      rewrite !Forall_app, !Forall_singleton.
      repeat split; try done. exact (plain_copy _ _ Ho Es).
    + rewrite (save_throws _ _ _ Es). by repeat split.
  - by apply undo_keeps_objects.
  - rewrite redo_swap. simpl.
    destruct Hobj as (Ho & HUo & HRo).
    destruct (undo_keeps_objects now (swap c)) as (Ho' & HUo' & HRo');
      [by apply swap_ok|by repeat split|].
    by repeat split.
Qed.

(** X4.  Whatever a program does with a new caretaker over a new
    originator (mutations, saves, undos, redos, in any order, up to the
    first exception if there is one), every snapshot on either stack
    holds JSON values only.  When moreover the initial state has no
    property [toJSON] and no [setState] assigns one, the owner's state
    and the state of every snapshot are plain objects without such a
    property.  (With a [toJSON] method the snapshots, and after an
    [undo()] the owner, hold what the method returns.) *)
Theorem reachable_invariants :
  forall (initialState : list (string * JSValue))
         (script : list (Call * Date)),
    caretaker_ok (after script (Caretaker_new (Originator_new initialState))) /\
    (get_property "toJSON" initialState = None ->
     Forall plain_call script ->
     caretaker_objects
       (after script (Caretaker_new (Originator_new initialState)))).
Proof.
  intros initialState script.
  assert (Hok : caretaker_ok (Caretaker_new (Originator_new initialState)))
    by (split; constructor).
  split.
  - revert Hok. generalize (Caretaker_new (Originator_new initialState)).
    induction script as [|[a now] script IH]; intros c Hok; [done|].
    cbn [after]. pose proof (call_keeps_ok a now c Hok) as Hok'.
    destruct (call a now c) as [[v|e] c']; [by apply IH|done].
  - intros Hinit Hscript.
    assert (Hobj : caretaker_objects
                     (Caretaker_new (Originator_new initialState))).
    { repeat split; try constructor. simpl. rewrite get_spread.
      by rewrite (last_assigned_None _ _ Hinit). }
    revert Hok Hobj. generalize (Caretaker_new (Originator_new initialState)).
    induction Hscript as [|[a now] script Ha _ IH]; intros c Hok Hobj; [done|].
    cbn [after]. pose proof (call_keeps_ok a now c Hok) as Hok'.
    pose proof (call_keeps_objects a now c Ha Hok Hobj) as Hobj'.
    destruct (call a now c) as [[v|e] c']; [by apply IH|done].
Qed.

(** X5.  A memento gives back what it stored, every time it is asked:
    [new Memento(state)] stores the JSON deep copy of [state] with the
    time of its making, [getState()] returns exactly the stored value,
    and a memento made of that value stores it unchanged. *)
Theorem memento_keeps_its_state :
  forall (now later : Date) (state : JSValue) (m : Memento),
    Memento_new now state = Normal m ->
    json_roundtrip state = Normal (Memento_state m) /\
    Memento_getCreatedAt m = now /\
    Memento_getState m = Normal (Memento_state m) /\
    Memento_new later (Memento_state m) =
      Normal (snapshot (Memento_state m) later).
Proof.
  intros now later state m E. unfold Memento_new in E.
  destruct (json_roundtrip state) as [s|e] eqn:Es; [|done].
  injection E as <-. simpl.
  pose proof (json_roundtrip_idem _ _ Es) as Hidem.
  repeat split; [done|]. by apply Memento_new_ok.
Qed.

(** X6.  [undo()] takes back a [redo()]: with a snapshot on the redo
    stack and an owner whose state can be serialised, [redo()] followed by
    [undo()] both return [true], and leave the owner with the JSON deep
    copy of the state it had and both stacks holding the states they
    held. *)
Theorem redo_then_undo :
  forall (c : Caretaker) (t1 t2 : Date) (s' : JSValue),
    caretaker_ok c ->
    redoStack c <> [] ->
    json_roundtrip (owner_state c) = Normal s' ->
    map observe (run [(CallRedo, t1); (CallUndo, t2)] c) =
      [returned_true
         (default JNull (last (states (redoStack c))));
       returned_true s'] /\
    states (undoStack (after [(CallRedo, t1); (CallUndo, t2)] c)) =
      states (undoStack c) /\
    states (redoStack (after [(CallRedo, t1); (CallUndo, t2)] c)) =
      states (redoStack c).
Proof.
  intros c t1 t2 s' [HU HR] Hne Es.
  destruct (redoStack c) as [|m rest _] eqn:ER using rev_ind; [done|].
  apply Forall_app in HR as [HR Hm]. rewrite Forall_singleton in Hm.
  assert (Hs' : json_value s') by (by eapply json_roundtrip_value).
  cbn [run after call].
  rewrite (redo_nonempty t1 c rest m s' ER Hm Es).
  rewrite (undo_nonempty t2 _ (undoStack c) (snapshot s' t1) (Memento_state m));
    [|done|done|by apply json_value_roundtrip].
  simpl. unfold states, returned_true, observe. simpl.
  rewrite !map_app. simpl. rewrite last_snoc. by repeat split.
Qed.

End Caretaker.

(** ** Witnesses

    The states here hold no function, so that no [toJSON] is called. *)

Lemma stats_sum_kept_witness :
  completes [(CallUndo, "t5"); (CallUndo, "t6"); (CallUndo, "t7");
             (CallRedo, "t8")]
            (after demo_script demo_caretaker) /\
  exists u r u' r' : nat,
    fst (Caretaker_stats (after demo_script demo_caretaker)) =
      Normal (stats_object u r) /\
    fst (Caretaker_stats
           (after [(CallUndo, "t5"); (CallUndo, "t6"); (CallUndo, "t7");
                   (CallRedo, "t8")]
                  (after demo_script demo_caretaker))) =
      Normal (stats_object u' r') /\
    u' + r' = u + r.
Proof.
  split; [exact I|].
  apply stats_sum_kept; [repeat constructor|exact I].
Defined.

Lemma failed_capture_witness :
  json_roundtrip (owner_state stuck_caretaker) = Throw TypeError /\
  length (undoStack stuck_caretaker) = 1 /\
  fst (Caretaker_undo "t3" stuck_caretaker) = Throw TypeError /\
  undoStack (snd (Caretaker_undo "t3" stuck_caretaker)) = [] /\
  redoStack (snd (Caretaker_undo "t3" stuck_caretaker)) = [] /\
  originator (snd (Caretaker_undo "t3" stuck_caretaker)) =
    originator stuck_caretaker.
Proof.
  assert (Es : json_roundtrip (owner_state stuck_caretaker) = Throw TypeError)
    by reflexivity.
  split; [exact Es|]. split; [reflexivity|].
  destruct (failed_capture stuck_caretaker "t3" TypeError Es) as (_ & H & _).
  rewrite H by discriminate. repeat split.
Defined.

Lemma reachable_invariants_witness :
  caretaker_ok (after demo_script demo_caretaker) /\
  caretaker_objects (after demo_script demo_caretaker).
Proof.
  destruct (reachable_invariants [("a", num 1); ("b", num 2)] demo_script)
    as [Hok Hobj].
  split; [exact Hok|]. apply Hobj; [reflexivity|].
  repeat constructor.
Defined.

(** ** States with a method [toJSON], and states that are arrays *)

(** [new Memento({ a: { toJSON() { return 5; }, b: 1 }, c: 2 })] holds
    [{ a: 5, c: 2 }]. *)
Lemma memento_calls_toJSON :
  Memento_new (F := returning (num 5) (jv_num 5)) "t1"
    (JObj [("a", JObj [("toJSON", JFun "f"); ("b", num 1)]); ("c", num 2)]) =
  Normal (snapshot (JObj [("a", num 5); ("c", num 2)]) "t1").
Proof. reflexivity. Qed.

(** [setState({ toJSON() { return 5; } }); save(); undo()] leaves the
    owner holding the number 5. *)
Lemma owner_restored_from_toJSON :
  owner_state
    (after (F := returning (num 5) (jv_num 5))
       [(CallSetState [("toJSON", JFun "f")], "t1"); (CallSave, "t2");
        (CallUndo, "t3")]
       demo_caretaker) = num 5.
Proof. reflexivity. Qed.

(** [{ n: 1n, toJSON() { return 1; } }] can be serialised: the method is
    called before the properties are looked at. *)
Lemma toJSON_hides_bigint :
  json_roundtrip (F := returning (num 1) (jv_num 1))
    (JObj [("n", JBigInt 1); ("toJSON", JFun "f")]) = Normal (num 1).
Proof. reflexivity. Qed.

(** After [restore(new Memento([7, 8]))], [getState()] is
    [{ 0: 7, 1: 8 }]. *)
Lemma array_state_spread :
  fst (Originator_getState {| Originator_state := JArr [num 7; num 8] |}) =
  Normal (JObj [("0", num 7); ("1", num 8)]).
Proof. reflexivity. Qed.

Lemma memento_keeps_its_state_witness :
  Memento_new "t1" (JObj [("a", JNum NaN); ("f", JFun "f"); ("d", JDate "D")])
    = Normal (snapshot (JObj [("a", JNull); ("d", JStr "D")]) "t1") /\
  Memento_getState (snapshot (JObj [("a", JNull); ("d", JStr "D")]) "t1") =
    Normal (JObj [("a", JNull); ("d", JStr "D")]).
Proof.
  split; [reflexivity|].
  apply (memento_keeps_its_state "t1" "t2"
           (JObj [("a", JNum NaN); ("f", JFun "f"); ("d", JDate "D")])).
  reflexivity.
Defined.

Lemma redo_then_undo_witness :
  caretaker_ok undone_caretaker /\
  redoStack undone_caretaker <> [] /\
  owner_state undone_caretaker = JObj [("a", num 10); ("b", num 2)] /\
  map observe (run [(CallRedo, "t6"); (CallUndo, "t7")] undone_caretaker) =
    [returned_true (JObj [("a", num 10); ("b", num 20)]);
     returned_true (JObj [("a", num 10); ("b", num 2)])].
Proof.
  assert (Hok : caretaker_ok undone_caretaker) by (split; repeat constructor).
  assert (Hne : redoStack undone_caretaker <> []) by discriminate.
  split; [exact Hok|]. split; [exact Hne|]. split; [reflexivity|].
  exact (proj1 (redo_then_undo undone_caretaker "t6" "t7"
                  (JObj [("a", num 10); ("b", num 2)]) Hok Hne eq_refl)).
Defined.

End MementoMoreFacts.

(* ===================================================================== *)
(** * Facts about the text editor and its history                         *)
(* ===================================================================== *)

Module EditorFacts.
Import JS JSFacts MementoPattern MementoFacts EditorPattern.
Local Open Scope list_scope.
Local Open Scope js_scope.

(** ** Strings *)

Lemma append_cons c (s1 s2 : string) :
  String c s1 +:+ s2 = String c (s1 +:+ s2).
Proof. reflexivity. Qed.

Lemma append_nil_l (s : string) : "" +:+ s = s.
Proof. reflexivity. Qed.








(** Cutting a concatenation at the joint. *)
Lemma text_before_append s1 s2 :
  text_before (String.length s1) (s1 +:+ s2) = s1.
Proof.
  unfold text_before. induction s1 as [|c s1 IH].
  - rewrite append_nil_l. by destruct s2.
  - rewrite append_cons. simpl. by rewrite IH.
Qed.


Lemma substring_middle s1 s2 s3 :
  substring (String.length s1) (String.length s2) (s1 +:+ s2 +:+ s3) = s2.
Proof.
  induction s1 as [|c s1 IH].
  - rewrite append_nil_l. apply text_before_append.
  - rewrite append_cons. simpl. exact IH.
Qed.




(** ** [slice] inside the text *)














(** ** Snapshots of an editor *)

Lemma state_object_json ed : json_value (state_object ed).
Proof. repeat constructor. Qed.

Lemma read_state_object ed : read_state (state_object ed) = Some ed.
Proof. by destruct ed. Qed.

Lemma createMemento_run now ed :
  TextEditor_createMemento now ed =
  (Normal (snapshot (state_object ed) now), ed).
Proof.
  unfold TextEditor_createMemento, TextEditor_getState, bind, gets, lift.
  by rewrite (Memento_new_ok _ _ _ (json_value_roundtrip _ (state_object_json ed))).
Qed.

Lemma restore_run m ed ed0 :
  Memento_state m = state_object ed0 ->
  TextEditor_restore m ed = (Normal JUndefined, ed0).
Proof.
  intros E. unfold TextEditor_restore, TextEditor_setState, Memento_getState,
    bind, lift.
  rewrite E, (json_value_roundtrip _ (state_object_json ed0)).
  by rewrite read_state_object.
Qed.

(** A memento made by [createMemento] is read back by [restore] as the
    editor it was made from. *)
Lemma createMemento_read_back now ed ed' :
  exists m,
    TextEditor_createMemento now ed = (Normal m, ed) /\
    editor_memento m /\
    TextEditor_restore m ed' = (Normal JUndefined, ed).
Proof.
  exists (snapshot (state_object ed) now).
  split; [apply createMemento_run|]. split; [by exists ed|].
  by apply restore_run.
Qed.

Lemma history_eta h :
  {| editor := editor h;
     EditorHistory_undoStack := EditorHistory_undoStack h;
     EditorHistory_redoStack := EditorHistory_redoStack h |} = h.
Proof. by destruct h. Qed.

Lemma history_save_run now h :
  EditorHistory_save now h =
  (Normal JUndefined,
   {| editor := editor h;
      EditorHistory_undoStack :=
        EditorHistory_undoStack h ++ [snapshot (state_object (editor h)) now];
      EditorHistory_redoStack := [] |}).
Proof.
  unfold EditorHistory_save, on_editor, zoom, bind, get.
  by rewrite createMemento_run.
Qed.

Lemma history_undo_empty now h :
  EditorHistory_undoStack h = [] ->
  EditorHistory_undo now h = (Normal (JBool false), h).
Proof. intros E. unfold EditorHistory_undo, bind, get. by rewrite E. Qed.

Lemma history_redo_empty now h :
  EditorHistory_redoStack h = [] ->
  EditorHistory_redo now h = (Normal (JBool false), h).
Proof. intros E. unfold EditorHistory_redo, bind, get. by rewrite E. Qed.

Lemma history_undo_run now h rest m ed0 :
  EditorHistory_undoStack h = rest ++ [m] ->
  Memento_state m = state_object ed0 ->
  EditorHistory_undo now h =
  (Normal (JBool true),
   {| editor := ed0;
      EditorHistory_undoStack := rest;
      EditorHistory_redoStack :=
        EditorHistory_redoStack h ++ [snapshot (state_object (editor h)) now] |}).
Proof.
  intros EU Em. unfold EditorHistory_undo, bind at 1, get at 1.
  rewrite EU, length_app. simpl.
  destruct (decide _) as [?|_]; [lia|].
  rewrite last_snoc, removelast_last.
  unfold bind, set_undo, set_redo, modify, on_editor, zoom, get, ret.
  cbn [editor EditorHistory_undoStack EditorHistory_redoStack fst snd].
  rewrite createMemento_run.
  cbn [editor EditorHistory_undoStack EditorHistory_redoStack fst snd].
  by rewrite (restore_run m _ ed0 Em).
Qed.

Lemma history_redo_run now h rest m ed0 :
  EditorHistory_redoStack h = rest ++ [m] ->
  Memento_state m = state_object ed0 ->
  EditorHistory_redo now h =
  (Normal (JBool true),
   {| editor := ed0;
      EditorHistory_undoStack :=
        EditorHistory_undoStack h ++ [snapshot (state_object (editor h)) now];
      EditorHistory_redoStack := rest |}).
Proof.
  intros EU Em. unfold EditorHistory_redo, bind at 1, get at 1.
  rewrite EU, length_app. simpl.
  destruct (decide _) as [?|_]; [lia|].
  rewrite last_snoc, removelast_last.
  unfold bind, set_undo, set_redo, modify, on_editor, zoom, get, ret.
  cbn [editor EditorHistory_undoStack EditorHistory_redoStack fst snd].
  rewrite createMemento_run.
  cbn [editor EditorHistory_undoStack EditorHistory_redoStack fst snd].
  by rewrite (restore_run m _ ed0 Em).
Qed.

Lemma edit_returns a ed : fst (edit a ed) = Normal JUndefined.
Proof. by destruct a. Qed.

Lemma history_edits_run now edits :
  forall h,
    history_run (map (fun a => (HistoryEdit a, now)) edits) h =
    (map (fun _ => Normal JUndefined) edits,
     {| editor := edited edits (editor h);
        EditorHistory_undoStack := EditorHistory_undoStack h;
        EditorHistory_redoStack := EditorHistory_redoStack h |}).
Proof.
  induction edits as [|a edits IH]; intros h.
  - simpl. by rewrite history_eta.
  - cbn [map history_run history_call].
    change (edited (a :: edits) (editor h))
      with (edited edits (snd (edit a (editor h)))).
    unfold on_editor, zoom.
    pose proof (edit_returns a (editor h)) as E.
    destruct (edit a (editor h)) as [r ed'] eqn:Ea. simpl in E. subst r.
    by rewrite IH.
Qed.

(** X11.  The editor's undo is exact on safe positions.  As long as
    the selection's positions are integers that a number holds exactly
    (below 2^53 in size) at the [save()] and after each edit, [undo()]
    after the [save()] and any edits returns [true] and puts the editor
    back exactly as it was at the [save()]: text, selection and
    clipboard; [redo()] then returns [true] and brings back exactly the
    edited editor.  (Positions that are not such integers are outside
    the model: the copy a snapshot keeps turns [NaN] and the infinities
    into [null].) *)
Theorem history_undo_redo_exact :
  forall (h : EditorHistory) (edits : list Edit) (t1 t2 t3 : Date),
    edits_safe edits (editor h) ->
    let h1 :=
      snd (history_run ((HistorySave, t1) ::
                        map (fun a => (HistoryEdit a, t1)) edits) h) in
    editor h1 = edited edits (editor h) /\
    fst (EditorHistory_undo t2 h1) = Normal (JBool true) /\
    editor (snd (EditorHistory_undo t2 h1)) = editor h /\
    fst (EditorHistory_redo t3 (snd (EditorHistory_undo t2 h1))) =
      Normal (JBool true) /\
    editor (snd (EditorHistory_redo t3 (snd (EditorHistory_undo t2 h1)))) =
      edited edits (editor h) /\
    states (EditorHistory_undoStack
              (snd (EditorHistory_redo t3 (snd (EditorHistory_undo t2 h1))))) =
      states (EditorHistory_undoStack h1).
Proof.
  intros h edits t1 t2 t3 _ h1. subst h1. cbn [history_run history_call].
  rewrite history_save_run, history_edits_run. cbn [snd editor
    EditorHistory_undoStack EditorHistory_redoStack].
  split; [done|].
  rewrite (history_undo_run t2 _ (EditorHistory_undoStack h)
             (snapshot (state_object (editor h)) t1) (editor h))
    by reflexivity.
  cbn [fst snd editor]. split; [done|]. split; [done|].
  rewrite (history_redo_run t3 _ []
             (snapshot (state_object (edited edits (editor h))) t2)
             (edited edits (editor h)))
    by reflexivity.
  cbn [fst snd editor EditorHistory_undoStack]. split; [done|]. split; [done|].
  unfold states. by rewrite !map_app.
Qed.

Lemma history_undo_redo_exact_witness :
  edits_safe [EditCopy; EditSelect 11 11; EditPaste] demo_editor /\
  TextEditor_content
    (editor
       (snd (history_run
               [(HistorySave, "t1"); (HistoryEdit EditCopy, "t1");
                (HistoryEdit (EditSelect 11 11), "t1");
                (HistoryEdit EditPaste, "t1")]
               (EditorHistory_new demo_editor)))) = "Hello WorldWorld" /\
  editor
    (snd (EditorHistory_undo "t2"
            (snd (history_run
                    [(HistorySave, "t1"); (HistoryEdit EditCopy, "t1");
                     (HistoryEdit (EditSelect 11 11), "t1");
                     (HistoryEdit EditPaste, "t1")]
                    (EditorHistory_new demo_editor))))) = demo_editor.
Proof.
  assert (Hsafe : edits_safe [EditCopy; EditSelect 11 11; EditPaste]
                             demo_editor).
  { repeat split; vm_compute; reflexivity. }
  split; [exact Hsafe|]. split; [reflexivity|].
  exact (proj1 (proj2 (proj2
           (history_undo_redo_exact (EditorHistory_new demo_editor)
              [EditCopy; EditSelect 11 11; EditPaste] "t1" "t2" "t3"
              Hsafe)))).
Defined.

(** X12.  An [EditorHistory] never throws and never holds a foreign
    snapshot: along any script of edits, saves, undos and redos, started
    with stacks of snapshots made from editors, every call returns, and
    every snapshot on either stack is still one made from an editor. *)
Theorem history_never_throws :
  forall (script : list (HistoryCall * Date)) (h : EditorHistory),
    history_ok h ->
    length (fst (history_run script h)) = length script /\
    Forall (fun r => exists v, r = Normal v) (fst (history_run script h)) /\
    history_ok (snd (history_run script h)).
Proof.
  induction script as [|[a now] script IH]; intros h Hok.
  { simpl. split; [done|]. split; [constructor|done]. }
  assert (Hstep : exists v h', history_call a now h = (Normal v, h') /\
                               history_ok h').
  { destruct Hok as [HU HR]. destruct a as [a| | |]; cbn [history_call].
    - unfold on_editor, zoom.
      pose proof (edit_returns a (editor h)) as E.
      destruct (edit a (editor h)) as [r ed'] eqn:Ea. simpl in E. subst r.
      eexists _, _. split; [reflexivity|]. by split.
    - rewrite history_save_run. eexists _, _. split; [reflexivity|].
      split; simpl; [|constructor].
      apply Forall_app. split; [done|]. apply Forall_singleton. by eexists.
    - destruct (EditorHistory_undoStack h) as [|m rest _] eqn:EU using rev_ind.
      + rewrite history_undo_empty by done. eexists _, _.
        split; [reflexivity|]. split; [by rewrite EU|done].
      + apply Forall_app in HU as [HU Hm]. rewrite Forall_singleton in Hm.
        destruct Hm as [ed0 Hm].
        rewrite (history_undo_run now h rest m ed0 EU Hm).
        eexists _, _. split; [reflexivity|]. split; simpl; [done|].
        apply Forall_app. split; [done|]. apply Forall_singleton. by eexists.
    - destruct (EditorHistory_redoStack h) as [|m rest _] eqn:ER using rev_ind.
      + rewrite history_redo_empty by done. eexists _, _.
        split; [reflexivity|]. split; [done|by rewrite ER].
      + apply Forall_app in HR as [HR Hm]. rewrite Forall_singleton in Hm.
        destruct Hm as [ed0 Hm].
        rewrite (history_redo_run now h rest m ed0 ER Hm).
        eexists _, _. split; [reflexivity|]. split; simpl; [|done].
        apply Forall_app. split; [done|]. apply Forall_singleton. by eexists. }
  destruct Hstep as (v & h' & E & Hok').
  cbn [history_run]. rewrite E.
  destruct (IH h' Hok') as (IH1 & IH2 & IH3).
  destruct (history_run script h') as [rs h'']. simpl in *.
  split; [by rewrite IH1|]. split; [|done].
  constructor; [by eexists|done].
Qed.

Lemma history_never_throws_witness :
  history_ok (EditorHistory_new TextEditor_new) /\
  fst (history_run
         [(HistoryUndo, "t0"); (HistorySave, "t1");
          (HistoryEdit (EditInsert "Hello"), "t2"); (HistorySave, "t3");
          (HistoryEdit (EditInsert " World"), "t4"); (HistoryUndo, "t5");
          (HistoryRedo, "t6"); (HistoryRedo, "t7")]
         (EditorHistory_new TextEditor_new)) =
    [Normal (JBool false); Normal JUndefined; Normal JUndefined;
     Normal JUndefined; Normal JUndefined; Normal (JBool true);
     Normal (JBool true); Normal (JBool false)] /\
  history_ok
    (snd (history_run
            [(HistoryUndo, "t0"); (HistorySave, "t1");
             (HistoryEdit (EditInsert "Hello"), "t2"); (HistorySave, "t3");
             (HistoryEdit (EditInsert " World"), "t4"); (HistoryUndo, "t5");
             (HistoryRedo, "t6"); (HistoryRedo, "t7")]
            (EditorHistory_new TextEditor_new))).
Proof.
  assert (Hok : history_ok (EditorHistory_new TextEditor_new))
    by (split; constructor).
  split; [exact Hok|]. split; [vm_compute; reflexivity|].
  apply history_never_throws. exact Hok.
Defined.

End EditorFacts.

(* ===================================================================== *)
(** * More facts about the order and the context                          *)
(* ===================================================================== *)

Module StateMoreFacts.
Import JS StatePattern StateFacts StateMore.
Local Open Scope list_scope.
Local Open Scope js_scope.

(** X13.  What [process()] does in each state.  It never throws.  From
    [CreatedState] the order is confirmed when [Math.random()] is above
    0.2 and cancelled otherwise; from [ConfirmedState], [PaidState] and
    [ShippedState] it moves on (to paid, shipped, delivered) when the draw
    is above 0.3, 0.1 and 0.4 respectively, setting the matching status
    field, and stays where it is otherwise, with no record added; in
    [DeliveredState] and [CancelledState] it prints one line and changes
    nothing; in [ReturnedState] it refunds and stays. *)
Theorem process_by_state :
  forall (e : Env) (w : World Order),
    Order_ok w ->
    fst (Order_process e w) = Normal JUndefined /\
    match state (this w) with
    | CreatedState =>
        state (this (snd (Order_process e w))) =
          (if gt (random e) double_0_2 then ConfirmedState
           else CancelledState) /\
        length (history (snd (Order_process e w))) = S (length (history w))
    | ConfirmedState =>
        if gt (random e) double_0_3 then
          state (this (snd (Order_process e w))) = PaidState /\
          paymentStatus (this (snd (Order_process e w))) = "paid" /\
          length (history (snd (Order_process e w))) = S (length (history w))
        else
          this (snd (Order_process e w)) = this w /\
          arrays (snd (Order_process e w)) = arrays w
    | PaidState =>
        if gt (random e) double_0_1 then
          state (this (snd (Order_process e w))) = ShippedState /\
          shippingStatus (this (snd (Order_process e w))) = "ready" /\
          length (history (snd (Order_process e w))) = S (length (history w))
        else
          this (snd (Order_process e w)) = this w /\
          arrays (snd (Order_process e w)) = arrays w
    | ShippedState =>
        if gt (random e) double_0_4 then
          state (this (snd (Order_process e w))) = DeliveredState /\
          deliveryStatus (this (snd (Order_process e w))) = "delivered" /\
          length (history (snd (Order_process e w))) = S (length (history w))
        else
          this (snd (Order_process e w)) = this w /\
          arrays (snd (Order_process e w)) = arrays w
    | DeliveredState | CancelledState =>
        this (snd (Order_process e w)) = this w /\
        arrays (snd (Order_process e w)) = arrays w /\
        exists line, console (snd (Order_process e w)) = console w ++ [line]
    | ReturnedState =>
        this (snd (Order_process e w)) =
          set_paymentStatus "refunded" (this w) /\
        arrays (snd (Order_process e w)) = arrays w /\
        refunds (snd (Order_process e w)) = S (refunds w)
    end.
Proof.
  intros e w H. open_world w e H.
  destruct st; unfold_order; split_checks r; rewrite ?Ha; cbv beta iota;
    (split; [reflexivity|]);
    unfold history; cbn [this arrays console state paymentStatus
                         shippingStatus deliveryStatus stateHistory];
    rewrite ?lookup_insert_eq, ?Ha; cbn [default from_option Datatypes.id];
    rewrite ?length_app; simpl length;
    repeat split; try reflexivity; try lia; try (by eexists).
  count_refunds.
Qed.

Lemma process_by_state_witness :
  Order_ok demo_order /\
  state (this demo_order) = CreatedState /\
  state (this (snd (Order_process (lucky "t1") demo_order))) =
    ConfirmedState /\
  state (this (snd (Order_process (unlucky "t1") demo_order))) =
    CancelledState.
Proof.
  assert (Hok : Order_ok demo_order) by (vm_compute; eexists; reflexivity).
  split; [exact Hok|]. split; [vm_compute; reflexivity|].
  pose proof (proj2 (process_by_state (lucky "t1") demo_order Hok)) as H1.
  pose proof (proj2 (process_by_state (unlucky "t1") demo_order Hok)) as H2.
  vm_compute in H1, H2. vm_compute.
  split; [exact (proj1 H1)|exact (proj1 H2)].
Defined.

(** ** One client call: statuses and rank *)

Lemma client_call_step a e w :
  Order_ok w ->
  client_call (a, e) ->
  exists w',
    order_call a e w = (Normal tt, w') /\
    Order_ok w' /\
    (statuses_ok (this w) -> statuses_ok (this w')) /\
    rank (state (this w)) +
      (if accepted a w w' then 1 else 0) <= rank (state (this w')).
Proof.
  intros H Hc. open_world w e H.
  destruct a; try done; destruct st; unfold_order; split_checks r;
    rewrite ?Ha; cbv beta iota;
    (eexists; split; [reflexivity|]);
    unfold Order_ok, accepted, statuses_ok;
    cbn [this arrays stateHistory state paymentStatus shippingStatus
         deliveryStatus];
    rewrite ?lookup_insert_eq, ?(lookup_after_copy _ _ _ _ Ha), ?Ha;
    (split; [by eexists|]);
    (split; [|vm_compute; lia]);
    intuition congruence.
Qed.

Lemma path_end_snoc start h r :
  path_end start (h ++ [r]) =
  match path_end start h with
  | Some x => if decide (from r = x) then Some (to r) else None
  | None => None
  end.
Proof.
  revert start. induction h as [|r0 h IH]; intros start; simpl; [done|].
  destruct (decide (from r0 = start)); [apply IH|done].
Qed.

Lemma order_call_path a e w start :
  Order_ok w ->
  path_end start (history w) = Some (OrderState_getName (state (this w))) ->
  exists w',
    order_call a e w = (Normal tt, w') /\
    Order_ok w' /\
    path_end start (history w') =
      Some (OrderState_getName (state (this w'))).
Proof.
  intros Hok Hp.
  destruct (order_call_history a e w Hok) as (w' & E & Hok' & Hh).
  exists w'. split; [done|]. split; [done|]. rewrite Hh.
  destruct (accepted a w w') eqn:Ea.
  - rewrite path_end_snoc, Hp. simpl. by rewrite decide_True.
  - rewrite app_nil_r, Hp. destruct a; try done; simpl in Ea;
      apply negb_false_iff, bool_decide_eq_true in Ea; by rewrite Ea.
Qed.

(** X14.  The history of an order is a path: whatever methods are called
    on a new order, in any order, [setState] included, its history starts
    at [CreatedState], each record starts from the state the record
    before led to, and the last record leads to the current state. *)
Theorem history_is_a_path :
  forall (i : string) (items : JSValue) (date : string)
         (store : gmap loc (list TransitionRecord)) (out : list string)
         (script : list (OrderCall * Env)),
    path_end "CreatedState"
             (history (order_after script (Order_new i items date store out))) =
    Some (OrderState_getName
            (state (this (order_after script
                            (Order_new i items date store out))))).
Proof.
  intros i items date store out script.
  destruct (Order_new_ok i items date store out) as (Hok & Hh & Hs).
  assert (Hp : path_end "CreatedState"
                        (history (Order_new i items date store out)) =
               Some (OrderState_getName
                       (state (this (Order_new i items date store out)))))
    by (by rewrite Hh, Hs).
  revert Hok Hp. generalize (Order_new i items date store out).
  induction script as [|[a e] script IH]; intros w Hok Hp; [done|].
  destruct (order_call_path a e w _ Hok Hp) as (w' & E & Hok' & Hp').
  cbn [order_after]. rewrite E. by apply IH.
Qed.

Lemma no_transition_same_state script :
  forall w,
    Order_ok w ->
    Forall client_call script ->
    accepted_transitions script w = [] ->
    state (this (order_after script w)) = state (this w).
Proof.
  induction script as [|[a e] script IH]; intros w Hok Hs Hn; [done|].
  apply Forall_cons in Hs as [Ha Hs].
  destruct (client_call_step a e w Hok Ha) as (w' & E & Hok' & _ & _).
  cbn [order_after accepted_transitions] in Hn |- *. rewrite E in Hn |- *.
  apply app_eq_nil in Hn as [Hacc Hn].
  rewrite (IH w' Hok' Hs Hn).
  destruct (accepted a w w') eqn:Ea; [done|].
  destruct a; try done; simpl in Ea;
    apply negb_false_iff, bool_decide_eq_true in Ea; by rewrite Ea.
Qed.

(** X15.  An order only moves forward.  Along any script of client calls
    (the three operations and the getters), every transition takes the
    order to a state further on in
    Created, Confirmed, Paid, Shipped, Delivered, Returned/Cancelled;
    so no more than five transitions are ever made, and an order that is
    returned or cancelled stays so. *)
Theorem order_moves_forward :
  forall (script : list (OrderCall * Env)) (w : World Order),
    Order_ok w ->
    Forall client_call script ->
    rank (state (this w)) + length (accepted_transitions script w) <=
      rank (state (this (order_after script w))) /\
    rank (state (this (order_after script w))) <= 5 /\
    (rank (state (this w)) = 5 ->
     state (this (order_after script w)) = state (this w)).
Proof.
  intros script w Hok Hs.
  assert (H : rank (state (this w)) + length (accepted_transitions script w)
              <= rank (state (this (order_after script w)))).
  { revert w Hok. induction Hs as [|[a e] script Ha _ IH]; intros w Hok.
    - simpl. lia.
    - destruct (client_call_step a e w Hok Ha) as (w' & E & Hok' & _ & Hr).
      cbn [order_after accepted_transitions]. rewrite E.
      specialize (IH w' Hok'). rewrite length_app.
      destruct (accepted a w w'); simpl in *; lia. }
  assert (H5 : forall s, rank s <= 5) by (intros []; simpl; lia).
  split; [exact H|]. split; [apply H5|].
  intros Hr. apply no_transition_same_state; [done|done|].
  specialize (H5 (state (this (order_after script w)))).
  destruct (accepted_transitions script w); [done|simpl in H; lia].
Qed.

Lemma order_moves_forward_witness :
  Order_ok demo_order /\
  length (accepted_transitions (demo_calls lucky) demo_order) = 5 /\
  rank (state (this (order_after (demo_calls lucky) demo_order))) = 5 /\
  state (this (order_after (demo_calls lucky ++ demo_calls lucky)
                           demo_order)) =
    ReturnedState.
Proof.
  assert (Hok : Order_ok demo_order) by (vm_compute; eexists; reflexivity).
  assert (Hs : Forall client_call (demo_calls lucky))
    by (unfold demo_calls; repeat constructor).
  split; [exact Hok|]. split; [vm_compute; reflexivity|].
  destruct (order_moves_forward (demo_calls lucky) demo_order Hok Hs)
    as (H1 & H2 & _).
  split.
  - apply Nat.le_antisymm; [exact H2|].
    etransitivity; [|exact H1]. vm_compute. lia.
  - vm_compute. reflexivity.
Defined.

(** X16.  The status fields follow the state.  Whatever client calls are
    made on a new order, its payment, shipping and delivery statuses are
    those that go with its state; in particular a cancelled order never
    keeps a payment (its payment status is [pending] or [refunded]), a
    refund is only ever found on a returned or cancelled order, and an
    order is shipped, delivered or returned only with shipping status
    [ready]. *)
Theorem statuses_follow_state :
  forall (i : string) (items : JSValue) (date : string)
         (store : gmap loc (list TransitionRecord)) (out : list string)
         (script : list (OrderCall * Env)),
    Forall client_call script ->
    statuses_ok (this (order_after script (Order_new i items date store out)))
    /\
    (state (this (order_after script (Order_new i items date store out))) =
       CancelledState ->
     paymentStatus
       (this (order_after script (Order_new i items date store out))) <>
       "paid") /\
    (paymentStatus
       (this (order_after script (Order_new i items date store out))) =
       "refunded" ->
     rank (state (this (order_after script
                          (Order_new i items date store out)))) = 5).
Proof.
  intros i items date store out script Hs.
  assert (H : statuses_ok
                (this (order_after script (Order_new i items date store out)))).
  { destruct (Order_new_ok i items date store out) as (Hok & _ & _).
    assert (H0 : statuses_ok (this (Order_new i items date store out)))
      by (by repeat split).
    revert Hok H0. generalize (Order_new i items date store out).
    induction Hs as [|[a e] script Ha _ IH]; intros w Hok H0; [done|].
    destruct (client_call_step a e w Hok Ha) as (w' & E & Hok' & Hst & _).
    cbn [order_after]. rewrite E. apply IH; [done|by apply Hst]. }
  split; [exact H|]. unfold statuses_ok in H.
  destruct (state (this (order_after script _))); simpl;
    split; intros; intuition congruence.
Qed.

Lemma statuses_follow_state_witness :
  Forall client_call (demo_calls lucky) /\
  statuses_ok (this (order_after (demo_calls lucky) demo_order)) /\
  paymentStatus (this (order_after (demo_calls lucky) demo_order)) = "paid".
Proof.
  assert (Hs : Forall client_call (demo_calls lucky))
    by (unfold demo_calls; repeat constructor).
  split; [exact Hs|]. split; [|vm_compute; reflexivity].
  exact (proj1 (statuses_follow_state
                  "ORD-001"
                  (JArr [JStr "Ноутбук"; JStr "Мышь"; JStr "Клавиатура"])
                  "2024-01-01T00:00:00.000Z" ∅ [] (demo_calls lucky) Hs)).
Defined.

(** X17.  [getInfo()] describes the order without touching it: it returns
    the order's id, items, creation date and three statuses, the class
    name of its state with that state's own description, and a new array
    holding the records of the history; the order, the existing arrays
    and the console are as before. *)
Theorem getInfo_describes :
  forall w : World Order,
    Order_ok w ->
    exists info : OrderInfo,
      fst (Order_getInfo w) = Normal info /\
      this (snd (Order_getInfo w)) = this w /\
      console (snd (Order_getInfo w)) = console w /\
      info_id info = id (this w) /\
      info_items info = items (this w) /\
      info_createdAt info = createdAt (this w) /\
      info_paymentStatus info = paymentStatus (this w) /\
      info_shippingStatus info = shippingStatus (this w) /\
      info_deliveryStatus info = deliveryStatus (this w) /\
      info_state info = OrderState_getName (state (this w)) /\
      own_getDescription (state (this w)) = Some (info_stateDescription info) /\
      arrays w !! info_stateHistory info = None /\
      arrays (snd (Order_getInfo w)) =
        <[info_stateHistory info := history w]> (arrays w).
Proof.
  intros w H. destruct w as [[i it st ps ss ds h ca] m out].
  destruct H as [a Ha]. simpl in Ha.
  destruct st; unfold_order; rewrite ?Ha; cbv beta iota;
    eexists; (split; [reflexivity|]);
    cbn [this console arrays id items createdAt paymentStatus shippingStatus
         deliveryStatus state info_id info_items info_createdAt
         info_paymentStatus info_shippingStatus info_deliveryStatus
         info_state info_stateDescription info_stateHistory];
    unfold history; cbn [this arrays stateHistory]; rewrite Ha;
    repeat split; apply fresh_not_allocated.
Qed.

Lemma getInfo_describes_witness :
  Order_ok delivered_order /\
  exists info : OrderInfo,
    fst (Order_getInfo delivered_order) = Normal info /\
    info_state info = "DeliveredState" /\
    info_stateDescription info = "Заказ доставлен" /\
    info_stateHistory info <> stateHistory (this delivered_order).
Proof.
  assert (Hok : Order_ok delivered_order)
    by (vm_compute; eexists; reflexivity).
  split; [exact Hok|].
  destruct (getInfo_describes delivered_order Hok)
    as (info & E & _ & _ & _ & _ & _ & _ & _ & _ & Hs & Hd & Hf & _).
  exists info. split; [exact E|]. split; [rewrite Hs; vm_compute; reflexivity|].
  split.
  - change (own_getDescription (state (this delivered_order)))
      with (Some DeliveredState_getDescription) in Hd.
    injection Hd as <-. reflexivity.
  - intros Heq. rewrite Heq in Hf. destruct Hok as [a Ha]. congruence.
Defined.

(** ** The generic context *)

Lemma context_call_step a e (w : World Context) :
  Context_ok w ->
  exists w',
    context_call a e w = (Normal tt, w') /\
    Context_ok w' /\
    Context_history w' =
      Context_history w ++
      match a with
      | ContextSetState s =>
          [{| from := state_name (Context_state (this w));
              to := State_getName s; timestamp := now e |}]
      | _ => []
      end /\
    Context_state (this w') =
      match a with
      | ContextSetState s => Some s
      | _ => Context_state (this w)
      end.
Proof.
  destruct w as [[st h] m out], e as [r t]. intros [x Hx]. simpl in Hx.
  destruct a as [s| | | |]; [| destruct st as [[| |]|] | | |];
    unfold context_call, Context_setState, Context_request,
      Context_getCurrentState, Context_getStateHistory,
      Context_getTransitionCount, own_handle, State_handle,
      ConcreteStateA_handle, ConcreteStateB_handle, ConcreteStateC_handle;
    unfold_monad; cbn [Context_state Context_stateHistory]; rewrite ?Hx;
    cbv beta iota;
    (eexists; split; [reflexivity|]);
    unfold Context_ok, Context_history, state_name;
    cbn [this arrays Context_state Context_stateHistory];
    rewrite ?lookup_insert_eq, ?(lookup_after_copy _ _ _ _ Hx), ?Hx;
    simpl; rewrite ?app_nil_r; by repeat split; try eexists.
Qed.

Lemma context_script script :
  forall w : World Context,
    Context_ok w ->
    context_completes script w /\
    Context_ok (context_after script w) /\
    Context_history (context_after script w) =
      Context_history w ++
      records_set (state_name (Context_state (this w))) script /\
    Context_state (this (context_after script w)) =
      match last (states_set script) with
      | Some s => Some s
      | None => Context_state (this w)
      end.
Proof.
  induction script as [|[a e] script IH]; intros w Hok.
  - simpl. by rewrite app_nil_r.
  - destruct (context_call_step a e w Hok) as (w' & E & Hok' & Hh & Hs).
    destruct (IH w' Hok') as (IH1 & IH2 & IH3 & IH4).
    cbn [context_completes context_after]. rewrite E.
    split; [done|]. split; [done|]. rewrite IH3, IH4, Hh, Hs.
    destruct a as [s| | | |]; simpl; rewrite <- ?app_assoc, ?app_nil_r;
      try done.
    split; [done|]. change (states_set ((ContextSetState s, e) :: script))
      with (s :: states_set script).
    destruct (states_set script) as [|x l] using rev_ind; [done|].
    by rewrite app_comm_cons, !last_snoc.
Qed.

(** X18.  A new context counts its transitions.  No call of its methods
    throws; after any script of calls [getTransitionCount()] is the
    number of [setState] calls made, [getCurrentState()] is the state the
    last of them set ([null] if there was none), and the history holds
    one record per [setState], in order, from the state before (["None"]
    at first) to the state set, with the time of the call.  [request()]
    and the getters add nothing to it. *)
Theorem context_counts_transitions :
  forall (store : gmap loc (list TransitionRecord)) (out : list string)
         (script : list (ContextCall * Env)),
    context_completes script (Context_new store out) /\
    Context_history (context_after script (Context_new store out)) =
      records_set "None" script /\
    fst (Context_getTransitionCount
           (context_after script (Context_new store out))) =
      Normal (length (states_set script)) /\
    fst (Context_getCurrentState
           (context_after script (Context_new store out))) =
      Normal (last (states_set script)).
Proof.
  intros store out script.
  destruct (Context_new_ok store out) as [Hok Hh].
  destruct (context_script script _ Hok) as (H1 & H2 & H3 & H4).
  rewrite Hh in H3. simpl in H3, H4.
  split; [done|]. split; [done|]. split.
  - destruct H2 as [x Hx].
    unfold Context_getTransitionCount, array_length, array_read, bind, gets,
      get, ret.
    rewrite Hx. simpl.
    f_equal. unfold Context_history in H3. rewrite Hx in H3. simpl in H3.
    subst x. clear. generalize "None".
    induction script as [|[[s| | | |] e] script IH]; intros prev; simpl;
      try done; try apply IH.
    unfold states_set in *. simpl. f_equal. apply IH.
  - unfold Context_getCurrentState, gets, bind, get, ret. simpl. f_equal.
    rewrite H4. by destruct (last (states_set script)).
Qed.

End StateMoreFacts.

(* ===================================================================== *)
(** * Facts about the automaton *)
(* ===================================================================== *)

Module AutomatonFacts.
Import JS StatePattern AutomatonPattern.
Local Open Scope list_scope.
Local Open Scope js_scope.

Ltac unfold_machine :=
  cbv [bind ret gets get modify throw set_self set_transitions set_symbols
       print transitions_push symbols_push transitions_empty symbols_empty
       transitions_copy symbols_copy resolve default from_option Datatypes.id
       self transitions symbols printed
       Automaton_state inputHistory Automaton_stateHistory].

Lemma symbol_eqb c d :
  String.eqb (String c EmptyString) (String d EmptyString) = Ascii.eqb c d.
Proof. simpl. by destruct (Ascii.eqb c d). Qed.

Lemma setState_run s il tl T U out s' now t :
  T !! tl = Some t ->
  Automaton_setState s' now
    {| self := {| Automaton_state := s; inputHistory := il;
                  Automaton_stateHistory := tl |};
       transitions := T; symbols := U; printed := out |} =
  (Normal JUndefined,
   {| self := {| Automaton_state := s'; inputHistory := il;
                 Automaton_stateHistory := tl |};
      transitions :=
        <[tl := t ++ [{| from := AutomatonState_getName s;
                         to := AutomatonState_getName s';
                         timestamp := now |}]]> T;
      symbols := U;
      printed := out ++
        ["[Automaton] Состояние изменено: " +:+ AutomatonState_getName s
         +:+ " → " +:+ AutomatonState_getName s'] |}).
Proof.
  intros Ht. unfold Automaton_setState. unfold_machine. by rewrite Ht.
Qed.

Lemma print_then {A} line (k : M Machine A) a T U out :
  (print line ;; k)
    {| self := a; transitions := T; symbols := U; printed := out |} =
  k {| self := a; transitions := T; symbols := U;
       printed := out ++ [line] |}.
Proof. reflexivity. Qed.

Lemma setState_then {A} (k : M Machine A) s il tl T U out s' now t :
  T !! tl = Some t ->
  (Automaton_setState s' now ;; k)
    {| self := {| Automaton_state := s; inputHistory := il;
                  Automaton_stateHistory := tl |};
       transitions := T; symbols := U; printed := out |} =
  k {| self := {| Automaton_state := s'; inputHistory := il;
                  Automaton_stateHistory := tl |};
       transitions :=
         <[tl := t ++ [{| from := AutomatonState_getName s;
                          to := AutomatonState_getName s';
                          timestamp := now |}]]> T;
       symbols := U;
       printed := out ++
         ["[Automaton] Состояние изменено: " +:+ AutomatonState_getName s
          +:+ " → " +:+ AutomatonState_getName s'] |}.
Proof.
  intros Ht. unfold bind at 1. by rewrite (setState_run _ _ _ _ _ _ _ _ _ Ht).
Qed.

(** A [process] call follows the table. *)
Lemma process_run s il tl T U out c now t :
  T !! tl = Some t ->
  exists lines,
    process s (String c EmptyString) now
      {| self := {| Automaton_state := s; inputHistory := il;
                    Automaton_stateHistory := tl |};
         transitions := T; symbols := U; printed := out |} =
    (Normal (bool_decide (is_Some (transition s c))),
     {| self := {| Automaton_state := default s (transition s c);
                   inputHistory := il; Automaton_stateHistory := tl |};
        transitions :=
          <[tl := t ++ match transition s c with
                       | Some s' => moved s s' now
                       | None => []
                       end]> T;
        symbols := U;
        printed := out ++ lines |}).
Proof.
  intros Ht.
  destruct s; unfold process, own_process, resolve, default,
    InitialState_process, StateA_process, StateB_process,
    FinalStateC_process, transition;
    cbn [Datatypes.id];
    change "a" with (String "a"%char EmptyString);
    change "b" with (String "b"%char EmptyString);
    change "c" with (String "c"%char EmptyString);
    rewrite ?symbol_eqb;
    destruct (Ascii.eqb c "a"); [| destruct (Ascii.eqb c "b");
      [| try destruct (Ascii.eqb c "c")] ..];
    rewrite ?print_then, ?(setState_then _ _ _ _ _ _ _ _ _ _ Ht), ?print_then;
    unfold ret, moved; simpl;
    rewrite ?app_nil_r, ?(insert_id _ _ _ Ht), <- ?app_assoc;
    eexists; reflexivity.
Qed.

Lemma chain_app first a b mid final :
  chain first a mid -> chain mid b final -> chain first (a ++ b) final.
Proof.
  revert first. induction a as [|r a IH]; intros first; simpl.
  - by intros ->.
  - intros [-> Ha] Hb. split; [done|]. by apply IH.
Qed.

Lemma moved_chain s s' now :
  chain (AutomatonState_getName s) (moved s s' now)
        (AutomatonState_getName s').
Proof. unfold moved. destruct (decide (s = s')) as [->|]; by simpl. Qed.

Lemma moved_changes s s' now :
  Forall (fun r => from r <> to r) (moved s s' now).
Proof.
  unfold moved. destruct (decide (s = s')) as [|Hne]; [constructor|].
  constructor; [|constructor]. simpl. by destruct s, s'.
Qed.

Lemma moved_length s s' now : (length (moved s s' now) <= 1)%nat.
Proof. unfold moved. destruct (decide (s = s')); simpl; lia. Qed.

(** The loop follows [scan]: it pushes the symbols read and the records
    of the state changes, and touches no other array. *)
Lemma for_symbols_run rest :
  forall total clock i s il tl T U out u t,
    s <> FinalStateC ->
    U !! il = Some u ->
    T !! tl = Some t ->
    exists lines recs,
      for_symbols total clock i rest
        {| self := {| Automaton_state := s; inputHistory := il;
                      Automaton_stateHistory := tl |};
           transitions := T; symbols := U; printed := out |} =
      (Normal (exit (scan s rest)),
       {| self := {| Automaton_state := final (scan s rest);
                     inputHistory := il; Automaton_stateHistory := tl |};
          transitions := <[tl := t ++ recs]> T;
          symbols := <[il := u ++ symbols_of (read (scan s rest))]> U;
          printed := out ++ lines |}) /\
      chain (AutomatonState_getName s) recs
            (AutomatonState_getName (final (scan s rest))) /\
      Forall (fun r => from r <> to r) recs /\
      (length recs <= String.length (read (scan s rest)))%nat.
Proof.
  induction rest as [|c rest IH]; intros total clock i s il tl T U out u t
    Hs Hu Ht.
  - exists [], []. simpl. rewrite !app_nil_r, !insert_id by done.
    by repeat split.
  - cbn [for_symbols scan].
    unfold bind at 1, gets at 1. cbn [self inputHistory].
    unfold bind at 1, symbols_push at 1, bind at 1, get at 1.
    cbn [symbols]. rewrite Hu.
    unfold set_symbols at 1, modify at 1.
    cbn [self transitions symbols printed].
    rewrite print_then. unfold bind at 1. cbn [Automaton_state].
    destruct (process_run s il tl T (<[il := u ++ [String c EmptyString]]> U)
                (out ++ [String "010"%char EmptyString
                         +:+ "[Automaton] Обрабатываем символ "
                         +:+ pretty (i + 1)%nat +:+ "/" +:+ pretty total
                         +:+ ": " +:+ dq +:+ String c EmptyString +:+ dq])
                c (clock (S i)) t Ht) as [lines1 E].
    rewrite E. clear E.
    destruct (transition s c) as [s'|] eqn:Etr.
    + rewrite bool_decide_eq_true_2 by eauto. cbn [negb default Datatypes.id].
      unfold bind at 1, gets at 1. cbn [self Automaton_state].
      destruct (isFinal s') eqn:Efin.
      * rewrite print_then. unfold ret.
        eexists; exists (moved s s' (clock (S i))).
        cbn [exit final read symbols_of String.length].
        rewrite <- !app_assoc.
        split; [reflexivity|].
        split; [apply moved_chain|].
        split; [apply moved_changes|apply moved_length].
      * assert (s' <> FinalStateC) as Hs' by (by intros ->).
        destruct (IH total clock (S i) s' il tl
                    (<[tl := t ++ moved s s' (clock (S i))]> T)
                    (<[il := u ++ [String c EmptyString]]> U)
                    ((out ++ [String "010"%char EmptyString
                         +:+ "[Automaton] Обрабатываем символ "
                         +:+ pretty (i + 1)%nat +:+ "/" +:+ pretty total
                         +:+ ": " +:+ dq +:+ String c EmptyString +:+ dq])
                       ++ lines1)
                    (u ++ [String c EmptyString])
                    (t ++ moved s s' (clock (S i))) Hs')
          as (lines & recs & E & Hc & Hf & Hl);
          [apply lookup_insert_eq .. |].
        rewrite E. clear E.
        exists (([String "010"%char EmptyString
                         +:+ "[Automaton] Обрабатываем символ "
                         +:+ pretty (i + 1)%nat +:+ "/" +:+ pretty total
                         +:+ ": " +:+ dq +:+ String c EmptyString +:+ dq]
                 ++ lines1) ++ lines), (moved s s' (clock (S i)) ++ recs).
        cbn [exit final read symbols_of String.length].
        rewrite !insert_insert_eq, <- !app_assoc.
        split; [reflexivity|].
        split; [eapply chain_app; [apply moved_chain|done]|].
        split; [apply Forall_app; split; [apply moved_changes|done]|].
        rewrite length_app. pose proof (moved_length s s' (clock (S i))). lia.
    + rewrite bool_decide_eq_false_2 by (by intros [x Hx]).
      cbn [negb default Datatypes.id]. rewrite print_then. unfold ret.
      eexists; exists [].
      cbn [exit final read symbols_of String.length].
      rewrite <- !app_assoc, app_nil_r, (insert_id T tl t Ht).
      split; [reflexivity|]. simpl. repeat split; [constructor|lia].
Qed.

(** A run on any machine: the result is whether the scan from the
    initial state ends in the final state, the two histories are new
    arrays, and the arrays already in the stores are as they were. *)
Lemma processInput_run input clock a T U out :
  exists lines recs,
    Automaton_processInput input clock
      {| self := a; transitions := T; symbols := U; printed := out |} =
    (Normal (isFinal (final (scan InitialState input))),
     {| self := {| Automaton_state := final (scan InitialState input);
                   inputHistory := fresh (dom U);
                   Automaton_stateHistory := fresh (dom T) |};
        transitions :=
          <[fresh (dom T) :=
              {| from := AutomatonState_getName (Automaton_state a);
                 to := AutomatonState_getName InitialState;
                 timestamp := clock 0%nat |} :: recs]> T;
        symbols :=
          <[fresh (dom U) :=
              symbols_of (read (scan InitialState input))]> U;
        printed := out ++ lines |}) /\
    chain (AutomatonState_getName InitialState) recs
          (AutomatonState_getName (final (scan InitialState input))) /\
    Forall (fun r => from r <> to r) recs /\
    (length recs <= String.length (read (scan InitialState input)))%nat.
Proof.
  destruct a as [s il tl].
  unfold Automaton_processInput. rewrite print_then.
  unfold bind at 1, symbols_empty at 1, bind at 1, get at 1.
  unfold bind at 1, set_symbols at 1, modify at 1, ret at 1.
  cbn [self transitions symbols printed].
  unfold bind at 1, set_self at 1, modify at 1.
  cbn [self transitions symbols printed Automaton_state inputHistory
       Automaton_stateHistory].
  unfold bind at 1, transitions_empty at 1, bind at 1, get at 1.
  unfold bind at 1, set_transitions at 1, modify at 1, ret at 1.
  cbn [self transitions symbols printed].
  unfold bind at 1, set_self at 1, modify at 1.
  cbn [self transitions symbols printed Automaton_state inputHistory
       Automaton_stateHistory].
  rewrite (setState_then _ _ _ _ _ _ _ _ _ []) by apply lookup_insert_eq.
  unfold bind at 1.
  edestruct (for_symbols_run input (String.length input) clock 0%nat
               InitialState) as (lines & recs & E & Hc & Hf & Hl);
    [done | apply lookup_insert_eq | apply lookup_insert_eq |].
  rewrite E. clear E.
  rewrite !insert_insert_eq.
  assert (exit (scan InitialState input) = Finished \/
          exit (scan InitialState input) = Returned false /\
          isFinal (final (scan InitialState input)) = false) as Hexit.
  { assert (InitialState <> FinalStateC) as Hne by done.
    revert Hne. generalize InitialState. clear.
    induction input as [|c rest IH]; intros s Hs; simpl; [by left|].
    destruct (transition s c) as [s'|] eqn:Etr; simpl.
    - destruct (isFinal s') eqn:Efin; simpl; [by left|].
      apply IH. by intros ->.
    - right. split; [done|]. by destruct s. }
  destruct Hexit as [->| [-> Hnf]].
  - unfold bind at 1, gets at 1. cbn [self Automaton_state].
    rewrite print_then. unfold ret.
    eexists; exists recs. rewrite <- !app_assoc. simpl.
    split; [reflexivity|done].
  - rewrite Hnf. unfold ret.
    eexists; exists recs. rewrite <- !app_assoc. simpl.
    split; [reflexivity|done].
Qed.

(** [getInfo()] on an automaton whose histories are in the stores. *)
Lemma getInfo_run s il tl T U out u t :
  U !! il = Some u ->
  T !! tl = Some t ->
  Automaton_getInfo
    {| self := {| Automaton_state := s; inputHistory := il;
                  Automaton_stateHistory := tl |};
       transitions := T; symbols := U; printed := out |} =
  (Normal {| info_currentState := AutomatonState_getName s;
             info_isFinal := isFinal s;
             info_inputHistory := fresh (dom U);
             info_stateHistory := fresh (dom T) |},
   {| self := {| Automaton_state := s; inputHistory := il;
                 Automaton_stateHistory := tl |};
      transitions := <[fresh (dom T) := t]> T;
      symbols := <[fresh (dom U) := u]> U;
      printed := out |}).
Proof.
  intros Hu Ht.
  unfold Automaton_getInfo, Automaton_getInputHistory,
    Automaton_getStateHistory.
  unfold_machine. rewrite Hu. cbv beta iota. by rewrite Ht.
Qed.

(** ** What the table accepts *)

Lemma isFinal_true s : isFinal s = true <-> s = FinalStateC.
Proof. by destruct s. Qed.

Lemma transition_ab s c :
  s <> FinalStateC ->
  c = "a"%char \/ c = "b"%char ->
  exists s', transition s c = Some s' /\ isFinal s' = false /\
             s' = (if decide (c = "a"%char) then StateA else StateB).
Proof.
  intros Hs [->| ->]; destruct s; try done; by eexists.
Qed.

Lemma transition_other s c :
  ~ (c = "a"%char \/ c = "b"%char) ->
  transition s c = None \/
  (s <> InitialState /\ c = "c"%char /\ transition s c = Some FinalStateC).
Proof.
  intros Hc. unfold transition.
  destruct (Ascii.eqb_spec c "a") as [->|_]; [by destruct Hc; left|].
  destruct (Ascii.eqb_spec c "b") as [->|_]; [by destruct Hc; right|].
  destruct (Ascii.eqb_spec c "c") as [->|_]; destruct s; auto.
Qed.

Lemma scan_accepts input :
  forall s,
    s <> FinalStateC ->
    isFinal (final (scan s input)) = true <->
    exists p rest,
      input = p +:+ String "c" rest /\ ab_only p /\
      (s = InitialState -> p <> EmptyString).
Proof.
  induction input as [|c input IH]; intros s Hs.
  - simpl. split.
    + intros Hf. apply isFinal_true in Hf. done.
    + intros (p & rest & E & _). by destruct p.
  - cbn [scan].
    destruct (decide (c = "a"%char \/ c = "b"%char)) as [Hc|Hc].
    + destruct (transition_ab s c Hs Hc) as (s' & -> & Hf & Es').
      rewrite Hf. cbn [final].
      assert (s' <> FinalStateC) as Hs' by (by intros ->).
      rewrite (IH s' Hs'). split.
      * intros (p & rest & -> & Hp & _).
        exists (String c p), rest. repeat split; try done.
      * intros ([|d p] & rest & E & Hp & Hne).
        -- injection E as -> _. by destruct Hc.
        -- injection E as -> ->. destruct Hp as [_ Hp].
           exists p, rest. repeat split; [done|].
           intros ->. by destruct Hc as [->| ->].
    + destruct (transition_other s c Hc) as [Etr|(Hs' & -> & ->)];
        [rewrite Etr|];
        cbn [isFinal own_isFinal resolve default final].
      * split.
        -- intros Hf. apply isFinal_true in Hf. done.
        -- intros ([|d p] & rest & E & Hp & Hne).
           ++ injection E as -> _.
              assert (s = InitialState) as E'.
              { by destruct s. }
              by specialize (Hne E').
           ++ injection E as -> _. by destruct Hp as [Hd _].
      * split; [|done]. intros _.
        exists EmptyString, input. by repeat split.
Qed.

Lemma scan_read input :
  forall s, s <> FinalStateC -> read (scan s input) = consumed input.
Proof.
  unfold consumed.
  induction input as [|c input IH]; intros s Hs; [done|].
  cbn [scan ab_prefix].
  destruct (decide (c = "a"%char \/ c = "b"%char)) as [Hc|Hc].
  - destruct (transition_ab s c Hs Hc) as (s' & -> & -> & Es').
    cbn [read String.length]. simpl. f_equal. apply IH.
    subst s'. by destruct (decide (c = "a"%char)).
  - destruct (transition_other s c Hc) as [->|(Hs' & -> & ->)];
      simpl; by destruct input.
Qed.

(** The state an accepted prefix leaves, whatever the state before. *)
Lemma state_after_ab_cons s c p :
  match last (list_ascii_of_string (String c p)) with
  | None => s
  | Some d => if decide (d = "a"%char) then StateA else StateB
  end =
  match last (list_ascii_of_string p) with
  | None => if decide (c = "a"%char) then StateA else StateB
  | Some d => if decide (d = "a"%char) then StateA else StateB
  end.
Proof.
  simpl. destruct (list_ascii_of_string p) as [|d l]; [done|].
  change (last (c :: d :: l)) with (last (d :: l)).
  destruct (last (d :: l)) eqn:E; [done|]. by apply last_None in E.
Qed.

Lemma scan_final input :
  forall s,
    s <> FinalStateC ->
    final (scan s input) = FinalStateC \/
    final (scan s input) =
      match last (list_ascii_of_string (ab_prefix input)) with
      | None => s
      | Some d => if decide (d = "a"%char) then StateA else StateB
      end.
Proof.
  induction input as [|c input IH]; intros s Hs; [by right|].
  cbn [scan ab_prefix].
  destruct (decide (c = "a"%char \/ c = "b"%char)) as [Hc|Hc].
  - destruct (transition_ab s c Hs Hc) as (s' & -> & -> & Es').
    cbn [final].
    assert (s' <> FinalStateC) as Hs'.
    { subst s'. by destruct (decide (c = "a"%char)). }
    destruct (IH s' Hs') as [E|E]; [by left|right].
    rewrite E, (state_after_ab_cons s c). by subst s'.
  - destruct (transition_other s c Hc) as [->|(Hs' & -> & ->)];
      simpl; auto.
Qed.

(** X19.  The language of the automaton.  [processInput] never throws,
    whatever the automaton did before, and returns [true] exactly for
    the inputs that begin with one or more a's and b's followed by a c;
    what follows that c is not looked at. *)
Theorem automaton_language :
  forall (h : Machine) (input : string) (clock : nat -> string),
    exists (b : bool) (h' : Machine),
      Automaton_processInput input clock h = (Normal b, h') /\
      (b = true <->
       exists p rest,
         input = p +:+ "c" +:+ rest /\ p <> EmptyString /\ ab_only p).
Proof.
  intros [a T U out] input clock.
  destruct (processInput_run input clock a T U out)
    as (lines & recs & E & _).
  eexists _, _. split; [exact E|].
  rewrite scan_accepts by done. split.
  - intros (p & rest & -> & Hp & Hne). exists p, rest. auto.
  - intros (p & rest & -> & Hne & Hp). exists p, rest. auto.
Qed.

(** X20.  What a run reads.  After [processInput(input)] the input
    history holds the symbols read: the a's and b's the input begins
    with and the one symbol after them, if there is one.  The automaton
    is left in [FinalStateC] when the run returned [true], and otherwise
    in the state of the last a or b read ([StateA] or [StateB];
    [InitialState] if the input begins with neither). *)
Theorem automaton_reads_prefix :
  forall (h : Machine) (input : string) (clock : nat -> string),
    input_history (snd (Automaton_processInput input clock h)) =
      symbols_of (consumed input) /\
    Automaton_state (self (snd (Automaton_processInput input clock h))) =
      match fst (Automaton_processInput input clock h) with
      | Normal true => FinalStateC
      | _ => state_after_ab (ab_prefix input)
      end.
Proof.
  intros [a T U out] input clock.
  destruct (processInput_run input clock a T U out)
    as (lines & recs & E & _).
  rewrite E. cbn [fst snd]. unfold input_history.
  cbn [self symbols inputHistory Automaton_state].
  rewrite lookup_insert_eq, scan_read by done. split; [done|].
  destruct (isFinal (final (scan InitialState input))) eqn:Ef.
  - by apply isFinal_true.
  - destruct (scan_final input InitialState) as [E'|E']; [done| |done].
    rewrite E' in Ef. done.
Qed.

(** X21.  The state history of a run.  After [processInput] the state
    history begins with the record of the reset, from the state the
    automaton was left in before to [InitialState], stamped with the
    first reading of the clock; the records after it lead from
    [InitialState] to the current state, each starting where the one
    before ended, each a change of state, and there are no more of them
    than symbols read. *)
Theorem automaton_history_chain :
  forall (h : Machine) (input : string) (clock : nat -> string),
    exists recs : list TransitionRecord,
      state_history (snd (Automaton_processInput input clock h)) =
        {| from := AutomatonState_getName (Automaton_state (self h));
           to := "InitialState"; timestamp := clock 0%nat |} :: recs /\
      chain "InitialState" recs
        (AutomatonState_getName
           (Automaton_state
              (self (snd (Automaton_processInput input clock h))))) /\
      Forall (fun r => from r <> to r) recs /\
      (length recs <=
       length (input_history (snd (Automaton_processInput input clock h))))%nat.
Proof.
  intros [a T U out] input clock.
  destruct (processInput_run input clock a T U out)
    as (lines & recs & E & Hc & Hf & Hl).
  rewrite E. cbn [fst snd]. unfold state_history, input_history.
  cbn [self symbols transitions inputHistory Automaton_stateHistory
       Automaton_state].
  rewrite !lookup_insert_eq. exists recs. simpl.
  repeat split; try done.
  clear -Hl. revert Hl. generalize (read (scan InitialState input)).
  intros s. assert (length (symbols_of s) = String.length s) as ->; [|done].
  induction s as [|c s IH]; simpl; by f_equal.
Qed.

(** X22.  A run starts new histories.  [processInput] does not empty
    the two history arrays, it replaces them: afterwards the stores are
    the stores before with two arrays added, the new input history and
    the new state history, so every array that was there before, the
    old histories and the copies handed out by the getters among them,
    is as it was. *)
Theorem automaton_run_adds_arrays :
  forall (h : Machine) (input : string) (clock : nat -> string),
    symbols h !! inputHistory (self (snd (Automaton_processInput input clock h)))
      = None /\
    transitions h
      !! Automaton_stateHistory
           (self (snd (Automaton_processInput input clock h))) = None /\
    symbols (snd (Automaton_processInput input clock h)) =
      <[inputHistory (self (snd (Automaton_processInput input clock h))) :=
          input_history (snd (Automaton_processInput input clock h))]>
        (symbols h) /\
    transitions (snd (Automaton_processInput input clock h)) =
      <[Automaton_stateHistory
          (self (snd (Automaton_processInput input clock h))) :=
          state_history (snd (Automaton_processInput input clock h))]>
        (transitions h).
Proof.
  intros [a T U out] input clock.
  destruct (processInput_run input clock a T U out)
    as (lines & recs & E & _).
  rewrite E. cbn [fst snd]. unfold state_history, input_history.
  cbn [self symbols transitions inputHistory Automaton_stateHistory].
  rewrite !lookup_insert_eq. simpl.
  repeat split; try done; apply not_elem_of_dom, is_fresh.
Qed.

(** X23.  [getInfo()] after a run.  It does not throw; [isFinal] is the
    result the run returned and [currentState] the name of the state the
    run ended in; [inputHistory] and [stateHistory] are new arrays with
    the contents of the automaton's histories, and the automaton, its
    histories and the console are as the run left them. *)
Theorem automaton_info_after_run :
  forall (h : Machine) (input : string) (clock : nat -> string),
    exists (info : AutomatonInfo) (h2 : Machine),
      Automaton_getInfo (snd (Automaton_processInput input clock h)) =
        (Normal info, h2) /\
      fst (Automaton_processInput input clock h) =
        Normal (info_isFinal info) /\
      info_currentState info =
        AutomatonState_getName
          (Automaton_state
             (self (snd (Automaton_processInput input clock h)))) /\
      symbols (snd (Automaton_processInput input clock h))
        !! info_inputHistory info = None /\
      symbols h2 !! info_inputHistory info =
        Some (symbols_of (consumed input)) /\
      transitions (snd (Automaton_processInput input clock h))
        !! info_stateHistory info = None /\
      transitions h2 !! info_stateHistory info =
        Some (state_history (snd (Automaton_processInput input clock h))) /\
      self h2 = self (snd (Automaton_processInput input clock h)) /\
      input_history h2 = symbols_of (consumed input) /\
      state_history h2 =
        state_history (snd (Automaton_processInput input clock h)) /\
      printed h2 = printed (snd (Automaton_processInput input clock h)).
Proof.
  intros [a T U out] input clock.
  destruct (processInput_run input clock a T U out)
    as (lines & recs & E & _).
  rewrite E. cbn [fst snd].
  erewrite getInfo_run by apply lookup_insert_eq.
  eexists _, _. split; [reflexivity|].
  unfold state_history, input_history.
  cbn [self symbols transitions printed inputHistory Automaton_stateHistory
       Automaton_state info_isFinal info_currentState info_inputHistory
       info_stateHistory].
  rewrite !lookup_insert_eq, scan_read by done.
  assert (forall (A : Type) (m : gmap loc A) (l : loc) (x : A),
             fresh (dom (<[l := x]> m)) <> l) as Hne.
  { intros A m l x Heq.
    apply (is_fresh (dom (<[l := x]> m))). rewrite Heq.
    apply elem_of_dom. rewrite lookup_insert_eq. by eexists. }
  simpl. repeat split; try done;
    try (apply not_elem_of_dom, is_fresh);
    by rewrite lookup_insert_ne, lookup_insert_eq by (apply Hne).
Qed.

End AutomatonFacts.

(* ===================================================================== *)
(** * Facts about the chat room *)
(* ===================================================================== *)

Module ChatFacts.
Import JS StatePattern ChatPattern.
Local Open Scope list_scope.
Local Open Scope js_scope.

Ltac unfold_chat :=
  cbv [bind ret gets get modify throw chat_log read_user read_room
       write_user write_room chat_users chat_rooms chat_console
       ChatUser_name ChatUser_mediator ChatRoom_users].

Lemma string_eqb_refl (s : string) : String.eqb s s = true.
Proof. by apply String.eqb_eq. Qed.

Lemma Map_get_set key value entries :
  Map_get key (Map_set key value entries) = Some value.
Proof.
  induction entries as [|[k v] entries IH]; simpl.
  - by rewrite string_eqb_refl.
  - destruct (String.eqb k key) eqn:E; simpl.
    + by rewrite string_eqb_refl.
    + by rewrite E.
Qed.

Lemma Map_get_set_ne key key' value entries :
  key' <> key ->
  Map_get key' (Map_set key value entries) = Map_get key' entries.
Proof.
  intros Hne. induction entries as [|[k v] entries IH]; simpl.
  - destruct (String.eqb_spec key key'); [by subst|done].
  - destruct (String.eqb_spec k key) as [->|Hk]; simpl.
    + destruct (String.eqb_spec key key'); [by subst|done].
    + by destruct (String.eqb k key').
Qed.

Lemma Map_set_keys key value entries :
  map fst (Map_set key value entries) =
  if decide (key ∈ map fst entries) then map fst entries
  else map fst entries ++ [key].
Proof.
  induction entries as [|[k v] entries IH]; simpl.
  - destruct (decide (key ∈ [])) as [H|_]; [by apply elem_of_nil in H|done].
  - destruct (String.eqb_spec k key) as [->|Hk]; simpl.
    + destruct (decide (key ∈ key :: map fst entries)) as [_|H]; [done|].
      destruct H. apply elem_of_cons. by left.
    + rewrite IH.
      destruct (decide (key ∈ map fst entries)) as [H|H];
        destruct (decide (key ∈ k :: map fst entries)) as [H'|H'];
        try done.
      * destruct H'. apply elem_of_cons. by right.
      * apply elem_of_cons in H' as [->|H']; done.
Qed.

Lemma Map_get_entry key entries user :
  Map_get key entries = Some user -> (key, user) ∈ entries.
Proof.
  induction entries as [|[k v] entries IH]; simpl; [done|].
  destruct (String.eqb_spec k key) as [->|Hk].
  - intros [= ->]. apply elem_of_cons. by left.
  - intros H. apply elem_of_cons. right. by apply IH.
Qed.

Lemma receive_run c user u from message :
  chat_users c !! user = Some u ->
  ChatUser_receive user from message c =
  (Normal JUndefined,
   {| chat_users := chat_users c; chat_rooms := chat_rooms c;
      chat_console := chat_console c ++ [recv_line c from message user] |}).
Proof.
  destruct c as [U R out]. simpl. intros Hu.
  unfold ChatUser_receive, recv_line. unfold_chat. by rewrite Hu.
Qed.

Lemma for_users_run entries :
  forall c from message,
    entries_ok c entries ->
    for_users entries from message c =
    (Normal tt,
     {| chat_users := chat_users c; chat_rooms := chat_rooms c;
        chat_console :=
          chat_console c ++
          map (recv_line c from message) (reached from entries) |}).
Proof.
  induction entries as [|[name user] entries IH]; intros c from message Hok.
  - unfold reached. simpl. rewrite app_nil_r. by destruct c.
  - apply Forall_cons in Hok as [[u Hu] Hok]. simpl in Hu.
    cbn [for_users]. unfold reached. rewrite filter_cons. cbn [fst].
    destruct (String.eqb_spec name from) as [->|Hne]; cbn [negb].
    + destruct (decide (from <> from)) as [H|_]; [done|].
      unfold bind at 1, ret at 1. rewrite IH by done. done.
    + destruct (decide (name <> from)) as [_|H]; [|done].
      unfold bind at 1, bind at 1.
      rewrite (receive_run c user u from message Hu). unfold ret at 1.
      rewrite IH by done. cbn [chat_users chat_rooms chat_console map snd].
      rewrite <- app_assoc. reflexivity.
Qed.

(** The room's [send] and [broadcast], in a room whose entries are
    users of the heap. *)
Lemma room_send_run c mediator room from to message :
  chat_rooms c !! mediator = Some room ->
  entries_ok c (ChatRoom_users room) ->
  ChatRoom_send mediator from to message c =
  (Normal JUndefined,
   {| chat_users := chat_users c; chat_rooms := chat_rooms c;
      chat_console :=
        chat_console c ++
        match Map_get to (ChatRoom_users room) with
        | Some receiver => [recv_line c from message receiver]
        | None => []
        end |}).
Proof.
  intros Hr Hok. unfold ChatRoom_send.
  unfold bind at 1, read_room at 1, bind at 1, get at 1.
  rewrite Hr. unfold ret at 1.
  destruct (Map_get to (ChatRoom_users room)) as [receiver|] eqn:Eg.
  - apply Map_get_entry in Eg.
    unfold entries_ok in Hok. rewrite Forall_forall in Hok.
    destruct (Hok _ Eg) as [v Hv]. simpl in Hv.
    unfold bind at 1. by rewrite (receive_run c receiver v from message Hv).
  - unfold ret. rewrite app_nil_r. by destruct c.
Qed.

Lemma room_broadcast_run c mediator room from message :
  chat_rooms c !! mediator = Some room ->
  entries_ok c (ChatRoom_users room) ->
  ChatRoom_broadcast mediator from message c =
  (Normal JUndefined,
   {| chat_users := chat_users c; chat_rooms := chat_rooms c;
      chat_console :=
        chat_console c ++
        map (recv_line c from message) (reached from (ChatRoom_users room)) |}).
Proof.
  intros Hr Hok. unfold ChatRoom_broadcast.
  unfold bind at 1, read_room at 1, bind at 1, get at 1.
  rewrite Hr. unfold ret at 1.
  unfold bind at 1. by rewrite for_users_run.
Qed.

(** X24.  A message sent reaches the user registered under the name.
    When a user whose mediator is a room sends to a name, the console
    gains the [[Send]] line and, if the room has an entry for the name,
    the [[Recv]] line of that entry's user; a name the room does not
    know gets nothing, and no error.  Nothing but the console
    changes. *)
Theorem chat_send_delivers :
  forall (c : Chat) (user : loc) (name : string) (mediator : loc)
         (room : ChatRoom) (to message : string),
    chat_users c !! user =
      Some {| ChatUser_name := name; ChatUser_mediator := Some mediator |} ->
    chat_rooms c !! mediator = Some room ->
    entries_ok c (ChatRoom_users room) ->
    ChatUser_send user to message c =
    (Normal JUndefined,
     {| chat_users := chat_users c; chat_rooms := chat_rooms c;
        chat_console :=
          chat_console c ++
          ("[Send] " +:+ name +:+ " -> " +:+ to +:+ ": " +:+ message)
          :: match Map_get to (ChatRoom_users room) with
             | Some receiver => [recv_line c name message receiver]
             | None => []
             end |}).
Proof.
  intros c user name mediator room to message Hu Hr Hok.
  unfold ChatUser_send.
  unfold bind at 1, read_user at 1, bind at 1, get at 1. rewrite Hu.
  unfold ret at 1. cbn [ChatUser_mediator ChatUser_name].
  unfold bind at 1, chat_log at 1, modify at 1. unfold bind at 1.
  rewrite (room_send_run _ mediator room) by done.
  unfold ret, recv_line. cbn [chat_users chat_rooms chat_console].
  by rewrite <- app_assoc.
Qed.

Lemma chat_send_delivers_witness :
  ChatUser_send 0%nat "Bob" "Привет!" demo_chat =
  (Normal JUndefined,
   {| chat_users := chat_users demo_chat; chat_rooms := chat_rooms demo_chat;
      chat_console := ["[Send] Alice -> Bob: Привет!";
                       "[Recv] Bob <- Alice: Привет!"] |}).
Proof.
  refine (chat_send_delivers demo_chat 0%nat "Alice" 0%nat
            {| ChatRoom_users := [("Alice", 0%nat); ("Bob", 1%nat);
                                  ("Charlie", 2%nat)] |}
            "Bob" "Привет!" _ _ _).
  - vm_compute. reflexivity.
  - vm_compute. reflexivity.
  - repeat constructor; vm_compute; eexists; reflexivity.
Defined.

(** X25.  A broadcast reaches every other name of the room, in the
    order of registration.  When a user whose mediator is a room
    broadcasts, the console gains the [[Broadcast]] line and then one
    [[Recv]] line for each entry of the room whose name is not the
    sender's, in the order of the entries; the entry under the sender's
    own name gets nothing.  Nothing but the console changes. *)
Theorem chat_broadcast_reaches :
  forall (c : Chat) (user : loc) (name : string) (mediator : loc)
         (room : ChatRoom) (message : string),
    chat_users c !! user =
      Some {| ChatUser_name := name; ChatUser_mediator := Some mediator |} ->
    chat_rooms c !! mediator = Some room ->
    entries_ok c (ChatRoom_users room) ->
    ChatUser_broadcast user message c =
    (Normal JUndefined,
     {| chat_users := chat_users c; chat_rooms := chat_rooms c;
        chat_console :=
          chat_console c ++
          ("[Broadcast] " +:+ name +:+ ": " +:+ message)
          :: map (recv_line c name message)
                 (reached name (ChatRoom_users room)) |}).
Proof.
  intros c user name mediator room message Hu Hr Hok.
  unfold ChatUser_broadcast.
  unfold bind at 1, read_user at 1, bind at 1, get at 1. rewrite Hu.
  unfold ret at 1. cbn [ChatUser_mediator ChatUser_name].
  unfold bind at 1, chat_log at 1, modify at 1. unfold bind at 1.
  rewrite (room_broadcast_run _ mediator room) by done.
  unfold ret, recv_line. cbn [chat_users chat_rooms chat_console].
  by rewrite <- app_assoc.
Qed.

Lemma chat_broadcast_reaches_witness :
  ChatUser_broadcast 2%nat "Всем привет!" demo_chat =
  (Normal JUndefined,
   {| chat_users := chat_users demo_chat; chat_rooms := chat_rooms demo_chat;
      chat_console := ["[Broadcast] Charlie: Всем привет!";
                       "[Recv] Alice <- Charlie: Всем привет!";
                       "[Recv] Bob <- Charlie: Всем привет!"] |}).
Proof.
  refine (chat_broadcast_reaches demo_chat 2%nat "Charlie" 0%nat
            {| ChatRoom_users := [("Alice", 0%nat); ("Bob", 1%nat);
                                  ("Charlie", 2%nat)] |}
            "Всем привет!" _ _ _).
  - vm_compute. reflexivity.
  - vm_compute. reflexivity.
  - repeat constructor; vm_compute; eexists; reflexivity.
Defined.

(** X26.  A user in no room.  [send] of a user whose mediator is [null]
    throws the error ['User is not registered in a chat'] before it
    prints anything, and changes nothing; [broadcast] has no such check:
    it prints its [[Broadcast]] line and then fails with a [TypeError],
    the call of a method on [null]. *)
Theorem chat_unregistered :
  forall (c : Chat) (user : loc) (name : string) (to message : string),
    chat_users c !! user =
      Some {| ChatUser_name := name; ChatUser_mediator := None |} ->
    ChatUser_send user to message c =
      (Throw (Error "User is not registered in a chat"), c) /\
    ChatUser_broadcast user message c =
      (Throw TypeError,
       {| chat_users := chat_users c; chat_rooms := chat_rooms c;
          chat_console :=
            chat_console c ++
            ["[Broadcast] " +:+ name +:+ ": " +:+ message] |}).
Proof.
  intros [U R out] user name to message Hu. simpl in Hu.
  unfold ChatUser_send, ChatUser_broadcast. unfold_chat.
  by rewrite Hu.
Qed.

Lemma chat_unregistered_witness :
  ChatUser_send 0%nat "Bob" "Привет!"
    (snd (ChatUser_new "Alice"
            {| chat_users := ∅; chat_rooms := ∅; chat_console := [] |})) =
    (Throw (Error "User is not registered in a chat"),
     snd (ChatUser_new "Alice"
            {| chat_users := ∅; chat_rooms := ∅; chat_console := [] |})) /\
  fst (ChatUser_broadcast 0%nat "Привет!"
         (snd (ChatUser_new "Alice"
                 {| chat_users := ∅; chat_rooms := ∅;
                    chat_console := [] |}))) =
    Throw TypeError.
Proof.
  destruct (chat_unregistered
              (snd (ChatUser_new "Alice"
                      {| chat_users := ∅; chat_rooms := ∅;
                         chat_console := [] |}))
              0%nat "Alice" "Bob" "Привет!") as [Hs Hb].
  - vm_compute. reflexivity.
  - split; [exact Hs|]. rewrite Hb. reflexivity.
Defined.

(** X27.  Registering a user.  [register] never fails on a room and a
    user of the heap.  It makes the room the user's mediator, whatever
    it was before, and leaves every other user and every other room as
    they were, so a room the user was registered in before still has
    its entry.  In the room the user takes the place of the entry with
    the same name, if there is one, and else goes to the end; a message
    the room then sends to the name reaches this user. *)
Theorem chat_register_then_send :
  forall (c : Chat) (room : loc) (r : ChatRoom) (user : loc) (u : ChatUser),
    chat_rooms c !! room = Some r ->
    chat_users c !! user = Some u ->
    exists c' : Chat,
      ChatRoom_register room user c = (Normal JUndefined, c') /\
      chat_users c' =
        <[user := {| ChatUser_name := ChatUser_name u;
                     ChatUser_mediator := Some room |}]> (chat_users c) /\
      chat_rooms c' =
        <[room := {| ChatRoom_users :=
                       Map_set (ChatUser_name u) user (ChatRoom_users r) |}]>
          (chat_rooms c) /\
      chat_console c' = chat_console c /\
      map fst (Map_set (ChatUser_name u) user (ChatRoom_users r)) =
        (if decide (ChatUser_name u ∈ map fst (ChatRoom_users r))
         then map fst (ChatRoom_users r)
         else map fst (ChatRoom_users r) ++ [ChatUser_name u]) /\
      forall from message : string,
        ChatRoom_send room from (ChatUser_name u) message c' =
        (Normal JUndefined,
         {| chat_users := chat_users c'; chat_rooms := chat_rooms c';
            chat_console :=
              chat_console c' ++
              ["[Recv] " +:+ ChatUser_name u +:+ " <- " +:+ from +:+ ": "
               +:+ message] |}).
Proof.
  intros [U R out] room r user u Hr Hu. simpl in Hr, Hu.
  eexists. split.
  { unfold ChatRoom_register. unfold_chat. rewrite Hr. cbv beta iota.
    rewrite Hu. reflexivity. }
  cbn [chat_users chat_rooms chat_console].
  split; [done|]. split; [done|]. split; [done|].
  split; [apply Map_set_keys|].
  intros from message. unfold ChatRoom_send.
  unfold bind at 1, read_room at 1, bind at 1, get at 1.
  cbn [chat_rooms]. rewrite lookup_insert_eq. unfold ret at 1.
  cbn [ChatRoom_users]. rewrite Map_get_set.
  unfold bind at 1.
  erewrite receive_run by (cbn [chat_users]; apply lookup_insert_eq).
  unfold ret, recv_line. cbn [chat_users chat_rooms chat_console].
  by rewrite lookup_insert_eq.
Qed.

Lemma chat_register_then_send_witness :
  exists c' : Chat,
    ChatRoom_register 0%nat 1%nat demo_chat = (Normal JUndefined, c') /\
    fst (ChatRoom_send 0%nat "Alice" "Bob" "Привет!" c') = Normal JUndefined.
Proof.
  destruct (chat_register_then_send demo_chat 0%nat
              {| ChatRoom_users := [("Alice", 0%nat); ("Bob", 1%nat);
                                    ("Charlie", 2%nat)] |}
              1%nat {| ChatUser_name := "Bob";
                       ChatUser_mediator := Some 0%nat |})
    as (c' & E & _ & _ & _ & _ & Hsend).
  - vm_compute. reflexivity.
  - vm_compute. reflexivity.
  - exists c'. split; [exact E|].
    exact (f_equal fst (Hsend "Alice" "Привет!")).
Defined.

(** ** Chats made by the constructors and the methods *)

Lemma rooms_entries_ok c room r :
  rooms_ok c -> chat_rooms c !! room = Some r ->
  entries_ok c (ChatRoom_users r).
Proof.
  intros Hok Hr. destruct (Hok room r Hr) as [_ He].
  apply Forall_forall. intros [name user] Hin.
  destruct (He name user Hin) as (u & Hu & _). by exists u.
Qed.

Lemma Map_set_entry key value entries k v :
  (k, v) ∈ Map_set key value entries ->
  (k, v) = (key, value) \/ (k, v) ∈ entries.
Proof.
  induction entries as [|[k' v'] entries IH]; simpl.
  - intros H. apply list_elem_of_singleton in H. by left.
  - destruct (String.eqb k' key).
    + intros H. apply elem_of_cons in H as [H|H]; [by left|].
      right. apply elem_of_cons. by right.
    + intros H. apply elem_of_cons in H as [H|H].
      * right. apply elem_of_cons. by left.
      * destruct (IH H) as [H'|H']; [by left|].
        right. apply elem_of_cons. by right.
Qed.

Lemma Map_set_NoDup key value entries :
  NoDup (map fst entries) -> NoDup (map fst (Map_set key value entries)).
Proof.
  intros Hnd. rewrite Map_set_keys.
  destruct (decide (key ∈ map fst entries)) as [H|H]; [done|].
  apply NoDup_app. split; [done|]. split; [|apply NoDup_singleton].
  intros x Hx Hx'. apply list_elem_of_singleton in Hx'. by subst.
Qed.

(** Talking changes the console only. *)
Lemma for_users_console entries :
  forall U R out from message,
    exists out',
      snd (for_users entries from message
             {| chat_users := U; chat_rooms := R; chat_console := out |}) =
      {| chat_users := U; chat_rooms := R; chat_console := out' |}.
Proof.
  induction entries as [|[name user] entries IH]; intros U R out from
    message; [by eexists|].
  cbn [for_users]. destruct (negb (String.eqb name from)).
  - unfold bind at 1, bind at 1, ChatUser_receive. unfold_chat.
    destruct (U !! user) as [u|]; [|by eexists]. cbv beta iota.
    apply IH.
  - unfold bind at 1, ret at 1. apply IH.
Qed.

Lemma talk_console a U R out :
  match a with Send _ _ _ | Broadcast _ _ => True | _ => False end ->
  exists out',
    snd (chat_call a
           {| chat_users := U; chat_rooms := R; chat_console := out |}) =
    {| chat_users := U; chat_rooms := R; chat_console := out' |}.
Proof.
  destruct a as [| | |user to message|user message]; try done; intros _.
  - unfold chat_call, void_chat, ChatUser_send, ChatRoom_send,
      ChatUser_receive. unfold_chat.
    destruct (U !! user) as [[name [m|]]|]; try by eexists. cbv beta iota.
    destruct (R !! m) as [[entries]|]; try by eexists. cbv beta iota.
    destruct (Map_get to entries) as [receiver|]; try by eexists.
    destruct (U !! receiver); by eexists.
  - unfold chat_call, void_chat, ChatUser_broadcast, ChatRoom_broadcast.
    unfold bind at 1, bind at 1, read_user at 1, bind at 1, get at 1.
    cbn [chat_users]. destruct (U !! user) as [[name [m|]]|];
      try by eexists.
    unfold ret at 1. cbn [ChatUser_name ChatUser_mediator].
    unfold bind at 1, chat_log at 1, modify at 1.
    cbn [chat_users chat_rooms chat_console].
    unfold bind at 1, bind at 1, read_room at 1, bind at 1, get at 1.
    cbn [chat_rooms]. destruct (R !! m) as [[entries]|]; try by eexists.
    unfold ret at 1. cbn [ChatRoom_users]. unfold bind at 1.
    destruct (for_users_console entries U R
                (out ++ ["[Broadcast] " +:+ name +:+ ": " +:+ message])
                name message) as [out' E].
    destruct (for_users entries name message _) as [[[]|e] c'];
      unfold ret; simpl in *; subst c'; by eexists.
Qed.

Lemma chat_call_ok a c :
  rooms_ok c -> mediators_ok c ->
  rooms_ok (snd (chat_call a c)) /\ mediators_ok (snd (chat_call a c)).
Proof.
  intros Hrooms Hmed.
  destruct a as [name| |room user|user to message|user message].
  - destruct c as [U R out]. simpl. split.
    + intros room r Hr. destruct (Hrooms room r Hr) as [Hnd He].
      split; [done|]. intros k l Hin.
      destruct (He k l Hin) as (u & Hu & Hname). exists u. split; [|done].
      simpl in *. rewrite lookup_insert_ne; [done|].
      intros <-. apply (is_fresh (dom U)). apply elem_of_dom. by exists u.
    + intros l u room. simpl.
      destruct (decide (l = fresh (dom U))) as [->|Hne].
      * rewrite lookup_insert_eq. by intros [= <-].
      * rewrite lookup_insert_ne by done. apply Hmed.
  - destruct c as [U R out]. simpl. split.
    + intros room r. simpl.
      destruct (decide (room = fresh (dom R))) as [->|Hne].
      * rewrite lookup_insert_eq. intros [= <-]. simpl.
        split; [constructor|]. intros k l Hin. by apply elem_of_nil in Hin.
      * rewrite lookup_insert_ne by done. apply Hrooms.
    + intros l u room Hu Hm. simpl in *.
      destruct (Hmed l u room Hu Hm) as [r Hr].
      destruct (decide (room = fresh (dom R))) as [->|Hne].
      * rewrite lookup_insert_eq. by eexists.
      * rewrite lookup_insert_ne by done. by exists r.
  - destruct c as [U R out].
    unfold chat_call, void_chat, ChatRoom_register. unfold_chat.
    destruct (R !! room) as [r|] eqn:Hr; [|done]. cbv beta iota.
    destruct (U !! user) as [u|] eqn:Hu; [|done]. cbv beta iota.
    cbn [snd]. split.
    + intros room' r'. cbn [chat_rooms chat_users].
      destruct (decide (room' = room)) as [->|Hne].
      * rewrite lookup_insert_eq. intros [= <-]. cbn [ChatRoom_users].
        destruct (Hrooms room r Hr) as [Hnd He].
        split; [by apply Map_set_NoDup|]. intros k l Hin.
        apply Map_set_entry in Hin as [[= -> ->]|Hin].
        -- rewrite lookup_insert_eq. by eexists.
        -- destruct (He k l Hin) as (v & Hv & Hname).
           destruct (decide (l = user)) as [->|Hl].
           ++ rewrite lookup_insert_eq. eexists. split; [done|]. simpl.
              simpl in Hv. rewrite Hu in Hv. by injection Hv as <-.
           ++ rewrite lookup_insert_ne by done. by exists v.
      * rewrite lookup_insert_ne by done. intros Hr'.
        destruct (Hrooms room' r' Hr') as [Hnd He].
        split; [done|]. intros k l Hin.
        destruct (He k l Hin) as (v & Hv & Hname).
        destruct (decide (l = user)) as [->|Hl].
        -- rewrite lookup_insert_eq. eexists. split; [done|]. simpl.
           simpl in Hv. rewrite Hu in Hv. by injection Hv as <-.
        -- rewrite lookup_insert_ne by done. by exists v.
    + intros l v room'. cbn [chat_rooms chat_users].
      destruct (decide (l = user)) as [->|Hl].
      * rewrite lookup_insert_eq. intros [= <-]. simpl. intros [= <-].
        rewrite lookup_insert_eq. by eexists.
      * rewrite lookup_insert_ne by done. intros Hv Hm.
        destruct (Hmed l v room' Hv Hm) as [r' Hr'].
        destruct (decide (room' = room)) as [->|Hne].
        -- rewrite lookup_insert_eq. by eexists.
        -- rewrite lookup_insert_ne by done. by exists r'.
  - destruct c as [U R out].
    destruct (talk_console (Send user to message) U R out I) as [out' E].
    rewrite E. done.
  - destruct c as [U R out].
    destruct (talk_console (Broadcast user message) U R out I) as [out' E].
    rewrite E. done.
Qed.

Lemma chat_after_ok script :
  forall c,
    rooms_ok c -> mediators_ok c ->
    rooms_ok (chat_after script c) /\ mediators_ok (chat_after script c).
Proof.
  induction script as [|a script IH]; intros c Hr Hm; [done|].
  destruct (chat_call_ok a c Hr Hm) as [Hr' Hm'].
  apply (IH _ Hr' Hm').
Qed.

(** X28.  A chat made by the constructors and the methods is well
    formed.  After any script of [new ChatUser], [new ChatRoom],
    [register], [send] and [broadcast] calls from nothing, with the
    exceptions caught, no room has a name twice, every entry of a room
    is a user under its own name, and every user that has a mediator
    can [send] and [broadcast] without an exception. *)
Theorem chat_reachable_ok :
  forall script : list ChatCall,
    rooms_ok (chat_after script empty_chat) /\
    mediators_ok (chat_after script empty_chat) /\
    forall user : loc,
      from_option (fun u => is_Some (ChatUser_mediator u)) False
        (chat_users (chat_after script empty_chat) !! user) ->
      can_talk (chat_after script empty_chat) user.
Proof.
  intros script.
  destruct (chat_after_ok script empty_chat) as [Hr Hm].
  { intros room r Hr. simpl in Hr. by rewrite lookup_empty in Hr. }
  { intros user u room Hu. simpl in Hu. by rewrite lookup_empty in Hu. }
  split; [done|]. split; [done|].
  intros user Hu to message.
  destruct (chat_users (chat_after script empty_chat) !! user)
    as [[name [room|]]|] eqn:E; simpl in Hu; try done;
    [|by destruct Hu..].
  destruct (Hm user _ room E eq_refl) as [r Er].
  pose proof (rooms_entries_ok _ room r Hr Er) as Hok.
  split.
  - unfold ChatUser_send.
    unfold bind at 1, read_user at 1, bind at 1, get at 1. rewrite E.
    unfold ret at 1. cbn [ChatUser_mediator ChatUser_name].
    unfold bind at 1, chat_log at 1, modify at 1. unfold bind at 1.
    by rewrite (room_send_run _ room r).
  - unfold ChatUser_broadcast.
    unfold bind at 1, read_user at 1, bind at 1, get at 1. rewrite E.
    unfold ret at 1. cbn [ChatUser_mediator ChatUser_name].
    unfold bind at 1, chat_log at 1, modify at 1. unfold bind at 1.
    by rewrite (room_broadcast_run _ room r).
Qed.

End ChatFacts.

(* ===================================================================== *)
(** * Facts about the login dialog *)
(* ===================================================================== *)

Module DialogFacts.
Import JS StatePattern DialogPattern.
Local Open Scope list_scope.
Local Open Scope js_scope.

Ltac unfold_desk :=
  cbv [bind ret gets get modify throw desk_log read_widget read_dialog
       write_widget write_dialog desk_widgets desk_dialogs desk_console
       Widget_class Widget_name Widget_mediator Widget_value Widget_checked].

Ltac step_desk :=
  repeat first
    [ rewrite lookup_insert_eq
    | rewrite decide_True by done
    | rewrite bool_decide_eq_true_2 by done
    | rewrite bool_decide_eq_false_2 by done
    | progress cbn [andb Dialog_widgets]
    | progress cbv beta iota ].

Lemma field_assign key value fields :
  field key (assign key value fields) = value.
Proof.
  induction fields as [|[k v] fields IH]; simpl.
  - by rewrite (proj2 (String.eqb_eq key key)).
  - destruct (String.eqb k key) eqn:E; simpl.
    + by rewrite (proj2 (String.eqb_eq key key)).
    + by rewrite E.
Qed.

Lemma field_assign_ne key key' value fields :
  key' <> key -> field key' (assign key value fields) = field key' fields.
Proof.
  intros Hne. induction fields as [|[k v] fields IH]; simpl.
  - destruct (String.eqb_spec key key'); [by subst|done].
  - destruct (String.eqb_spec k key) as [->|Hk]; simpl.
    + destruct (String.eqb_spec key key'); [by subst|done].
    + by destruct (String.eqb k key').
Qed.

Lemma field_set_field key key' value fields :
  field key' (set_field key value fields) =
  if String.eqb key' key && negb (String.eqb key "__proto__")
  then value else field key' fields.
Proof.
  unfold set_field.
  destruct (String.eqb key "__proto__"); simpl.
  - by rewrite andb_false_r.
  - rewrite andb_true_r.
    destruct (String.eqb_spec key' key) as [->|Hne].
    + apply field_assign.
    + by apply field_assign_ne.
Qed.

(** [setValue(v)] of a text box registered with a login dialog. *)
Lemma setValue_run W D out w name value checked d ws st v :
  W !! w = Some {| Widget_class := TextBox; Widget_name := name;
                   Widget_mediator := Some d; Widget_value := value;
                   Widget_checked := checked |} ->
  D !! d = Some (LoginDialogObject ws st) ->
  TextBox_setValue w v
    {| desk_widgets := W; desk_dialogs := D; desk_console := out |} =
  (Normal JUndefined,
   {| desk_widgets :=
        <[w := {| Widget_class := TextBox; Widget_name := name;
                  Widget_mediator := Some d; Widget_value := v;
                  Widget_checked := checked |}]> W;
      desk_dialogs := <[d := LoginDialogObject ws (set_field name v st)]> D;
      desk_console :=
        out ++ ["[LoginDialog] " +:+ name +:+ " изменен: " +:+ to_string v] |}).
Proof.
  intros HW HD.
  unfold TextBox_setValue, method_of, notify, LoginDialog_notify, read_state,
    write_state.
  unfold_desk. rewrite HW. step_desk. rewrite HD. step_desk.
  change (String.eqb "change" "change") with true. step_desk.
  rewrite HD. step_desk. rewrite HD. step_desk. reflexivity.
Qed.

(** [setChecked(v)] of a check box registered with a login dialog. *)
Lemma setChecked_run W D out w name value checked d ws st v :
  W !! w = Some {| Widget_class := CheckBox; Widget_name := name;
                   Widget_mediator := Some d; Widget_value := value;
                   Widget_checked := checked |} ->
  D !! d = Some (LoginDialogObject ws st) ->
  CheckBox_setChecked w v
    {| desk_widgets := W; desk_dialogs := D; desk_console := out |} =
  (Normal JUndefined,
   {| desk_widgets :=
        <[w := {| Widget_class := CheckBox; Widget_name := name;
                  Widget_mediator := Some d; Widget_value := value;
                  Widget_checked := v |}]> W;
      desk_dialogs := <[d := LoginDialogObject ws (assign "remember" v st)]> D;
      desk_console :=
        out ++ ["[LoginDialog] remember=" +:+ to_string v] |}).
Proof.
  intros HW HD.
  unfold CheckBox_setChecked, method_of, notify, LoginDialog_notify,
    read_state, write_state.
  unfold_desk. rewrite HW. step_desk. rewrite HD. step_desk.
  change (String.eqb "toggle" "toggle") with true. step_desk.
  rewrite HD. step_desk. rewrite HD. step_desk. reflexivity.
Qed.

(** [click()] of a button registered with a login dialog. *)
Lemma click_run W D out w name value checked d ws st :
  W !! w = Some {| Widget_class := Button; Widget_name := name;
                   Widget_mediator := Some d; Widget_value := value;
                   Widget_checked := checked |} ->
  D !! d = Some (LoginDialogObject ws st) ->
  Button_click w
    {| desk_widgets := W; desk_dialogs := D; desk_console := out |} =
  (Normal JUndefined,
   {| desk_widgets := W; desk_dialogs := D;
      desk_console :=
        out ++
        if truthy (field "username" st) && truthy (field "password" st)
        then ["[LoginDialog] Авторизация...";
              "[LoginDialog] Добро пожаловать, "
              +:+ to_string (field "username" st) +:+ "!"]
        else ["[LoginDialog] Заполните имя и пароль"] |}).
Proof.
  intros HW HD.
  unfold Button_click, method_of, notify, LoginDialog_notify, read_state,
    write_state.
  unfold_desk. rewrite HW. step_desk. rewrite HD. step_desk.
  rewrite HW. step_desk.
  change (String.eqb "click" "click") with true. step_desk.
  rewrite HD. step_desk.
  destruct (truthy (field "username" st) && truthy (field "password" st));
    step_desk; by rewrite <- ?app_assoc.
Qed.

Lemma registered_inv W D out w class name d :
  registered {| desk_widgets := W; desk_dialogs := D; desk_console := out |}
             w class name d ->
  exists value checked ws st,
    W !! w = Some {| Widget_class := class; Widget_name := name;
                     Widget_mediator := Some d; Widget_value := value;
                     Widget_checked := checked |} /\
    D !! d = Some (LoginDialogObject ws st).
Proof.
  intros [([c n m value checked] & HW & <- & <- & Hm) (ws & st & HD)].
  simpl in *. subst m. by exists value, checked, ws, st.
Qed.

(** X29.  Logging in.  With two text boxes named [username] and
    [password] and a button registered with the same login dialog,
    entering a value in each box and clicking the button prints the two
    change lines and then the welcome with the value entered as user
    name, when both values are truthy (non-empty strings), and else the
    request to fill in both; what the boxes held before does not
    matter, and no call throws. *)
Theorem login_after_values :
  forall (k : Desk) (user_box password_box button : loc) (label : string)
         (dialog : loc) (u p : Payload),
    registered k user_box TextBox "username" dialog ->
    registered k password_box TextBox "password" dialog ->
    registered k button Button label dialog ->
    let run : M Desk JSValue :=
      (TextBox_setValue user_box u ;;
       TextBox_setValue password_box p ;;
       Button_click button)%js in
    fst (run k) = Normal JUndefined /\
    desk_console (snd (run k)) =
      desk_console k ++
      ["[LoginDialog] username изменен: " +:+ to_string u;
       "[LoginDialog] password изменен: " +:+ to_string p] ++
      (if truthy u && truthy p
       then ["[LoginDialog] Авторизация...";
             "[LoginDialog] Добро пожаловать, " +:+ to_string u +:+ "!"]
       else ["[LoginDialog] Заполните имя и пароль"]).
Proof.
  intros [W D out] wu wp b label d u p Hu Hp Hb run. subst run.
  apply registered_inv in Hu as (vu & cu & ws & st & HWu & HD).
  apply registered_inv in Hp as (vp & cp & ws' & st' & HWp & HD').
  apply registered_inv in Hb as (vb & cb & ws'' & st'' & HWb & HD'').
  assert (wu <> wp) as Hup by (intros ->; rewrite HWu in HWp; done).
  assert (wu <> b) as Hub by (intros ->; rewrite HWu in HWb; done).
  assert (wp <> b) as Hpb by (intros ->; rewrite HWp in HWb; done).
  match goal with
  | |- fst ?r = _ /\ _ => destruct r as [result k'] eqn:E
  end.
  revert E.
  unfold bind at 1. rewrite (setValue_run _ _ _ _ _ _ _ _ _ _ _ HWu HD).
  unfold bind at 1.
  erewrite setValue_run;
    [| by rewrite lookup_insert_ne | by rewrite lookup_insert_eq].
  erewrite click_run;
    [| by rewrite !lookup_insert_ne | by rewrite lookup_insert_eq].
  intros [= <- <-].
  cbn [fst snd desk_console]. split; [done|].
  rewrite !field_set_field.
  change (String.eqb "username" "password") with false.
  change (String.eqb "password" "password") with true.
  change (String.eqb "username" "username") with true.
  change (String.eqb "password" "__proto__") with false.
  change (String.eqb "username" "__proto__") with false.
  cbn [andb negb]. by rewrite <- !app_assoc.
Qed.

Lemma login_after_values_witness :
  desk_console
    (snd ((TextBox_setValue 0%nat (PStr "admin") ;;
           TextBox_setValue 1%nat (PStr "1234") ;;
           Button_click 3%nat)%js demo_desk)) =
  ["[LoginDialog] username изменен: admin";
   "[LoginDialog] password изменен: 1234";
   "[LoginDialog] Авторизация...";
   "[LoginDialog] Добро пожаловать, admin!"].
Proof.
  refine (proj2 (login_after_values demo_desk 0%nat 1%nat 3%nat "submit"
                   0%nat (PStr "admin") (PStr "1234") _ _ _)).
  - split; [eexists|eexists _, _]; vm_compute; repeat split; reflexivity.
  - split; [eexists|eexists _, _]; vm_compute; repeat split; reflexivity.
  - split; [eexists|eexists _, _]; vm_compute; repeat split; reflexivity.
Defined.

(** X30.  The dialog's state is keyed by the names of the text boxes.
    [setValue(v)] of a text box registered with a login dialog does not
    throw, keeps [v] in the box, prints one change line, and writes [v]
    to the property of the dialog's state that has the box's name,
    adding the property if the state has none; every other property
    keeps its value.  So a box named [remember] overwrites the flag of
    the check box.  A box named [__proto__] changes no property. *)
Theorem text_box_writes_its_name :
  forall (k : Desk) (box : loc) (name : string) (dialog : loc) (v : Payload),
    registered k box TextBox name dialog ->
    fst (TextBox_setValue box v k) = Normal JUndefined /\
    (forall key : string,
        field key (login_state (snd (TextBox_setValue box v k)) dialog) =
        if String.eqb key name && negb (String.eqb name "__proto__")
        then v else field key (login_state k dialog)) /\
    from_option Widget_value PUndefined
      (desk_widgets (snd (TextBox_setValue box v k)) !! box) = v /\
    registered (snd (TextBox_setValue box v k)) box TextBox name dialog /\
    desk_console (snd (TextBox_setValue box v k)) =
      desk_console k ++
      ["[LoginDialog] " +:+ name +:+ " изменен: " +:+ to_string v].
Proof.
  intros [W D out] w name d v Hreg.
  apply registered_inv in Hreg as (value & checked & ws & st & HW & HD).
  rewrite (setValue_run _ _ _ _ _ _ _ _ _ _ _ HW HD).
  cbn [fst snd desk_console desk_widgets]. unfold login_state.
  cbn [desk_dialogs]. rewrite !lookup_insert_eq, HD.
  split; [done|]. split; [intros key; apply field_set_field|].
  split; [done|]. split; [|done].
  split.
  - eexists. cbn [desk_widgets]. rewrite lookup_insert_eq. by repeat split.
  - eexists _, _. cbn [desk_dialogs]. by rewrite lookup_insert_eq.
Qed.

Lemma text_box_writes_its_name_witness :
  field "username"
    (login_state (snd (TextBox_setValue 0%nat (PStr "admin") demo_desk))
       0%nat) = PStr "admin" /\
  field "password"
    (login_state (snd (TextBox_setValue 0%nat (PStr "admin") demo_desk))
       0%nat) = PStr EmptyString.
Proof.
  destruct (text_box_writes_its_name demo_desk 0%nat "username" 0%nat
              (PStr "admin")) as (_ & H & _).
  - split; [eexists|eexists _, _]; vm_compute; repeat split; reflexivity.
  - split.
    + exact (H "username").
    + exact (H "password").
Defined.

End DialogFacts.
